(** * ind1.py: a registry of people kept in a JSON file

    A shallow embedding of [src/individuals/ind1.py] and of the parts of
    the Python libraries it calls: [jsonschema.validate], [json.dump],
    [json.load], [datetime.strptime], [list.sort], [str.split],
    [str.join], [str.format], [open] and [pathlib.Path].

    Conventions of the model.
    - A Python [str] is a [string]; each [ascii] stands for the code point
      of the same number, so the alphabet is the code points below 256.
    - A parsed JSON document is a [json]; a Python [dict] is the list of its
      items in insertion order (keys are unique in a well-formed value,
      [wf_json]); numbers are integers.
    - Where a run leaves this fragment (a float literal, text beyond the
      alphabet) the model answers [Raise OutsideModel] and says nothing
      more about that run.
    - A computation that touches the files or prints is a function of
      the [world]; an uncaught exception is the result [Raise].
    - A file is named by its absolute path as a string, and paths are
      joined as texts ([path_join]): that is what pathlib and the file
      system do with names in normal form ([normal_path]: no [.] or
      [..] component, no doubled or trailing slash). The world holds
      files only: nothing a run names is a directory.
    - Writing a file and printing are taken to succeed (no permissions,
      no missing directories, a terminal that takes the text):
      [EvWrite] marks the call that opens a file for writing,
      [EvDisplay] the call of [display_people]. A terminal that follows
      a Latin-1 locale cannot take the Cyrillic header of the table,
      which [display_people] leaves out.
    - The limits of the interpreter (recursion depth, length of integer
      literals) and the translation of line ends by text files, which
      only changes blanks between JSON tokens, are left out. *)

From Stdlib Require Import ZArith Ascii String List Lia Bool.
From Stdlib Require Import Permutation Sorted.
From Stdlib Require Import DecimalFacts DecimalPos DecimalString.
From Stdlib.Strings Require Byte.
From stdpp Require Import base strings list gmap.

Abbreviation byte := Init.Byte.byte.

Set Warnings "-register-all".
Local Open Scope string_scope.
Local Open Scope Z_scope.

(** ** Python values *)

Inductive json : Type :=
| JNull
| JBool (b : bool)
| JInt (z : Z)
| JStr (s : string)
| JArr (items : list json)
| JObj (members : list (string * json)).

(** Exceptions a run can end with. [RecursionError] is what the scanner
    of [json] answers when its fuel runs out, which [json_loads] never
    lets happen. [OutsideModel] is not a Python exception: it marks a run
    that leaves the modelled fragment. *)
Inductive exn : Type :=
| FileNotFoundError
| UnicodeDecodeError
| JSONDecodeError
| ValueError
| KeyError
| TypeError
| AttributeError
| RecursionError
| OutsideModel.

Inductive result (A : Type) : Type :=
| Ok (a : A)
| Raise (e : exn).
Arguments Ok {A} a.
Arguments Raise {A} e.

Definition rbind {A B} (r : result A) (k : A -> result B) : result B :=
  match r with
  | Ok a => k a
  | Raise e => Raise e
  end.

(** [d.get(key)]: the value stored under [key], if any. *)
Fixpoint dict_get (key : string) (d : list (string * json)) : option json :=
  match d with
  | [] => None
  | (k, v) :: d' => if String.eqb k key then Some v else dict_get key d'
  end.

(** [key in d]. *)
Definition dict_has (key : string) (d : list (string * json)) : bool :=
  match dict_get key d with
  | Some _ => true
  | None => false
  end.

(** [d[key] = v]: an existing key keeps its place, a new one goes last. *)
Fixpoint dict_set (key : string) (v : json) (d : list (string * json))
  : list (string * json) :=
  match d with
  | [] => [(key, v)]
  | (k, w) :: d' =>
      if String.eqb k key then (k, v) :: d' else (k, w) :: dict_set key v d'
  end.

(** [value == s] for a string [s]: only an equal string is equal to it. *)
Definition eq_str (value : json) (s : string) : bool :=
  match value with
  | JStr t => String.eqb t s
  | _ => false
  end.

(** ** [str.split] and [str.join] *)

(** [s.split(sep)] for a one-character separator: never an empty list. *)
Fixpoint split (sep : ascii) (s : string) : list string :=
  match s with
  | EmptyString => [EmptyString]
  | String c s' =>
      if Ascii.eqb c sep then EmptyString :: split sep s'
      else match split sep s' with
           | tok :: toks => String c tok :: toks
           | [] => [String c EmptyString]
           end
  end.

(** [sep.join(parts)]. *)
Fixpoint join (sep : string) (parts : list string) : string :=
  match parts with
  | [] => EmptyString
  | [p] => p
  | p :: rest => p +:+ sep +:+ join sep rest
  end.

(** ** jsonschema: the keywords the schema of [validation] uses *)

Inductive jtype : Type := TString | TArray | TObject.

(** A schema is the list of its keywords; a keyword the validator does
    not know ([KUnknown]) constrains nothing. *)
Inductive schema : Type :=
| Schema (keywords : list keyword)
with keyword : Type :=
| KType (t : jtype)
| KItems (s : schema)
| KProperties (props : list (string * schema))
| KRequired (names : list string)
| KUnknown (name : string) (value : json).

Definition is_type (t : jtype) (instance : json) : bool :=
  match t, instance with
  | TString, JStr _ => true
  | TArray, JArr _ => true
  | TObject, JObj _ => true
  | _, _ => false
  end.

(** [jsonschema_valid instance s]: no keyword of [s] reports an error.
    [items] only looks at arrays, [properties] and [required] only at
    objects, as in jsonschema. *)
Fixpoint jsonschema_valid (instance : json) (s : schema) {struct s} : bool :=
  match s with
  | Schema kws =>
      (fix all_keywords (kws : list keyword) : bool :=
         match kws with
         | [] => true
         | kw :: kws' =>
             (match kw with
              | KType t => is_type t instance
              | KItems s' =>
                  match instance with
                  | JArr items => forallb (fun x => jsonschema_valid x s') items
                  | _ => true
                  end
              | KProperties props =>
                  match instance with
                  | JObj members =>
                      (fix all_props (props : list (string * schema)) : bool :=
                         match props with
                         | [] => true
                         | (name, s') :: props' =>
                             (match dict_get name members with
                              | Some v => jsonschema_valid v s'
                              | None => true
                              end) && all_props props'
                         end) props
                  | _ => true
                  end
              | KRequired names =>
                  match instance with
                  | JObj members =>
                      forallb (fun name => dict_has name members) names
                  | _ => true
                  end
              | KUnknown _ _ => true
              end) && all_keywords kws'
         end) kws
  end.

(** The schema literal of [validation], its [items] part first;
    [minitems] is not a keyword of JSON Schema (the keyword is spelled
    [minItems]). *)
Definition person_item_schema : schema :=
  Schema
    [ KType TObject;
      KProperties
        [ ("surname", Schema [KType TString]);
          ("name", Schema [KType TString]);
          ("zodiac", Schema [KType TString]);
          ("birthday",
            Schema [ KType TArray;
                     KItems (Schema [KType TString]);
                     KUnknown "minitems" (JInt 3) ]) ];
      KRequired ["surname"; "name"; "birthday"] ].

Definition person_schema : schema :=
  Schema [ KType TArray; KItems person_item_schema ].

(** The boolean [validation] returns (what it prints is in
    [validation_io] below). *)
Definition validation (instance : json) : bool :=
  jsonschema_valid instance person_schema.

(** ** Record operations *)

(** What argparse hands over for [-z]: a string, or [None] when the
    option is left out. *)
Definition zodiac_value (zodiac : option string) : json :=
  match zodiac with
  | Some z => JStr z
  | None => JNull
  end.

Definition new_person (surname name : string) (zodiac : option string)
    (birthday : string) : json :=
  JObj [ ("surname", JStr surname);
         ("name", JStr name);
         ("zodiac", zodiac_value zodiac);
         ("birthday", JArr (map JStr (split "." birthday))) ].

Definition add_person (people : list json) (surname name : string)
    (zodiac : option string) (birthday : string) : list json :=
  people ++ [new_person surname name zodiac birthday].

(** [i.get("surname", "")] on a list element [i]; only a dict has [get]. *)
Definition get_surname (i : json) : result json :=
  match i with
  | JObj d =>
      match dict_get "surname" d with
      | Some v => Ok v
      | None => Ok (JStr EmptyString)
      end
  | _ => Raise AttributeError
  end.

Fixpoint select_people (surname : string) (people : list json)
  : result (list json) :=
  match people with
  | [] => Ok []
  | i :: people' =>
      rbind (get_surname i) (fun v =>
      rbind (select_people surname people') (fun result =>
      Ok (if eq_str v surname then i :: result else result)))
  end.

(** ** [datetime.strptime(text, "%d.%m.%Y")] *)

(** The regular expressions [_strptime] builds for the directives, with
    the backtracking order of Python's [re]. *)
Inductive regex : Type :=
| Chr (c : ascii)
| Range (lo hi : ascii)
| Seq (r1 r2 : regex)
| Alt (r1 r2 : regex).

Definition in_range (lo hi c : ascii) : bool :=
  ((N_of_ascii lo <=? N_of_ascii c) && (N_of_ascii c <=? N_of_ascii hi))%N.

(** [rmatch r s k]: the first way of matching [r] at the start of [s]
    that the rest of the pattern [k] accepts; [k] gets the matched text
    and what follows it. *)
Fixpoint rmatch {A} (r : regex) (s : string)
    (k : string -> string -> option A) : option A :=
  match r with
  | Chr c =>
      match s with
      | String c' s' => if Ascii.eqb c' c then k (String c' EmptyString) s' else None
      | EmptyString => None
      end
  | Range lo hi =>
      match s with
      | String c' s' => if in_range lo hi c' then k (String c' EmptyString) s' else None
      | EmptyString => None
      end
  | Seq r1 r2 =>
      rmatch r1 s (fun m1 s1 => rmatch r2 s1 (fun m2 s2 => k (m1 +:+ m2) s2))
  | Alt r1 r2 =>
      match rmatch r1 s k with
      | Some a => Some a
      | None => rmatch r2 s k
      end
  end.

(** [\d]: below code point 256 the decimal digits are ["0"] to ["9"]. *)
Definition re_digit : regex := Range "0" "9".

(** [%d] is [3[0-1]|[1-2]\d|0[1-9]|[1-9]| [1-9]]. *)
Definition re_d : regex :=
  Alt (Seq (Chr "3") (Range "0" "1"))
 (Alt (Seq (Range "1" "2") re_digit)
 (Alt (Seq (Chr "0") (Range "1" "9"))
 (Alt (Range "1" "9")
      (Seq (Chr " ") (Range "1" "9"))))).

(** [%m] is [1[0-2]|0[1-9]|[1-9]]. *)
Definition re_m : regex :=
  Alt (Seq (Chr "1") (Range "0" "2"))
 (Alt (Seq (Chr "0") (Range "1" "9"))
      (Range "1" "9")).

(** [%Y] is [\d\d\d\d]. *)
Definition re_Y : regex :=
  Seq re_digit (Seq re_digit (Seq re_digit re_digit)).

(** [int(text)] for a text of digits after blanks. *)
Fixpoint int_of_digits (acc : Z) (text : string) : Z :=
  match text with
  | EmptyString => acc
  | String c text' =>
      if Ascii.eqb c " " then int_of_digits acc text'
      else int_of_digits (10 * acc + (Z.of_N (N_of_ascii c) - 48)) text'
  end.

Definition int_of_text (text : string) : Z := int_of_digits 0 text.

(** A [datetime]; the hour, minute, second and microsecond that
    [strptime] leaves at 0 for this format are not kept. *)
Record datetime : Type := mkdatetime { year : Z; month : Z; day : Z }.

Definition is_leap (y : Z) : bool :=
  (y mod 4 =? 0) && (negb (y mod 100 =? 0) || (y mod 400 =? 0)).

Definition days_in_month (y m : Z) : Z :=
  if m =? 2 then (if is_leap y then 29 else 28)
  else if (m =? 4) || (m =? 6) || (m =? 9) || (m =? 11) then 30
  else 31.

(** [datetime.date(y, m, d)] accepts these and raises [ValueError] on
    the rest. *)
Definition valid_date (y m d : Z) : bool :=
  (1 <=? y) && (y <=? 9999) && (1 <=? m) && (m <=? 12)
  && (1 <=? d) && (d <=? days_in_month y m).

(** [None] is the [ValueError] of [strptime]: no match, text left over
    after the match, or a day the month does not have. *)
Definition strptime_dmY (text : string) : option datetime :=
  match
    rmatch re_d text (fun d s1 =>
    rmatch (Chr ".") s1 (fun _ s2 =>
    rmatch re_m s2 (fun m s3 =>
    rmatch (Chr ".") s3 (fun _ s4 =>
    rmatch re_Y s4 (fun y rest => Some (d, m, y, rest))))))
  with
  | Some (d, m, y, rest) =>
      match rest with
      | EmptyString =>
          let y := int_of_text y in
          let m := int_of_text m in
          let d := int_of_text d in
          if valid_date y m d then Some (mkdatetime y m d) else None
      | String _ _ => None
      end
  | None => None
  end.

(** [a < b] on [datetime]: the fields compared in order. *)
Definition datetime_ltb (a b : datetime) : bool :=
  (year a <? year b)
  || ((year a =? year b)
      && ((month a <? month b)
          || ((month a =? month b) && (day a <? day b)))).

(** ** The sort of [main] *)

(** The strings [".".join(v)] iterates over: the items of a list of
    strings, the characters of a string, the keys of a dict. *)
Fixpoint strings_of_items (items : list json) : option (list string) :=
  match items with
  | [] => Some []
  | JStr s :: items' =>
      match strings_of_items items' with
      | Some l => Some (s :: l)
      | None => None
      end
  | _ :: _ => None
  end.

Fixpoint chars_of (s : string) : list string :=
  match s with
  | EmptyString => []
  | String c s' => String c EmptyString :: chars_of s'
  end.

Definition iter_strings (v : json) : option (list string) :=
  match v with
  | JArr items => strings_of_items items
  | JStr s => Some (chars_of s)
  | JObj d => Some (map fst d)
  | _ => None
  end.

(** The key of the sort:
    [lambda x: datetime.strptime(".".join(x["birthday"]), "%d.%m.%Y")]. *)
Definition birthday_key (x : json) : result datetime :=
  match x with
  | JObj d =>
      match dict_get "birthday" d with
      | Some v =>
          match iter_strings v with
          | Some toks =>
              match strptime_dmY (join "." toks) with
              | Some t => Ok t
              | None => Raise ValueError
              end
          | None => Raise TypeError
          end
      | None => Raise KeyError
      end
  | _ => Raise TypeError
  end.

Section ListSort.
Context {A K : Type} (key : A -> result K) (ltb : K -> K -> bool).

(** [list.sort] calls [key] once on every item, in order, before it
    moves anything; the first exception ends the sort. *)
Fixpoint decorate (l : list A) : result (list (K * A)) :=
  match l with
  | [] => Ok []
  | x :: l' =>
      rbind (key x) (fun k =>
      rbind (decorate l') (fun kl => Ok ((k, x) :: kl)))
  end.

(** [x] stood before every item of the sorted [l]: it goes in front of
    the first item that is not smaller than it. *)
Fixpoint insert_sorted (x : K * A) (l : list (K * A)) : list (K * A) :=
  match l with
  | [] => [x]
  | y :: l' => if ltb (fst y) (fst x) then y :: insert_sorted x l' else x :: y :: l'
  end.

(** The stable ascending order [list.sort] produces. *)
Fixpoint stable_sort (l : list (K * A)) : list (K * A) :=
  match l with
  | [] => []
  | x :: l' => insert_sorted x (stable_sort l')
  end.

Definition list_sort (l : list A) : result (list A) :=
  rbind (decorate l) (fun kl => Ok (map snd (stable_sort kl))).

End ListSort.

Definition sort_people (people : list json) : result (list json) :=
  list_sort birthday_key datetime_ltb people.

(** ** [json.dump(obj, f, ensure_ascii=False, indent=4)]: the text *)

Definition quote : ascii := "034".
Definition backslash : ascii := "092".
Definition newline : ascii := "010".

Definition hex_digit (n : N) : ascii :=
  if (n <? 10)%N then ascii_of_N (48 + n) else ascii_of_N (87 + n).

(** [ESCAPE_DCT]: the quote, the backslash and the code points below
    32 are written as escapes, everything else as it is. *)
Definition escape_char (c : ascii) : string :=
  let n := N_of_ascii c in
  if Ascii.eqb c quote then String backslash (String quote EmptyString)
  else if Ascii.eqb c backslash then String backslash (String backslash EmptyString)
  else if (n =? 10)%N then String backslash "n"
  else if (n =? 13)%N then String backslash "r"
  else if (n =? 9)%N then String backslash "t"
  else if (n =? 8)%N then String backslash "b"
  else if (n =? 12)%N then String backslash "f"
  else if (n <? 32)%N then
    String backslash
      (String "u" (String "0" (String "0"
         (String (hex_digit (n / 16)) (String (hex_digit (n mod 16)) EmptyString)))))
  else String c EmptyString.

Fixpoint escape (s : string) : string :=
  match s with
  | EmptyString => EmptyString
  | String c s' => escape_char c +:+ escape s'
  end.

Definition encode_basestring (s : string) : string :=
  String quote (escape s +:+ String quote EmptyString).

Fixpoint spaces (n : nat) : string :=
  match n with
  | O => EmptyString
  | S n' => String " " (spaces n')
  end.

(** ["\n" + " " * (4 * level)]. *)
Definition newline_indent (level : nat) : string :=
  String newline (spaces (4 * level)).

(** [str(z)]. *)
Definition string_of_Z (z : Z) : string := NilEmpty.string_of_int (Z.to_int z).

(** The text of a value that stands [level] containers deep. *)
Fixpoint dumps (level : nat) (v : json) {struct v} : string :=
  match v with
  | JNull => "null"
  | JBool true => "true"
  | JBool false => "false"
  | JInt z => string_of_Z z
  | JStr s => encode_basestring s
  | JArr [] => "[]"
  | JArr items =>
      "[" +:+ newline_indent (S level)
      +:+ join ("," +:+ newline_indent (S level)) (map (dumps (S level)) items)
      +:+ newline_indent level +:+ "]"
  | JObj [] => "{}"
  | JObj members =>
      "{" +:+ newline_indent (S level)
      +:+ join ("," +:+ newline_indent (S level))
            (map (fun kv => encode_basestring (fst kv) +:+ ": " +:+ dumps (S level) (snd kv))
               members)
      +:+ newline_indent level +:+ "}"
  end.

Definition json_dumps (v : json) : string := dumps 0 v.

(** ** [json.load]: the scanner *)

Definition is_ws (c : ascii) : bool :=
  Ascii.eqb c " " || Ascii.eqb c "009" || Ascii.eqb c "010" || Ascii.eqb c "013".

Fixpoint skip_ws (s : string) : string :=
  match s with
  | String c s' => if is_ws c then skip_ws s' else s
  | EmptyString => s
  end.

Definition hex_value (c : ascii) : option N :=
  let n := N_of_ascii c in
  if in_range "0" "9" c then Some (n - 48)%N
  else if in_range "a" "f" c then Some (n - 87)%N
  else if in_range "A" "F" c then Some (n - 55)%N
  else None.

(** [BACKSLASH]: the one-letter escapes. *)
Definition unescape (c : ascii) : option ascii :=
  if Ascii.eqb c quote then Some quote
  else if Ascii.eqb c backslash then Some backslash
  else if Ascii.eqb c "/" then Some "/"%char
  else if Ascii.eqb c "b" then Some "008"%char
  else if Ascii.eqb c "f" then Some "012"%char
  else if Ascii.eqb c "n" then Some "010"%char
  else if Ascii.eqb c "r" then Some "013"%char
  else if Ascii.eqb c "t" then Some "009"%char
  else None.

Definition cons_char (c : ascii) (r : result (string * string))
  : result (string * string) :=
  rbind r (fun p => Ok (String c (fst p), snd p)).

(** [scanstring] in strict mode, from behind the opening quote: the
    string and the text after its closing quote. *)
Fixpoint scanstring (s : string) : result (string * string) :=
  match s with
  | EmptyString => Raise JSONDecodeError
  | String c s' =>
      if Ascii.eqb c quote then Ok (EmptyString, s')
      else if Ascii.eqb c backslash then
        match s' with
        | EmptyString => Raise JSONDecodeError
        | String e s'' =>
            if Ascii.eqb e "u" then
              match s'' with
              | String h1 (String h2 (String h3 (String h4 t))) =>
                  match hex_value h1, hex_value h2, hex_value h3, hex_value h4 with
                  | Some n1, Some n2, Some n3, Some n4 =>
                      let n := (((n1 * 16 + n2) * 16 + n3) * 16 + n4)%N in
                      if (n <? 256)%N then cons_char (ascii_of_N n) (scanstring t)
                      else Raise OutsideModel
                  | _, _, _, _ => Raise JSONDecodeError
                  end
              | _ => Raise JSONDecodeError
              end
            else
              match unescape e with
              | Some c' => cons_char c' (scanstring s'')
              | None => Raise JSONDecodeError
              end
        end
      else if (N_of_ascii c <? 32)%N then Raise JSONDecodeError
      else cons_char c (scanstring s')
  end.

Fixpoint take_digits (s : string) : string * string :=
  match s with
  | String c s' =>
      if in_range "0" "9" c
      then let p := take_digits s' in (String c (fst p), snd p)
      else (EmptyString, s)
  | EmptyString => (EmptyString, s)
  end.

Definition starts_with_digit (s : string) : bool :=
  match s with
  | String c _ => in_range "0" "9" c
  | EmptyString => false
  end.

(** The number goes on as a float: a fraction, or an exponent. *)
Definition float_tail (s : string) : bool :=
  match s with
  | String c s' =>
      if Ascii.eqb c "." then starts_with_digit s'
      else if Ascii.eqb c "e" || Ascii.eqb c "E" then
        match s' with
        | String sign s'' =>
            if Ascii.eqb sign "+" || Ascii.eqb sign "-"
            then starts_with_digit s''
            else starts_with_digit s'
        | EmptyString => false
        end
      else false
  | EmptyString => false
  end.

Definition finish_number (negative : bool) (digits rest : string)
  : result (json * string) :=
  if float_tail rest then Raise OutsideModel
  else
    let n := int_of_digits 0 digits in
    Ok (JInt (if negative then - n else n), rest).

(** 0, or a digit from 1 to 9 followed by digits; then the check for
    a float. *)
Definition match_digits (negative : bool) (s : string) : result (json * string) :=
  match s with
  | String c s' =>
      if Ascii.eqb c "0" then finish_number negative "0" s'
      else if in_range "1" "9" c then
        let p := take_digits s' in
        finish_number negative (String c (fst p)) (snd p)
      else Raise JSONDecodeError
  | EmptyString => Raise JSONDecodeError
  end.

(** [NUMBER_RE]: an optional minus sign before the digits. *)
Definition match_number (s : string) : result (json * string) :=
  match s with
  | String c s' =>
      if Ascii.eqb c "-" then match_digits true s' else match_digits false s
  | EmptyString => Raise JSONDecodeError
  end.

(** [s] starts with [p]: what follows [p]. *)
Fixpoint strip_prefix (p s : string) : option string :=
  match p with
  | EmptyString => Some s
  | String c p' =>
      match s with
      | String c' s' => if Ascii.eqb c c' then strip_prefix p' s' else None
      | EmptyString => None
      end
  end.

(** [dict(pairs)]: a later pair with the same key replaces the value. *)
Definition dict_of_pairs (pairs : list (string * json)) : list (string * json) :=
  fold_left (fun d kv => dict_set (fst kv) (snd kv) d) pairs [].

(** [scan_once]: one value at the start of [s], and the text after it.
    Each call uses one unit of [fuel]; with the fuel [json_loads] gives,
    twice the length of the text, it never runs out
    ([json_loads_no_recursion_error]). *)
Fixpoint scan_once (fuel : nat) (s : string) {struct fuel}
  : result (json * string) :=
  match fuel with
  | O => Raise RecursionError
  | S fuel' =>
      match s with
      | EmptyString => Raise JSONDecodeError
      | String c s' =>
          if Ascii.eqb c quote then
            rbind (scanstring s') (fun p => Ok (JStr (fst p), snd p))
          else if Ascii.eqb c "{" then
            match skip_ws s' with
            | String c1 s1 =>
                if Ascii.eqb c1 "}" then Ok (JObj [], s1)
                else
                  rbind (scan_members fuel' (String c1 s1)) (fun p =>
                  Ok (JObj (dict_of_pairs (fst p)), snd p))
            | EmptyString => Raise JSONDecodeError
            end
          else if Ascii.eqb c "[" then
            match skip_ws s' with
            | String c1 s1 =>
                if Ascii.eqb c1 "]" then Ok (JArr [], s1)
                else
                  rbind (scan_items fuel' (String c1 s1)) (fun p =>
                  Ok (JArr (fst p), snd p))
            | EmptyString => Raise JSONDecodeError
            end
          else
            match strip_prefix "null" s, strip_prefix "true" s, strip_prefix "false" s with
            | Some rest, _, _ => Ok (JNull, rest)
            | _, Some rest, _ => Ok (JBool true, rest)
            | _, _, Some rest => Ok (JBool false, rest)
            | _, _, _ =>
                match strip_prefix "NaN" s, strip_prefix "Infinity" s,
                      strip_prefix "-Infinity" s with
                | None, None, None => match_number s
                | _, _, _ => Raise OutsideModel
                end
            end
      end
  end

(** The items of an array from its first value to the closing bracket. *)
with scan_items (fuel : nat) (s : string) {struct fuel}
  : result (list json * string) :=
  match fuel with
  | O => Raise RecursionError
  | S fuel' =>
      rbind (scan_once fuel' s) (fun p =>
      match skip_ws (snd p) with
      | String c rest =>
          if Ascii.eqb c "]" then Ok ([fst p], rest)
          else if Ascii.eqb c "," then
            rbind (scan_items fuel' (skip_ws rest)) (fun q =>
            Ok (fst p :: fst q, snd q))
          else Raise JSONDecodeError
      | EmptyString => Raise JSONDecodeError
      end)
  end

(** The pairs of an object from its first key to the closing brace. *)
with scan_members (fuel : nat) (s : string) {struct fuel}
  : result (list (string * json) * string) :=
  match fuel with
  | O => Raise RecursionError
  | S fuel' =>
      match s with
      | String c s' =>
          if Ascii.eqb c quote then
            rbind (scanstring s') (fun k =>
            match skip_ws (snd k) with
            | String c1 s1 =>
                if Ascii.eqb c1 ":" then
                  rbind (scan_once fuel' (skip_ws s1)) (fun p =>
                  match skip_ws (snd p) with
                  | String c2 rest =>
                      if Ascii.eqb c2 "}" then Ok ([(fst k, fst p)], rest)
                      else if Ascii.eqb c2 "," then
                        rbind (scan_members fuel' (skip_ws rest)) (fun q =>
                        Ok ((fst k, fst p) :: fst q, snd q))
                      else Raise JSONDecodeError
                  | EmptyString => Raise JSONDecodeError
                  end)
                else Raise JSONDecodeError
            | EmptyString => Raise JSONDecodeError
            end)
          else Raise JSONDecodeError
      | EmptyString => Raise JSONDecodeError
      end
  end.

(** [json.loads(text)]: one value with blanks around it. *)
Definition json_loads (text : string) : result json :=
  rbind (scan_once (S (2 * String.length text)) (skip_ws text)) (fun p =>
  match skip_ws (snd p) with
  | EmptyString => Ok (fst p)
  | String _ _ => Raise JSONDecodeError
  end).

(** ** Text files: bytes on disk, decoded by a codec *)

(** The encodings a text file is read with, UTF-8 and ISO-8859-1: the
    one the locale prefers is used when [open] names none. *)
Inductive codec : Type := UTF8 | Latin1.

Definition byte_of_code (n : N) : byte := byte_of_ascii (ascii_of_N n).

(** A code point below 128 is one byte, the others up to 255 are two. *)
Definition utf8_encode_char (c : ascii) : list byte :=
  let n := N_of_ascii c in
  if (n <? 128)%N then [byte_of_ascii c]
  else [byte_of_code (192 + n / 64); byte_of_code (128 + n mod 64)].

Fixpoint utf8_encode (text : string) : list byte :=
  match text with
  | EmptyString => []
  | String c text' => utf8_encode_char c ++ utf8_encode text'
  end.

Definition cons_text (c : ascii) (r : result string) : result string :=
  rbind r (fun text => Ok (String c text)).

(** A continuation byte. *)
Definition is_cont (b : byte) : bool :=
  ((128 <=? Byte.to_N b) && (Byte.to_N b <? 192))%N.

(** The text holds a code point beyond the alphabet: the decoder goes on
    and still reports an error further on. *)
Definition beyond (r : result string) : result string :=
  match r with
  | Raise UnicodeDecodeError => Raise UnicodeDecodeError
  | _ => Raise OutsideModel
  end.

(** The strict decoder: sequences of one to four bytes, no overlong
    form, no surrogate, nothing above U+10FFFF. *)
Fixpoint utf8_decode (data : list byte) : result string :=
  match data with
  | [] => Ok EmptyString
  | b :: data' =>
      let n := Byte.to_N b in
      if (n <? 128)%N then cons_text (ascii_of_byte b) (utf8_decode data')
      else if (n <? 194)%N then Raise UnicodeDecodeError
      else if (n <? 224)%N then
        match data' with
        | b2 :: data'' =>
            if is_cont b2 then
              if (n <? 196)%N
              then cons_text (ascii_of_N ((n - 192) * 64 + (Byte.to_N b2 - 128)))
                     (utf8_decode data'')
              else beyond (utf8_decode data'')
            else Raise UnicodeDecodeError
        | [] => Raise UnicodeDecodeError
        end
      else if (n <? 240)%N then
        match data' with
        | b2 :: b3 :: data'' =>
            let n2 := Byte.to_N b2 in
            if is_cont b2 && is_cont b3
               && negb ((n =? 224) && (n2 <? 160))
               && negb ((n =? 237) && (160 <=? n2))
            then beyond (utf8_decode data'')
            else Raise UnicodeDecodeError
        | _ => Raise UnicodeDecodeError
        end
      else if (n <? 245)%N then
        match data' with
        | b2 :: b3 :: b4 :: data'' =>
            let n2 := Byte.to_N b2 in
            if is_cont b2 && is_cont b3 && is_cont b4
               && negb ((n =? 240) && (n2 <? 144))
               && negb ((n =? 244) && (144 <=? n2))
            then beyond (utf8_decode data'')
            else Raise UnicodeDecodeError
        | _ => Raise UnicodeDecodeError
        end
      else Raise UnicodeDecodeError
  end%N.

(** Every byte is the code point of its number. *)
Fixpoint latin1_decode (data : list byte) : string :=
  match data with
  | [] => EmptyString
  | b :: data' => String (ascii_of_byte b) (latin1_decode data')
  end.

Definition decode (enc : codec) (data : list byte) : result string :=
  match enc with
  | UTF8 => utf8_decode data
  | Latin1 => Ok (latin1_decode data)
  end.

(** ** The process and its files *)

(** What a run does that can be seen from outside, in order. *)
Inductive event : Type :=
| EvRead (path : string)
| EvWrite (path : string)
| EvMessage
| EvDisplay (people : list json).

(** The files by absolute path, and the events so far (oldest first). *)
Record world : Type := mkworld {
  files : gmap string (list byte);
  events : list event
}.

(** The process environment: the user's home directory, the working
    directory and the encoding of the locale. *)
Record environ : Type := mkenviron {
  home : string;
  cwd : string;
  locale : codec
}.

(** A computation runs in a world and ends with a value or an uncaught
    exception; the world is the one at that point. *)
Definition io (A : Type) : Type := world -> result A * world.

Definition ret {A} (a : A) : io A := fun w => (Ok a, w).

Definition bind {A B} (m : io A) (k : A -> io B) : io B :=
  fun w =>
    match m w with
    | (Ok a, w') => k a w'
    | (Raise e, w') => (Raise e, w')
    end.

Definition lift {A} (r : result A) : io A := fun w => (r, w).

Definition emit (ev : event) : io unit :=
  fun w => (Ok tt, mkworld (files w) (events w ++ [ev])).

Notation "'do' x <- m ; k" := (bind m (fun x => k))
  (at level 10, x name, m at level 100, k at level 200).
Notation "'run' m ; k" := (bind m (fun _ => k))
  (at level 10, m at level 100, k at level 200).

Definition is_absolute (path : string) : bool :=
  match path with
  | String c _ => Ascii.eqb c "/"
  | EmptyString => false
  end.

(** [base / path]: an absolute [path] stands for itself. *)
Definition path_join (base path : string) : string :=
  if is_absolute path then path else base +:+ "/" +:+ path.

(** [open(file_name, "r").read()]: the file is looked up from the
    working directory and decoded with the encoding of the locale. *)
Definition read_text (env : environ) (file_name : string) : io string :=
  fun w =>
    let path := path_join (cwd env) file_name in
    let w' := mkworld (files w) (events w ++ [EvRead path]) in
    match files w !! path with
    | Some data => (decode (locale env) data, w')
    | None => (Raise FileNotFoundError, w)
    end.

(** [open(file_name, "w", encoding="utf-8").write(text)], taken to
    succeed: the event marks the call. *)
Definition write_text (env : environ) (file_name text : string) : io unit :=
  fun w =>
    let path := path_join (cwd env) file_name in
    (Ok tt, mkworld (<[path := utf8_encode text]> (files w))
                    (events w ++ [EvWrite path])).

(** [path.exists()]. *)
Definition path_exists (env : environ) (path : string) : io bool :=
  fun w => (Ok (bool_decide (is_Some (files w !! path_join (cwd env) path))), w).

(** ** The functions of ind1.py that touch the world *)

(** [validation] with its [print(err.message)]. *)
Definition validation_io (instance : json) : io bool :=
  if validation instance then ret true
  else run emit EvMessage; ret false.

Definition load_people (env : environ) (file_name : string)
  : io (option (list json)) :=
  do text <- read_text env file_name;
  do people <- lift (json_loads text);
  do valid <- validation_io people;
  match valid, people with
  | true, JArr items => ret (Some items)
  | _, _ => ret None
  end.

Definition save_people (env : environ) (file_name : string)
    (people_list : list json) : io unit :=
  write_text env file_name (json_dumps (JArr people_list)).

(** The event of [display_people] carries the list it was given; the
    table it prints for that list is [Table.display_people] below. *)
Definition display_people (people : list json) : io unit :=
  emit (EvDisplay people).

(** The command line after [parse_args]: one of the three subcommands
    with its options, and the file name each of them takes. *)
Inductive command : Type :=
| CmdAdd (surname name : string) (zodiac : option string) (birthday : string)
| CmdDisplay
| CmdSelect (surname : string).

Record arguments : Type := mkarguments {
  arg_command : command;
  filename : string
}.

(** [main] after [parse_args]. The pair [state] is [people] and
    [is_dirty] after the [match]. As in the source, [load_people] is
    given [args.filename] and [save_people] is given [home_path]. *)
Definition main (env : environ) (args : arguments) : io unit :=
  let home_path := path_join (home env) (filename args) in
  do found <- path_exists env home_path;
  do loaded <- (if found : bool then load_people env (filename args) else ret None);
  let people := default [] loaded in
  do state <-
    match arg_command args with
    | CmdAdd surname name zodiac birthday =>
        let people := add_person people surname name zodiac birthday in
        do people <- lift (sort_people people);
        ret (people, true)
    | CmdSelect surname =>
        do selected <- lift (select_people surname people);
        run display_people selected;
        ret (people, false)
    | CmdDisplay =>
        run display_people people;
        ret (people, false)
    end;
  if snd state : bool then save_people env home_path (fst state) else ret tt.

(** ** The table [display_people] prints *)

(** [display_people] as the texts it hands to [print], one for each
    call and in order, with the exception that ends it, if any. A text
    is the list of its code points: the header of the table is written
    in Cyrillic, beyond the alphabet of the stored strings. What [print]
    does with a text, its encoding for the terminal, is left out. *)
Module Table.
Local Open Scope list_scope.

Definition text : Type := list N.

Definition codes (s : string) : text := map N_of_ascii (list_ascii_of_string s).

(** The code points of a text of the source file, which this file, like
    the source, holds in UTF-8: sequences of one, two and three bytes. *)
Fixpoint code_points (data : list N) : text :=
  match data with
  | [] => []
  | b :: rest =>
      if b <? 128 then b :: code_points rest
      else if b <? 224 then
        match rest with
        | b1 :: rest' => ((b - 192) * 64 + (b1 - 128)) :: code_points rest'
        | [] => []
        end
      else
        match rest with
        | b1 :: b2 :: rest' =>
            ((b - 224) * 4096 + (b1 - 128) * 64 + (b2 - 128)) :: code_points rest'
        | _ => []
        end
  end%N.

Definition written (s : string) : text := code_points (codes s).

(** Printing: the texts printed so far and the value or the exception. *)
Definition out (A : Type) : Type := (list text * result A)%type.

Definition print (t : text) : out unit := ([t], Ok tt).

Definition raising {A} (r : result A) : out A := ([], r).

Definition and_then {A B} (m : out A) (k : A -> out B) : out B :=
  match m with
  | (printed, Ok a) => let (printed', r) := k a in (printed ++ printed', r)
  | (printed, Raise e) => (printed, Raise e)
  end.

Definition blanks (n : nat) : text := repeat 32%N n.

(** ["-" * n]. *)
Definition dashes (n : nat) : text := repeat 45%N n.

(** The alignments [<], [>] and [^] of a replacement field. *)
Inductive align : Type := ALeft | ARight | ACenter.

(** A text in a field of [width] code points: filled up with blanks,
    never cut; [^] puts the odd blank to the right. *)
Definition pad (a : align) (width : nat) (t : text) : text :=
  let fill := (width - length t)%nat in
  match a with
  | ALeft => t ++ blanks fill
  | ARight => blanks fill ++ t
  | ACenter => blanks (fill / 2)%nat ++ t ++ blanks (fill - fill / 2)%nat
  end.

(** [format(v, spec)] for a [spec] made of an alignment and a width: a
    string is taken as it is, an integer in decimal, a boolean as the
    integer it is; [None], a list and a dict have no such format. *)
Definition format_field (a : align) (width : nat) (v : json) : result text :=
  match v with
  | JStr s => Ok (pad a width (codes s))
  | JInt z => Ok (pad a width (codes (string_of_Z z)))
  | JBool b => Ok (pad a width (codes (if b then "1" else "0")))
  | JNull | JArr _ | JObj _ => Raise TypeError
  end.

(** [person.get(key, default)] with the empty string as [default]. *)
Definition get_or_empty (key : string) (d : list (string * json)) : json :=
  default (JStr EmptyString) (dict_get key d).

Definition line : text :=
  codes "+-" ++ dashes 4 ++ codes "-+-" ++ dashes 30 ++ codes "-+-" ++ dashes 30
  ++ codes "-+-" ++ dashes 20 ++ codes "-+-" ++ dashes 20 ++ codes "-+".

Definition header : text :=
  codes "| " ++ pad ACenter 4 (written "№")
  ++ codes " | " ++ pad ACenter 30 (written "Фамилия")
  ++ codes " | " ++ pad ACenter 30 (written "Имя")
  ++ codes " | " ++ pad ACenter 20 (written "Знак зодиака")
  ++ codes " | " ++ pad ACenter 20 (written "Дата рождения")
  ++ codes " |".

Definition empty_notice : text := written "Список пуст".

(** One row: the arguments of [format] are evaluated first, the four
    [get] and the [join], then the fields are formatted in order. *)
Definition format_row (idx : Z) (person : json) : result text :=
  match person with
  | JObj d =>
      match iter_strings (get_or_empty "birthday" d) with
      | Some toks =>
          rbind (format_field ALeft 30 (get_or_empty "surname" d)) (fun surname =>
          rbind (format_field ALeft 30 (get_or_empty "name" d)) (fun name =>
          rbind (format_field ALeft 20 (get_or_empty "zodiac" d)) (fun zodiac =>
          Ok (codes "| " ++ pad ARight 4 (codes (string_of_Z idx))
              ++ codes " | " ++ surname
              ++ codes " | " ++ name
              ++ codes " | " ++ zodiac
              ++ codes " | " ++ pad ARight 20 (codes (join "." toks))
              ++ codes " |"))))
      | None => Raise TypeError
      end
  | _ => Raise AttributeError
  end.

(** The loop over [enumerate(people, idx)]. *)
Fixpoint print_rows (idx : Z) (people : list json) : out unit :=
  match people with
  | [] => ([], Ok tt)
  | person :: people' =>
      and_then (raising (format_row idx person)) (fun row =>
      and_then (print row) (fun _ =>
      print_rows (idx + 1) people'))
  end.

Definition display_people (people : list json) : out unit :=
  match people with
  | _ :: _ =>
      and_then (print line) (fun _ =>
      and_then (print header) (fun _ =>
      and_then (print line) (fun _ =>
      and_then (print_rows 1 people) (fun _ =>
      print line))))
  | [] => print empty_notice
  end.

End Table.

(** * What the statements speak of

    The notions of the specification, in its own words, to be compared
    with what the code computes. *)

Definition is_string (v : json) : Prop := exists s, v = JStr s.

(** An element the Schema Validator accepts: an object with a string
    [surname], a string [name], a [birthday] that is an array of
    strings, and a [zodiac] that is a string when it is there. *)
Definition valid_person (e : json) : Prop :=
  exists members,
    e = JObj members
    /\ (exists s, dict_get "surname" members = Some (JStr s))
    /\ (exists s, dict_get "name" members = Some (JStr s))
    /\ (exists toks, dict_get "birthday" members = Some (JArr toks)
                     /\ Forall is_string toks)
    /\ (forall z, dict_get "zodiac" members = Some z -> is_string z).

Definition valid_document (doc : json) : Prop :=
  exists elems, doc = JArr elems /\ Forall valid_person elems.

(** The element lacks a required field, or holds a value of the wrong
    type in it. *)
Definition broken_person (e : json) : Prop :=
  match e with
  | JObj members =>
      (forall s, dict_get "surname" members <> Some (JStr s))
      \/ (forall s, dict_get "name" members <> Some (JStr s))
      \/ (forall toks, dict_get "birthday" members = Some (JArr toks)
                       -> ~ Forall is_string toks)
      \/ (forall toks, dict_get "birthday" members <> Some (JArr toks))
  | _ => True
  end.

(** The record has a [surname] field. *)
Definition has_surname (p : json) : Prop :=
  exists members v, p = JObj members /\ dict_get "surname" members = Some v.

(** The record's [surname] field is the string [s]. *)
Definition surname_is (s : string) (p : json) : Prop :=
  exists members, p = JObj members /\ dict_get "surname" members = Some (JStr s).

Definition surname_isb (s : string) (p : json) : bool :=
  match p with
  | JObj members =>
      match dict_get "surname" members with
      | Some (JStr t) => String.eqb t s
      | _ => false
      end
  | _ => false
  end.

(** The tokens of a record's [birthday], when it is a list of strings. *)
Definition birthday_tokens (p : json) : option (list string) :=
  match p with
  | JObj members =>
      match dict_get "birthday" members with
      | Some (JArr items) => strings_of_items items
      | _ => None
      end
  | _ => None
  end.

(** The calendar date of a record's birthday: what its tokens, joined
    with ["."], parse to as a day.month.year date. *)
Definition birthday_date (p : json) : option datetime :=
  match birthday_tokens p with
  | Some toks => strptime_dmY (join "." toks)
  | None => None
  end.

(** The birthday tokens, joined with ["."], parse as a valid
    day.month.year date. *)
Definition well_dated (p : json) : Prop :=
  exists toks d,
    birthday_tokens p = Some toks /\ strptime_dmY (join "." toks) = Some d.

(** The birthday tokens, joined with ["."], do not parse as one. *)
Definition ill_dated (p : json) : Prop :=
  exists toks,
    birthday_tokens p = Some toks /\ strptime_dmY (join "." toks) = None.

(** The calendar order of dates. *)
Definition datetime_le (a b : datetime) : Prop :=
  year a < year b
  \/ (year a = year b
      /\ (month a < month b \/ (month a = month b /\ day a <= day b))).

(** The record holds [None] as its [zodiac]. *)
Definition null_zodiac (e : json) : Prop :=
  exists members, e = JObj members /\ dict_get "zodiac" members = Some JNull.

(** A value Python can hold: no dict has a key twice. *)
Fixpoint wf_json (v : json) : Prop :=
  match v with
  | JArr items => fold_right (fun x P => wf_json x /\ P) True items
  | JObj members =>
      NoDup (map fst members)
      /\ fold_right (fun kv P => wf_json (snd kv) /\ P) True members
  | _ => True
  end.

(** * Notions of the proofs *)

(** ** Texts *)

Fixpoint occurs (c : ascii) (s : string) : bool :=
  match s with
  | EmptyString => false
  | String c' s' => Ascii.eqb c' c || occurs c s'
  end.

Fixpoint count_char (c : ascii) (s : string) : nat :=
  match s with
  | EmptyString => O
  | String c' s' => (if Ascii.eqb c' c then 1 else 0) + count_char c s'
  end.

(** Every code point of the text is below 128. *)
Fixpoint is_ascii (s : string) : bool :=
  match s with
  | EmptyString => true
  | String c s' => (N_of_ascii c <? 128)%N && is_ascii s'
  end.

(** No character the expression accepts is a dot. *)
Fixpoint dot_free (r : regex) : bool :=
  match r with
  | Chr c => negb (Ascii.eqb c ".")
  | Range lo hi => negb (in_range lo hi ".")
  | Seq r1 r2 | Alt r1 r2 => dot_free r1 && dot_free r2
  end.

(** The texts a regular expression matches. *)
Fixpoint matches (r : regex) (m : string) : Prop :=
  match r with
  | Chr c => m = String c EmptyString
  | Range lo hi => exists c, m = String c EmptyString /\ in_range lo hi c = true
  | Seq r1 r2 => exists m1 m2, m = m1 +:+ m2 /\ matches r1 m1 /\ matches r2 m2
  | Alt r1 r2 => matches r1 m \/ matches r2 m
  end.

(** The 256 characters, one goal each. *)
Ltac ascii_cases c := destruct c as [[] [] [] [] [] [] [] []].

(** ** The schema and the sort *)

(** What the schema asks of one element of the array. *)
Definition person_ok (e : json) : bool := jsonschema_valid e person_item_schema.

(** In a sorted list of keyed items, [x] may stand before [y]: the key
    of [y] is not smaller than the key of [x]. *)
Definition not_after {A K : Type} (ltb : K -> K -> bool) (x y : K * A) : Prop :=
  ltb (fst y) (fst x) = false.

(** ** The text of a value and its scan *)

(** The number of values in a value, itself included. *)
Fixpoint json_size (v : json) : nat :=
  match v with
  | JArr items => S (fold_right (fun x n => S (json_size x + n)%nat) O items)
  | JObj members => S (fold_right (fun kv n => S (json_size (snd kv) + n)%nat) O members)
  | _ => 1%nat
  end.

(** The fuel the items of a list, and the members of a dict, need to
    be read back. *)
Definition items_size (items : list json) : nat :=
  fold_right (fun x n => S (json_size x + n)%nat) O items.

Definition members_size (members : list (string * json)) : nat :=
  fold_right (fun kv n => S (json_size (snd kv) + n)%nat) O members.

(** The text after a number does not go on with it. *)
Definition value_end (rest : string) : bool :=
  match rest with
  | EmptyString => true
  | String c _ =>
      negb (in_range "0" "9" c || Ascii.eqb c "." || Ascii.eqb c "e" || Ascii.eqb c "E")
  end.

(** The lines between the brackets of an array, and between the braces
    of an object, as [dumps] writes them. *)
Definition items_text (level : nat) (items : list json) : string :=
  join ("," +:+ newline_indent level) (map (dumps level) items).

Definition members_text (level : nat) (members : list (string * json)) : string :=
  join ("," +:+ newline_indent level)
    (map (fun kv => encode_basestring (fst kv) +:+ ": " +:+ dumps level (snd kv))
       members).

(** [scan_once] reads the text of [v] back as [v], whatever follows. *)
Definition reads_back (v : json) : Prop :=
  forall level fuel rest,
    (json_size v <= fuel)%nat -> value_end rest = true ->
    scan_once fuel (dumps level v +:+ rest) = Ok (v, rest).

(** A scan that did not run out of fuel and, when it read a value,
    left less text than it was given. *)
Definition progress {V : Type} (s : string) (r : result (V * string)) : Prop :=
  match r with
  | Ok p => (String.length (snd p) < String.length s)%nat
  | Raise e => e <> RecursionError
  end.

(** ** A UTF-8 file read as Latin-1 *)

(** What a text written in UTF-8 reads as when it is decoded as
    Latin-1: every code point from 128 on becomes two. *)
Definition mojibake_char (c : ascii) : string :=
  latin1_decode (utf8_encode_char c).

Fixpoint mojibake (s : string) : string :=
  match s with
  | EmptyString => EmptyString
  | String c s' => mojibake_char c +:+ mojibake s'
  end.

(** [f] applied to every string of a value, keys included. *)
Fixpoint json_map (f : string -> string) (v : json) : json :=
  match v with
  | JStr s => JStr (f s)
  | JArr items => JArr (map (json_map f) items)
  | JObj members => JObj (map (fun kv => (f (fst kv), json_map f (snd kv))) members)
  | other => other
  end.

(** What a collection saved by [save_people] is read back as under
    the encoding of the locale. *)
Definition reread (enc : codec) (people : list json) : list json :=
  match enc with
  | UTF8 => people
  | Latin1 => map (json_map mojibake) people
  end.

(** ** Runs of [main] *)

(** The two halves of [main]: what it holds as [people] before the
    [match], and what it does with it from there. *)
Definition load_phase (env : environ) (args : arguments) : io (list json) :=
  let home_path := path_join (home env) (filename args) in
  do found <- path_exists env home_path;
  do loaded <- (if found : bool then load_people env (filename args) else ret None);
  ret (default [] loaded).

Definition command_phase (env : environ) (args : arguments)
    (people : list json) : io unit :=
  let home_path := path_join (home env) (filename args) in
  do state <-
    match arg_command args with
    | CmdAdd surname name zodiac birthday =>
        let people := add_person people surname name zodiac birthday in
        do people <- lift (sort_people people);
        ret (people, true)
    | CmdSelect surname =>
        do selected <- lift (select_people surname people);
        run display_people selected;
        ret (people, false)
    | CmdDisplay =>
        run display_people people;
        ret (people, false)
    end;
  if snd state : bool then save_people env home_path (fst state) else ret tt.

Definition is_add (c : command) : bool :=
  match c with
  | CmdAdd _ _ _ _ => true
  | _ => false
  end.

Definition is_write (ev : event) : bool :=
  match ev with
  | EvWrite _ => true
  | _ => false
  end.

(** The world after one more event. *)
Definition after (w : world) (evs : list event) : world :=
  mkworld (files w) (events w ++ evs).

(** ** Examples *)

(** Runs used as examples: a home directory, a working directory that
    is or is not the home directory, and two records. *)
Definition doe : json := new_person "Doe" "Jane" (Some "Leo") "15.03.1990".
Definition roe : json := new_person "Roe" "Rick" (Some EmptyString) "01.01.1980".
Definition at_home (enc : codec) : environ := mkenviron "/home/u" "/home/u" enc.
Definition in_tmp : environ := mkenviron "/home/u" "/tmp" UTF8.
Definition file_of (people : list json) : list byte :=
  utf8_encode (json_dumps (JArr people)).

(** The text with every apostrophe turned into a double quote, to write
    JSON texts down. *)
Fixpoint dq (s : string) : string :=
  match s with
  | EmptyString => EmptyString
  | String c s' => String (if Ascii.eqb c "'" then quote else c) (dq s')
  end.


(** * Notions of the further properties *)

(** ** Records and their birthdays *)

Definition is_dict (v : json) : bool :=
  match v with
  | JObj _ => true
  | _ => false
  end.

(** The surname [select_people] compares with the query: the value
    under [surname], the empty string for a record without one. *)
Definition surname_or_empty (i : json) : json :=
  match i with
  | JObj d => default (JStr EmptyString) (dict_get "surname" d)
  | _ => JStr EmptyString
  end.

(** A record with the three fields the schema requires and nothing
    else, its birthday the given list of strings. *)
Definition bare_person (surname name : string) (toks : list string) : json :=
  JObj [ ("surname", JStr surname);
         ("name", JStr name);
         ("birthday", JArr (map JStr toks)) ].

(** [test] holds of the key of [x]. *)
Definition key_test {A K : Type} (key : A -> result K) (test : K -> bool)
    (x : A) : bool :=
  match key x with
  | Ok k => test k
  | Raise _ => false
  end.

Definition datetime_eqb (a b : datetime) : bool :=
  (year a =? year b) && (month a =? month b) && (day a =? day b).

(** The birthday of the record is the date [d]; it is a later date. *)
Definition born_on (d : datetime) (p : json) : bool :=
  key_test birthday_key (fun k => datetime_eqb k d) p.

Definition born_after (d : datetime) (p : json) : bool :=
  key_test birthday_key (datetime_ltb d) p.

(** ** Dates as texts *)

(** The least and the greatest length of the texts a regular expression
    matches. *)
Fixpoint min_width (r : regex) : nat :=
  match r with
  | Chr _ | Range _ _ => 1
  | Seq r1 r2 => min_width r1 + min_width r2
  | Alt r1 r2 => Nat.min (min_width r1) (min_width r2)
  end.

Fixpoint max_width (r : regex) : nat :=
  match r with
  | Chr _ | Range _ _ => 1
  | Seq r1 r2 => max_width r1 + max_width r2
  | Alt r1 r2 => Nat.max (max_width r1) (max_width r2)
  end.

(** A date as one writes it: the day and the month in decimal, each
    with a leading zero below 10 when its flag is set, and the year
    with four digits. *)
Definition digit (n : Z) : ascii := ascii_of_N (Z.to_N (48 + n)).

Definition two_digits (n : Z) : string :=
  String (digit (n / 10)) (String (digit (n mod 10)) EmptyString).

Definition four_digits (n : Z) : string :=
  String (digit (n / 1000)) (String (digit (n / 100 mod 10))
    (String (digit (n / 10 mod 10)) (String (digit (n mod 10)) EmptyString))).

Definition number_text (zero : bool) (n : Z) : string :=
  if zero then two_digits n else string_of_Z n.

Definition date_text (zero_day zero_month : bool) (y m d : Z) : string :=
  number_text zero_day d +:+ "." +:+ number_text zero_month m
  +:+ "." +:+ four_digits y.

(** The text of a number that is given, written out. *)
Ltac eval_number_text :=
  repeat match goal with
  | |- context [number_text ?z ?n] =>
      let t := eval vm_compute in (number_text z n) in
      change (number_text z n) with t in *
  end.

(** ** The rows of the table *)

(** A row of the table for fields of these texts. *)
Definition row_text (idx : Z) (surname name zodiac birthday : string)
  : Table.text :=
  (Table.codes "| " ++ Table.pad Table.ARight 4 (Table.codes (string_of_Z idx))
   ++ Table.codes " | " ++ Table.pad Table.ALeft 30 (Table.codes surname)
   ++ Table.codes " | " ++ Table.pad Table.ALeft 30 (Table.codes name)
   ++ Table.codes " | " ++ Table.pad Table.ALeft 20 (Table.codes zodiac)
   ++ Table.codes " | " ++ Table.pad Table.ARight 20 (Table.codes birthday)
   ++ Table.codes " |")%list.

(** The width of that row: every field takes its column, or its own
    length when that is more. *)
Definition row_width (idx : Z) (surname name zodiac birthday : string) : nat :=
  16 + Nat.max 4 (String.length (string_of_Z idx))
  + Nat.max 30 (String.length surname) + Nat.max 30 (String.length name)
  + Nat.max 20 (String.length zodiac) + Nat.max 20 (String.length birthday).

(** ** Files and exceptions *)

(** The file [main] looks for and saves to, and the file it loads. *)
Definition home_file (env : environ) (file_name : string) : string :=
  path_join (cwd env) (path_join (home env) file_name).

Definition work_file (env : environ) (file_name : string) : string :=
  path_join (cwd env) file_name.

(** A name of one component: not empty, without a slash, and neither
    [.] nor [..]. *)
Definition simple_name (s : string) : bool :=
  negb (String.eqb s EmptyString) && negb (occurs "/" s)
  && negb (String.eqb s ".") && negb (String.eqb s "..").

(** An absolute path in normal form, as pathlib writes a path and as
    the file system names a file: a slash before each component, and
    every component a simple name. For such a directory and a simple
    file name, joining the two as pathlib does is [path_join]. *)
Definition normal_path (s : string) : bool :=
  match split "/" s with
  | first :: comp :: comps =>
      String.eqb first EmptyString && forallb simple_name (comp :: comps)
  | _ => false
  end.

(** Every string of the value, keys included, is ASCII. *)
Fixpoint ascii_json (v : json) : bool :=
  match v with
  | JStr s => is_ascii s
  | JArr items => forallb ascii_json items
  | JObj members =>
      forallb (fun kv => is_ascii (fst kv) && ascii_json (snd kv)) members
  | _ => true
  end.

(** The result is a value, or an exception of which [P] holds. *)
Definition raises_only {A : Type} (P : exn -> Prop) (r : result A) : Prop :=
  match r with
  | Ok _ => True
  | Raise e => P e
  end.

(** The exceptions of decoding a file and of scanning its text. *)
Definition decode_error (e : exn) : Prop :=
  e = UnicodeDecodeError \/ e = OutsideModel.

Definition scan_error (e : exn) : Prop :=
  e = JSONDecodeError \/ e = OutsideModel \/ e = RecursionError.

(** The world of the examples: the file in the home directory holds
    [people], and [evs] has happened. *)
Definition stored (people : list json) (evs : list event) : world :=
  mkworld {[ "/home/u/people.json" := file_of people ]} evs.
(** * Proofs *)

(** ** Strings *)

Lemma split_nonempty sep s : split sep s <> [].
Proof.
  destruct s as [|c s]; simpl; [discriminate|].
  destruct (Ascii.eqb c sep); [discriminate|].
  destruct (split sep s); discriminate.
Qed.

Lemma join_cons sep p q rest :
  join sep (p :: q :: rest) = p +:+ sep +:+ join sep (q :: rest).
Proof. reflexivity. Qed.

(** Joining the tokens of a split with the separator gives the text back. *)
Lemma join_split sep s : join (String sep EmptyString) (split sep s) = s.
Proof.
  induction s as [|c s IH]; simpl; [reflexivity|].
  destruct (Ascii.eqb_spec c sep) as [->|Hne].
  - pose proof (split_nonempty sep s) as Hn.
    destruct (split sep s) as [|t ts]; [congruence|].
    rewrite join_cons, IH. reflexivity.
  - pose proof (split_nonempty sep s) as Hn.
    destruct (split sep s) as [|t ts]; [congruence|].
    rewrite <- IH. destruct ts; reflexivity.
Qed.

(** No token of a split holds the separator. *)
Lemma split_tokens_free sep s : Forall (fun tok => occurs sep tok = false) (split sep s).
Proof.
  induction s as [|c s IH]; simpl.
  - constructor; [reflexivity|constructor].
  - destruct (Ascii.eqb c sep) eqn:E.
    + constructor; [reflexivity|exact IH].
    + destruct (split sep s) as [|t ts]; inversion IH; subst.
      * constructor; [simpl; now rewrite E|constructor].
      * constructor; [simpl; rewrite E; assumption|assumption].
Qed.

(** There is one more token than there are separators in the text. *)
Lemma split_length sep s : length (split sep s) = S (count_char sep s).
Proof.
  induction s as [|c s IH]; simpl; [reflexivity|].
  destruct (Ascii.eqb c sep); simpl.
  - now rewrite IH.
  - pose proof (split_nonempty sep s).
    destruct (split sep s) as [|t ts]; [congruence|]. simpl in *. lia.
Qed.

Lemma append_cons (x : ascii) (a b : string) :
  String x a +:+ b = String x (a +:+ b).
Proof. reflexivity. Qed.

Lemma append_nil_l (a : string) : EmptyString +:+ a = a.
Proof. reflexivity. Qed.

Lemma append_assoc (a b c : string) : (a +:+ b) +:+ c = a +:+ (b +:+ c).
Proof.
  induction a as [|x a IH]; [reflexivity|].
  rewrite !append_cons. now rewrite IH.
Qed.

Lemma append_nil_r (a : string) : a +:+ EmptyString = a.
Proof.
  induction a as [|x a IH]; [reflexivity|].
  rewrite append_cons. now rewrite IH.
Qed.

Lemma length_append (a b : string) :
  String.length (a +:+ b) = (String.length a + String.length b)%nat.
Proof.
  induction a as [|x a IH]; [reflexivity|].
  rewrite append_cons. simpl. now rewrite IH.
Qed.

Lemma occurs_append c a b : occurs c (a +:+ b) = occurs c a || occurs c b.
Proof.
  induction a as [|x a IH]; [reflexivity|].
  rewrite append_cons. cbn [occurs]. now rewrite IH, orb_assoc.
Qed.

Lemma count_char_append c a b :
  count_char c (a +:+ b) = (count_char c a + count_char c b)%nat.
Proof.
  induction a as [|x a IH]; [reflexivity|].
  rewrite append_cons. cbn [count_char]. rewrite IH. lia.
Qed.

Lemma count_char_free c s : occurs c s = false -> count_char c s = 0%nat.
Proof.
  induction s as [|x s IH]; [reflexivity|]. cbn [occurs count_char].
  rewrite orb_false_iff. intros [-> H]. now rewrite IH.
Qed.

(** ** The Schema Validator *)

Lemma forallb_is_string (toks : list json) :
  forallb (fun x => is_type TString x && true) toks = true <-> Forall is_string toks.
Proof.
  induction toks as [|t toks IH]; simpl.
  - split; [constructor|reflexivity].
  - rewrite andb_true_iff, IH. split.
    + intros [Ht Hts]. constructor; [|assumption].
      destruct t; try discriminate. now eexists.
    + intros H. inversion H as [|? ? [s ->] Hts]; subst. now split.
Qed.

Lemma validation_array elems :
  validation (JArr elems) = forallb person_ok elems.
Proof.
  unfold validation, person_schema, person_ok.
  destruct person_item_schema as [kws]. cbn [jsonschema_valid is_type].
  rewrite andb_true_r. reflexivity.
Qed.

Lemma validation_not_array doc :
  (forall elems, doc <> JArr elems) -> validation doc = false.
Proof. intros H. destruct doc; try reflexivity. now destruct (H items). Qed.

Lemma person_ok_spec e : person_ok e = true <-> valid_person e.
Proof.
  unfold person_ok, person_item_schema, valid_person.
  destruct e as [| | | |items|members];
    try (split; [discriminate|intros (m & Hm & _); discriminate]).
  cbn [jsonschema_valid is_type forallb]. unfold dict_has.
  destruct (dict_get "surname" members) as [sv|] eqn:Es;
  destruct (dict_get "name" members) as [nv|] eqn:En;
  destruct (dict_get "birthday" members) as [bv|] eqn:Eb;
  cbn [andb];
  try (rewrite ?andb_false_r; split; [discriminate|
       intros (m & Hm & (s1 & H1) & (s2 & H2) & (t & H3 & _) & _);
       injection Hm as <-; congruence]).
  rewrite !andb_true_r, !andb_true_iff.
  split.
  - intros (Hs & Hn & Hz & Hb1 & Hb2).
    destruct sv; try discriminate. destruct nv; try discriminate.
    destruct bv; try discriminate.
    exists members. split; [reflexivity|].
    split; [eauto|]. split; [eauto|]. split.
    + eexists. split; [eassumption|]. now apply forallb_is_string.
    + intros z Ez. rewrite Ez in Hz. destruct z; try discriminate. now eexists.
  - intros (m & Hm & (s1 & H1) & (s2 & H2) & (t & H3 & Ht) & Hz).
    injection Hm as <-. rewrite Es in H1. rewrite En in H2. rewrite Eb in H3.
    injection H1 as ->. injection H2 as ->. injection H3 as ->.
    apply forallb_is_string in Ht. repeat split; try assumption.
    destruct (dict_get "zodiac" members) as [z|] eqn:Ez; [|reflexivity].
    destruct (Hz z eq_refl) as [s ->]. reflexivity.
Qed.

Lemma broken_not_valid e : broken_person e -> ~ valid_person e.
Proof.
  intros Hb (m & -> & (s1 & H1) & (s2 & H2) & (t & H3 & Ht) & _).
  destruct Hb as [H|[H|[H|H]]].
  - now apply (H s1).
  - now apply (H s2).
  - now apply (H t).
  - now apply (H t).
Qed.

Lemma validation_spec doc : validation doc = true <-> valid_document doc.
Proof.
  unfold valid_document. destruct doc as [| | | |elems|];
    try (split; [discriminate|intros (l & Hl & _); discriminate]).
  rewrite validation_array, forallb_forall. split.
  - intros H. exists elems. split; [reflexivity|].
    apply Forall_forall. intros e He. apply person_ok_spec, H.
    now apply list_elem_of_In.
  - intros (l & Hl & Hall) e He. injection Hl as <-.
    apply person_ok_spec. rewrite Forall_forall in Hall. apply Hall.
    now apply list_elem_of_In.
Qed.

(** C2. [validation] answers [True] exactly on the documents the
    specification calls valid: an array whose every element is an object
    with a string [surname], a string [name], a [birthday] that is an
    array of strings and, when it has a [zodiac], a string there. An
    array with an element that lacks one of the three required fields,
    or holds a value of the wrong type in one, is answered [False]. *)
Theorem validation_iff_valid_document (doc : json) :
  (validation doc = true <-> valid_document doc)
  /\ (forall elems e,
        doc = JArr elems -> In e elems -> broken_person e ->
        validation doc = false).
Proof.
  split; [apply validation_spec|].
  intros elems e -> He Hb.
  apply not_true_is_false. intros E.
  apply validation_spec in E. destruct E as (l & Hl & Hall). injection Hl as <-.
  rewrite Forall_forall in Hall. apply list_elem_of_In in He.
  destruct (broken_not_valid e Hb (Hall e He)).
Qed.

(** ** Record operations *)

Lemma surname_isb_spec s p : surname_isb s p = true <-> surname_is s p.
Proof.
  unfold surname_isb, surname_is. destruct p as [| | | | |members];
    try (split; [discriminate|intros (m & Hm & _); discriminate]).
  destruct (dict_get "surname" members) as [v|] eqn:E.
  - destruct v; try (split; [discriminate|intros (m & Hm & H); injection Hm as <-; congruence]).
    rewrite String.eqb_eq. split.
    + intros ->. now exists members.
    + intros (m & Hm & H). injection Hm as <-. congruence.
  - split; [discriminate|intros (m & Hm & H); injection Hm as <-; congruence].
Qed.

(** C4. On a collection whose records all have a [surname] field,
    [select_people] never fails: it returns the records whose [surname]
    is the query string itself (equal as strings: same characters, same
    case, same length), in the order they have in the collection; that
    is the empty list when no record matches. *)
Theorem select_people_exact (surname : string) (people : list json) :
  Forall has_surname people ->
  select_people surname people = Ok (List.filter (surname_isb surname) people)
  /\ (forall p, In p (List.filter (surname_isb surname) people)
                <-> In p people /\ surname_is surname p)
  /\ sublist (List.filter (surname_isb surname) people) people
  /\ ((forall p, In p people -> ~ surname_is surname p) ->
      select_people surname people = Ok []).
Proof.
  intros Hall.
  assert (Hsel : select_people surname people
                 = Ok (List.filter (surname_isb surname) people)).
  { induction Hall as [|p people (m & v & -> & Hv) _ IH]; [reflexivity|].
    cbn [select_people get_surname List.filter surname_isb]. rewrite Hv.
    cbn [rbind]. rewrite IH. cbn [rbind].
    destruct v; reflexivity. }
  split; [exact Hsel|]. split; [|split].
  - intros p. rewrite filter_In, surname_isb_spec. reflexivity.
  - clear. induction people as [|p people IH]; [constructor|].
    cbn [List.filter]. destruct (surname_isb surname p).
    + now apply sublist_skip.
    + now apply sublist_cons.
  - intros Hnone. rewrite Hsel. f_equal.
    clear -Hnone. induction people as [|p people IH]; [reflexivity|].
    cbn [List.filter]. destruct (surname_isb surname p) eqn:E.
    + apply surname_isb_spec in E. destruct (Hnone p (or_introl eq_refl) E).
    + apply IH. intros q Hq. apply Hnone. now right.
Qed.

(** Witness of C4: two Smiths among three records. *)
Lemma select_people_exact_witness :
  select_people "Smith"
    [ new_person "Smith" "Ann" (Some "Leo") "01.02.2000";
      new_person "smith" "Bob" None "03.04.2001";
      new_person "Smith" "Cy" (Some "Leo") "05.06.1999" ]
  = Ok [ new_person "Smith" "Ann" (Some "Leo") "01.02.2000";
         new_person "Smith" "Cy" (Some "Leo") "05.06.1999" ].
Proof.
  refine (proj1 (select_people_exact "Smith" _ _)).
  repeat constructor; eexists _, _; (split; [reflexivity|reflexivity]).
Defined.

(** C5. [add_person] puts one record after the records of the
    collection and returns that list. The record is made of the four
    inputs; its [birthday] is the text split at every ["."]: tokens
    without a ["."] that give the text back when joined with ["."], one
    more than the text has dots. Nothing is checked: any text is taken.
    The example of the specification is included. *)
Theorem add_person_appends (people : list json) (surname name : string)
    (zodiac : option string) (birthday : string) :
  add_person people surname name zodiac birthday
  = (people ++ [ JObj [ ("surname", JStr surname);
                        ("name", JStr name);
                        ("zodiac", zodiac_value zodiac);
                        ("birthday", JArr (map JStr (split "." birthday))) ] ])%list
  /\ length (add_person people surname name zodiac birthday) = S (length people)
  /\ join "." (split "." birthday) = birthday
  /\ Forall (fun tok => occurs "." tok = false) (split "." birthday)
  /\ length (split "." birthday) = S (count_char "." birthday)
  /\ add_person [] "Doe" "Jane" (Some "Leo") "15.03.1990"
     = [ JObj [ ("surname", JStr "Doe");
                ("name", JStr "Jane");
                ("zodiac", JStr "Leo");
                ("birthday", JArr [JStr "15"; JStr "03"; JStr "1990"]) ] ].
Proof.
  split; [reflexivity|]. split.
  { unfold add_person. rewrite length_app. simpl. lia. }
  split; [apply join_split|]. split; [apply split_tokens_free|].
  split; [apply split_length|reflexivity].
Qed.

(** ** Dates *)

Lemma datetime_ltb_asym a b : datetime_ltb a b = true -> datetime_ltb b a = false.
Proof.
  unfold datetime_ltb. destruct a as [y1 m1 d1], b as [y2 m2 d2]; simpl.
  rewrite !orb_true_iff, !andb_true_iff, !orb_true_iff, !andb_true_iff,
    !Z.ltb_lt, !Z.eqb_eq.
  intros H. apply not_true_is_false.
  rewrite !orb_true_iff, !andb_true_iff, !orb_true_iff, !andb_true_iff,
    !Z.ltb_lt, !Z.eqb_eq.
  lia.
Qed.

(** [b < a] is false exactly when [a] is not after [b] in the calendar. *)
Lemma datetime_ltb_false a b : datetime_ltb b a = false <-> datetime_le a b.
Proof.
  unfold datetime_ltb, datetime_le. destruct a as [y1 m1 d1], b as [y2 m2 d2]; simpl.
  rewrite <- not_true_iff_false.
  rewrite !orb_true_iff, !andb_true_iff, !orb_true_iff, !andb_true_iff,
    !Z.ltb_lt, !Z.eqb_eq.
  lia.
Qed.

Lemma strings_of_items_map toks : strings_of_items (map JStr toks) = Some toks.
Proof. induction toks as [|t toks IH]; simpl; [reflexivity|now rewrite IH]. Qed.

Lemma strings_of_items_inv items toks :
  strings_of_items items = Some toks -> items = map JStr toks.
Proof.
  revert toks. induction items as [|x items IH]; intros toks H; simpl in H.
  - now injection H as <-.
  - destruct x; try discriminate.
    destruct (strings_of_items items) as [l|]; [|discriminate].
    injection H as <-. simpl. now rewrite (IH l eq_refl).
Qed.

Lemma birthday_key_tokens p toks :
  birthday_tokens p = Some toks ->
  birthday_key p = match strptime_dmY (join "." toks) with
                   | Some t => Ok t
                   | None => Raise ValueError
                   end.
Proof.
  unfold birthday_tokens, birthday_key. destruct p; try discriminate.
  destruct (dict_get "birthday" members) as [v|]; [|discriminate].
  destruct v; try discriminate. simpl. now intros ->.
Qed.

Lemma birthday_key_well_dated p :
  well_dated p -> exists d, birthday_key p = Ok d.
Proof.
  intros (toks & d & Ht & Hd). exists d.
  now rewrite (birthday_key_tokens _ _ Ht), Hd.
Qed.

Lemma birthday_key_ill_dated p : ill_dated p -> birthday_key p = Raise ValueError.
Proof.
  intros (toks & Ht & Hd). now rewrite (birthday_key_tokens _ _ Ht), Hd.
Qed.

Lemma birthday_tokens_new_person surname name zodiac birthday :
  birthday_tokens (new_person surname name zodiac birthday)
  = Some (split "." birthday).
Proof. unfold birthday_tokens, new_person. simpl. apply strings_of_items_map. Qed.

(** *** Birthday texts that are no date *)

(** A match splits the text into what was matched and the rest the
    continuation accepted. *)
Lemma rmatch_inv {A} (r : regex) : forall s (k : string -> string -> option A) a,
  rmatch r s k = Some a ->
  exists m rest, s = m +:+ rest /\ k m rest = Some a /\ matches r m.
Proof.
  induction r as [c|lo hi|r1 IH1 r2 IH2|r1 IH1 r2 IH2]; intros s k a H;
    cbn [rmatch matches] in *.
  - destruct s as [|c' s]; [discriminate|].
    destruct (Ascii.eqb_spec c' c) as [->|Hne]; [|discriminate].
    now exists (String c EmptyString), s.
  - destruct s as [|c' s]; [discriminate|].
    destruct (in_range lo hi c') eqn:Hr; [|discriminate].
    exists (String c' EmptyString), s. repeat split; try assumption. now exists c'.
  - destruct (IH1 _ _ _ H) as (m1 & s1 & -> & H1 & Hm1).
    destruct (IH2 _ _ _ H1) as (m2 & s2 & -> & H2 & Hm2).
    exists (m1 +:+ m2), s2. split; [now rewrite append_assoc|]. split; [exact H2|].
    now exists m1, m2.
  - destruct (rmatch r1 s k) as [a'|] eqn:E.
    + injection H as <-. destruct (IH1 _ _ _ E) as (m & rest & Hs & Hk & Hm).
      exists m, rest. auto.
    + destruct (IH2 _ _ _ H) as (m & rest & Hs & Hk & Hm).
      exists m, rest. auto.
Qed.

Lemma matches_dot_free r : forall m,
  dot_free r = true -> matches r m -> occurs "." m = false.
Proof.
  induction r as [c|lo hi|r1 IH1 r2 IH2|r1 IH1 r2 IH2]; intros m;
    cbn [dot_free matches]; rewrite ?andb_true_iff, ?negb_true_iff.
  - intros Hc ->. cbn [occurs]. now rewrite Hc.
  - intros Hr (c & -> & Hc). cbn [occurs]. rewrite orb_false_r.
    destruct (Ascii.eqb_spec c "."%char) as [->|Hne]; [congruence|reflexivity].
  - intros [Ha Hb] (m1 & m2 & -> & H1 & H2).
    now rewrite occurs_append, (IH1 _ Ha H1), (IH2 _ Hb H2).
  - intros [Ha Hb] [H|H]; auto.
Qed.

(** A text [strptime] accepts has two dots. *)
Lemma strptime_two_dots text d :
  strptime_dmY text = Some d -> count_char "." text = 2%nat.
Proof.
  unfold strptime_dmY.
  destruct (rmatch re_d text _) as [[[[dd mm] yy] rest]|] eqn:E; [|discriminate].
  destruct rest as [|? ?]; [|discriminate]. intros _.
  destruct (rmatch_inv _ _ _ _ E) as (m1 & s1 & -> & E1 & F1).
  destruct (rmatch_inv _ _ _ _ E1) as (m2 & s2 & -> & E2 & F2).
  destruct (rmatch_inv _ _ _ _ E2) as (m3 & s3 & -> & E3 & F3).
  destruct (rmatch_inv _ _ _ _ E3) as (m4 & s4 & -> & E4 & F4).
  destruct (rmatch_inv _ _ _ _ E4) as (m5 & s5 & -> & E5 & F5).
  injection E5 as _ _ _ ->.
  cbn [matches] in F2, F4. subst m2 m4.
  rewrite !count_char_append.
  rewrite (count_char_free _ _ (matches_dot_free re_d _ eq_refl F1)).
  rewrite (count_char_free _ _ (matches_dot_free re_m _ eq_refl F3)).
  rewrite (count_char_free _ _ (matches_dot_free re_Y _ eq_refl F5)).
  reflexivity.
Qed.

(** A birthday text that does not split into three tokens is no date. *)
Lemma strptime_three_tokens text :
  length (split "." text) <> 3%nat -> strptime_dmY text = None.
Proof.
  intros Hlen. destruct (strptime_dmY text) as [d|] eqn:E; [|reflexivity].
  apply strptime_two_dots in E. rewrite split_length, E in Hlen. congruence.
Qed.

(** The three kinds of malformed birthday of the specification: a wrong
    number of tokens, a token that is no number, a day or a month out of
    range (also for the month and the year at hand). *)
Example malformed_birthdays :
  strptime_dmY "15.03" = None
  /\ strptime_dmY "15.03.1990.1" = None
  /\ strptime_dmY "15.March.1990" = None
  /\ strptime_dmY "32.01.1990" = None
  /\ strptime_dmY "15.13.1990" = None
  /\ strptime_dmY "31.04.1990" = None
  /\ strptime_dmY "29.02.1900" = None
  /\ strptime_dmY "29.02.2000" = Some (mkdatetime 2000 2 29).
Proof. repeat split; reflexivity. Qed.

(** ** [list.sort] *)

Section ListSortFacts.
Context {A K : Type} (key : A -> result K) (ltb : K -> K -> bool).
Hypothesis ltb_asym : forall a b, ltb a b = true -> ltb b a = false.

Local Abbreviation may_precede := (not_after ltb).

Lemma decorate_ok (l : list A) :
  Forall (fun x => exists k, key x = Ok k) l ->
  exists kl, decorate key l = Ok kl
             /\ map snd kl = l
             /\ Forall (fun kx => key (snd kx) = Ok (fst kx)) kl.
Proof.
  induction 1 as [|x l [k Hk] _ (kl & Hkl & Hmap & Hall)]; simpl.
  - exists []. repeat split; constructor.
  - rewrite Hk, Hkl. simpl. exists ((k, x) :: kl). simpl. rewrite Hmap.
    repeat split. now constructor.
Qed.

Lemma decorate_raise (e : exn) (l : list A) :
  Forall (fun x => (exists k, key x = Ok k) \/ key x = Raise e) l ->
  Exists (fun x => key x = Raise e) l ->
  decorate key l = Raise e.
Proof.
  induction 1 as [|x l Hx Hl IH]; intros Hex; [inversion Hex|]. simpl.
  destruct Hx as [[k Hk]|Hx]; [|now rewrite Hx].
  rewrite Hk. simpl. inversion Hex as [? ? H|? ? H]; subst; [congruence|].
  now rewrite (IH H).
Qed.

Lemma insert_sorted_perm (x : K * A) l : Permutation (insert_sorted ltb x l) (x :: l).
Proof.
  induction l as [|y l IH]; simpl; [reflexivity|].
  destruct (ltb (fst y) (fst x)); [|reflexivity].
  rewrite IH. apply perm_swap.
Qed.

Lemma stable_sort_perm (l : list (K * A)) : Permutation (stable_sort ltb l) l.
Proof.
  induction l as [|x l IH]; simpl; [reflexivity|].
  rewrite insert_sorted_perm. now constructor.
Qed.

Lemma insert_sorted_Sorted (x : K * A) l :
  Sorted may_precede l -> Sorted may_precede (insert_sorted ltb x l).
Proof.
  induction 1 as [|y l Hs IH Hhd]; simpl.
  - repeat constructor.
  - destruct (ltb (fst y) (fst x)) eqn:E.
    + constructor; [exact IH|].
      destruct l as [|z l]; simpl.
      * constructor. unfold not_after. now apply ltb_asym.
      * inversion Hhd; subst.
        destruct (ltb (fst z) (fst x)); constructor; [assumption|].
        unfold not_after. now apply ltb_asym.
    + constructor; [now constructor|]. constructor. exact E.
Qed.

Lemma stable_sort_Sorted (l : list (K * A)) : Sorted may_precede (stable_sort ltb l).
Proof.
  induction l as [|x l IH]; simpl; [constructor|].
  now apply insert_sorted_Sorted.
Qed.

Lemma Sorted_adjacent (R : K * A -> K * A -> Prop) (l : list (K * A)) i a b :
  Sorted R l -> l !! i = Some a -> l !! S i = Some b -> R a b.
Proof.
  intros Hs. revert i. induction Hs as [|x l Hs IH Hhd]; intros i Ha Hb.
  - discriminate.
  - destruct i as [|i]; simpl in *.
    + injection Ha as <-. destruct l as [|y l]; [discriminate|].
      simpl in Hb. injection Hb as <-. now inversion Hhd.
    + eapply IH; eassumption.
Qed.

(** The sort ends with a list when every key does: a rearrangement of
    the input in which no item comes after its right neighbour. *)
Lemma list_sort_ok (l : list A) :
  Forall (fun x => exists k, key x = Ok k) l ->
  exists sorted,
    list_sort key ltb l = Ok sorted
    /\ Permutation sorted l
    /\ forall i x y, sorted !! i = Some x -> sorted !! S i = Some y ->
         exists kx ky, key x = Ok kx /\ key y = Ok ky /\ ltb ky kx = false.
Proof.
  intros Hall. destruct (decorate_ok l Hall) as (kl & Hkl & Hmap & Hkeys).
  unfold list_sort. rewrite Hkl. simpl. eexists. split; [reflexivity|]. split.
  - rewrite <- Hmap. apply Permutation_map, stable_sort_perm.
  - intros i x y Hx Hy.
    rewrite list_lookup_fmap in Hx, Hy.
    destruct (stable_sort ltb kl !! i) as [[kx x']|] eqn:Ex; [|discriminate].
    destruct (stable_sort ltb kl !! S i) as [[ky y']|] eqn:Ey; [|discriminate].
    simpl in Hx, Hy. injection Hx as ->. injection Hy as ->.
    assert (Hk : Forall (fun kx => key (snd kx) = Ok (fst kx)) (stable_sort ltb kl)).
    { eapply Permutation_Forall; [|exact Hkeys]. symmetry. apply stable_sort_perm. }
    rewrite Forall_forall in Hk.
    exists kx, ky. split; [|split].
    + apply (Hk (kx, x)). eapply list_elem_of_lookup_2; eassumption.
    + apply (Hk (ky, y)). eapply list_elem_of_lookup_2; eassumption.
    + apply (Sorted_adjacent may_precede _ _ _ _ (stable_sort_Sorted kl) Ex Ey).
Qed.

Lemma list_sort_raise (e : exn) (l : list A) :
  Forall (fun x => (exists k, key x = Ok k) \/ key x = Raise e) l ->
  Exists (fun x => key x = Raise e) l ->
  list_sort key ltb l = Raise e.
Proof.
  intros Hall Hex. unfold list_sort. now rewrite (decorate_raise e l Hall Hex).
Qed.

End ListSortFacts.

(** The scenario itself: Roe comes before Doe. *)
Example roe_before_doe :
  sort_people (add_person [doe] "Roe" "Rick" (Some EmptyString) "01.01.1980")
  = Ok [roe; doe].
Proof. reflexivity. Qed.

(** ** The text [json.dump] writes and [json.load] reads *)

Lemma json_induction (P : json -> Prop) :
  P JNull -> (forall b, P (JBool b)) -> (forall z, P (JInt z)) ->
  (forall s, P (JStr s)) ->
  (forall items, Forall P items -> P (JArr items)) ->
  (forall members, Forall (fun kv => P (snd kv)) members -> P (JObj members)) ->
  forall v, P v.
Proof.
  intros Hnull Hbool Hint Hstr Harr Hobj.
  fix IH 1. intros [| b | z | s | items | members].
  - exact Hnull.
  - apply Hbool.
  - apply Hint.
  - apply Hstr.
  - apply Harr. induction items as [|x items IHl]; constructor; [apply IH|exact IHl].
  - apply Hobj. induction members as [|[k x] members IHl]; constructor;
      [apply IH|exact IHl].
Qed.

Lemma skip_ws_spaces n s : skip_ws (spaces n +:+ s) = skip_ws s.
Proof. induction n as [|n IH]; [reflexivity|exact IH]. Qed.

Lemma skip_ws_newline_indent level s : skip_ws (newline_indent level +:+ s) = skip_ws s.
Proof. unfold newline_indent. rewrite append_cons. apply skip_ws_spaces. Qed.

(** *** Strings *)

Lemma scanstring_escape_char c tail :
  scanstring (escape_char c +:+ tail) = cons_char c (scanstring tail).
Proof. ascii_cases c; reflexivity. Qed.

Lemma scanstring_escape s rest :
  scanstring (escape s +:+ String quote rest) = Ok (s, rest).
Proof.
  induction s as [|c s IH]; [reflexivity|].
  cbn [escape]. rewrite append_assoc, scanstring_escape_char, IH. reflexivity.
Qed.

Lemma scan_once_string fuel s rest :
  scan_once (S fuel) (encode_basestring s +:+ rest) = Ok (JStr s, rest).
Proof.
  unfold encode_basestring. rewrite append_cons, append_assoc, append_cons.
  cbn [scan_once]. change (Ascii.eqb quote quote) with true. cbn iota.
  rewrite append_nil_l, scanstring_escape. reflexivity.
Qed.

(** *** Numbers *)

Lemma value_end_stops rest :
  value_end rest = true -> starts_with_digit rest = false /\ float_tail rest = false.
Proof.
  destruct rest as [|c rest]; [now split|]. unfold value_end, starts_with_digit, float_tail.
  rewrite negb_true_iff, !orb_false_iff. intros [[[H1 H2] H3] H4].
  rewrite H1, H2. cbn [orb] in *. now rewrite H3, H4.
Qed.

Lemma scan_once_digit fuel c s :
  in_range "0" "9" c = true ->
  scan_once (S fuel) (String c s) = match_number (String c s).
Proof. ascii_cases c; try discriminate; reflexivity. Qed.

Lemma scan_once_minus fuel c s :
  in_range "0" "9" c = true ->
  scan_once (S fuel) (String "-" (String c s)) = match_number (String "-" (String c s)).
Proof. ascii_cases c; try discriminate; reflexivity. Qed.

Lemma string_of_uint_digits u :
  u <> Decimal.Nil ->
  exists c s, NilEmpty.string_of_uint u = String c s /\ in_range "0" "9" c = true.
Proof. destruct u; try congruence; intros _; eexists _, _; split; reflexivity. Qed.

Lemma take_digits_uint u rest :
  starts_with_digit rest = false ->
  take_digits (NilEmpty.string_of_uint u +:+ rest) = (NilEmpty.string_of_uint u, rest).
Proof.
  intros Hrest. induction u; cbn [NilEmpty.string_of_uint];
    rewrite ?append_cons; cbn [take_digits]; rewrite ?IHu; try reflexivity.
  rewrite append_nil_l. destruct rest as [|c rest]; [reflexivity|].
  cbn [take_digits]. unfold starts_with_digit in Hrest. now rewrite Hrest.
Qed.

Lemma int_of_digits_uint u (acc : positive) :
  int_of_digits (Zpos acc) (NilEmpty.string_of_uint u) = Zpos (Pos.of_uint_acc u acc).
Proof.
  revert acc. induction u; intros acc; cbn [NilEmpty.string_of_uint Pos.of_uint_acc];
    [reflexivity|..];
    cbn [int_of_digits]; rewrite <- IHu; f_equal; cbn; lia.
Qed.

Lemma pos_to_uint_head p :
  match Pos.to_uint p with
  | Decimal.Nil | Decimal.D0 _ => False
  | _ => True
  end.
Proof.
  pose proof (DecimalPos.Unsigned.to_of (Pos.to_uint p)) as Hnorm.
  rewrite DecimalPos.Unsigned.of_to in Hnorm. cbn [N.to_uint] in Hnorm.
  pose proof (DecimalPos.Unsigned.to_uint_nonzero p) as Hnz.
  destruct (Pos.to_uint p) as [|u| | | | | | | | |] eqn:E; try exact I.
  - discriminate Hnorm.
  - unfold Decimal.unorm in Hnorm. cbn [Decimal.nzhead] in Hnorm.
    destruct (Decimal.nzhead u) eqn:En;
      try (rewrite <- En in Hnorm; symmetry in Hnorm;
           now apply DecimalFacts.nzhead_nonzero in Hnorm).
    apply Hnz. exact Hnorm.
Qed.

Lemma match_digits_pos (negative : bool) p rest :
  value_end rest = true ->
  match_digits negative (NilEmpty.string_of_uint (Pos.to_uint p) +:+ rest)
  = Ok (JInt (if negative then Zneg p else Zpos p), rest).
Proof.
  intros Hend. destruct (value_end_stops rest Hend) as [Hdig Hfloat].
  pose proof (pos_to_uint_head p) as Hhead.
  pose proof (DecimalPos.Unsigned.of_to p) as Hof.
  destruct (Pos.to_uint p) as [|u|u|u|u|u|u|u|u|u|u]; try destruct Hhead;
    cbn [NilEmpty.string_of_uint Pos.of_uint] in *;
    injection Hof as Hof;
    rewrite append_cons; unfold match_digits;
    match goal with
    | |- context [Ascii.eqb ?c "0"] => change (Ascii.eqb c "0") with false
    end;
    match goal with
    | |- context [in_range "1" "9" ?c] => change (in_range "1" "9" c) with true
    end;
    cbn iota; rewrite take_digits_uint by assumption; cbn [fst snd];
    unfold finish_number; rewrite Hfloat; cbn [int_of_digits];
    match goal with
    | |- context [Ascii.eqb ?c " "] => change (Ascii.eqb c " ") with false
    end;
    cbn iota;
    match goal with
    | |- context [int_of_digits ?a _] =>
        let a' := eval vm_compute in a in change a with a'
    end;
    rewrite int_of_digits_uint, Hof; destruct negative; reflexivity.
Qed.

(** The text of an integer is read back as the integer. *)
Lemma scan_once_number fuel z rest :
  value_end rest = true ->
  scan_once (S fuel) (string_of_Z z +:+ rest) = Ok (JInt z, rest).
Proof.
  intros Hend. destruct z as [|p|p].
  - change (string_of_Z 0) with "0".
    destruct (value_end_stops rest Hend) as [Hdig Hfloat].
    rewrite append_cons, append_nil_l.
    rewrite scan_once_digit by reflexivity.
    unfold match_number, match_digits.
    change (Ascii.eqb "0" "-") with false. change (Ascii.eqb "0" "0") with true.
    cbn iota. unfold finish_number. now rewrite Hfloat.
  - unfold string_of_Z. cbn [Z.to_int NilEmpty.string_of_int].
    destruct (string_of_uint_digits (Pos.to_uint p)) as (c & s & Hs & Hc).
    { apply DecimalPos.Unsigned.to_uint_nonnil. }
    pose proof (match_digits_pos false p rest Hend) as Hm.
    rewrite Hs in *. rewrite append_cons in *.
    rewrite scan_once_digit by assumption.
    unfold match_number.
    replace (Ascii.eqb c "-") with false; [exact Hm|].
    ascii_cases c; try discriminate; reflexivity.
  - unfold string_of_Z. cbn [Z.to_int NilEmpty.string_of_int].
    destruct (string_of_uint_digits (Pos.to_uint p)) as (c & s & Hs & Hc).
    { apply DecimalPos.Unsigned.to_uint_nonnil. }
    pose proof (match_digits_pos true p rest Hend) as Hm.
    rewrite Hs in *. rewrite !append_cons in *.
    rewrite scan_once_minus by assumption.
    unfold match_number. change (Ascii.eqb "-" "-") with true. exact Hm.
Qed.

(** *** Arrays and objects *)

Lemma dumps_array level x l rest :
  dumps level (JArr (x :: l)) +:+ rest
  = String "[" (newline_indent (S level)
                +:+ items_text (S level) (x :: l)
                +:+ newline_indent level +:+ String "]" rest).
Proof.
  cbn [dumps]. fold (items_text (S level) (x :: l)).
  now rewrite !append_cons, !append_nil_l, !append_assoc, !append_cons, !append_nil_l.
Qed.

Lemma dumps_object level kv l rest :
  dumps level (JObj (kv :: l)) +:+ rest
  = String "{" (newline_indent (S level)
                +:+ members_text (S level) (kv :: l)
                +:+ newline_indent level +:+ String "}" rest).
Proof.
  cbn [dumps]. fold (members_text (S level) (kv :: l)).
  now rewrite !append_cons, !append_nil_l, !append_assoc, !append_cons, !append_nil_l.
Qed.

(** The text of a value starts with a character that is no blank and
    closes no array. *)
Lemma dumps_head level v :
  exists c s, dumps level v = String c s
              /\ is_ws c = false /\ Ascii.eqb c "]" = false.
Proof.
  destruct v as [|[]|z|s|[|x l]|[|kv l]]; try (now eexists _, _).
  unfold dumps, string_of_Z. destruct z as [|p|p]; try (now eexists _, _).
  cbn [Z.to_int NilEmpty.string_of_int].
  destruct (string_of_uint_digits (Pos.to_uint p)) as (c & s & Hs & Hc).
  { apply DecimalPos.Unsigned.to_uint_nonnil. }
  rewrite Hs. exists c, s. split; [reflexivity|].
  ascii_cases c; try discriminate; now split.
Qed.

Lemma skip_ws_dumps level v rest :
  skip_ws (dumps level v +:+ rest) = dumps level v +:+ rest.
Proof.
  destruct (dumps_head level v) as (c & s & -> & Hws & _).
  rewrite append_cons. cbn [skip_ws]. now rewrite Hws.
Qed.

Lemma items_text_cons level x y l :
  items_text level (x :: y :: l)
  = dumps level x +:+ String "," (newline_indent level +:+ items_text level (y :: l)).
Proof.
  unfold items_text. cbn [map]. rewrite join_cons.
  now rewrite append_cons, append_nil_l.
Qed.

Lemma members_text_cons level kv kv' l :
  members_text level (kv :: kv' :: l)
  = encode_basestring (fst kv)
    +:+ String ":" (String " " (dumps level (snd kv)
    +:+ String "," (newline_indent level +:+ members_text level (kv' :: l)))).
Proof.
  unfold members_text. cbn [map]. rewrite join_cons.
  now rewrite !append_assoc, !append_cons, !append_nil_l.
Qed.

Lemma value_end_newline_indent level s : value_end (newline_indent level +:+ s) = true.
Proof. reflexivity. Qed.

Lemma scan_items_text level l rest fuel :
  l <> [] ->
  Forall reads_back l ->
  (items_size l <= fuel)%nat ->
  scan_items fuel (items_text (S level) l +:+ newline_indent level +:+ String "]" rest)
  = Ok (l, rest).
Proof.
  intros Hne Hall. revert fuel.
  induction Hall as [|x l Hx Hl IH]; [congruence|]. intros fuel Hfuel.
  cbn [items_size fold_right] in Hfuel. fold (items_size l) in Hfuel.
  destruct fuel as [|fuel]; [lia|]. cbn [scan_items].
  destruct l as [|y l].
  - unfold items_text. cbn [map join].
    rewrite (Hx (S level) fuel) by (reflexivity || lia). cbn [rbind fst snd].
    rewrite skip_ws_newline_indent. cbn [skip_ws].
    change (is_ws "]") with false. cbn iota.
    change (Ascii.eqb "]" "]") with true. cbn iota. reflexivity.
  - rewrite items_text_cons, append_assoc, append_cons.
    rewrite (Hx (S level) fuel) by (reflexivity || lia). cbn [rbind fst snd].
    cbn [skip_ws]. change (is_ws ",") with false. cbn iota.
    change (Ascii.eqb "," "]") with false. change (Ascii.eqb "," ",") with true.
    cbn iota. rewrite append_assoc, skip_ws_newline_indent.
    destruct (dumps_head (S level) y) as (c & s & Hy & Hws & _).
    assert (Hskip : forall t, skip_ws (items_text (S level) (y :: l) +:+ t)
                              = items_text (S level) (y :: l) +:+ t).
    { intros t. destruct l as [|z l].
      - unfold items_text. cbn [map join]. apply skip_ws_dumps.
      - rewrite items_text_cons, append_assoc. apply skip_ws_dumps. }
    rewrite Hskip, IH; [reflexivity|congruence|].
    cbn [items_size fold_right] in *. lia.
Qed.

Lemma encode_basestring_append k t :
  encode_basestring k +:+ t = String quote (escape k +:+ String quote t).
Proof.
  unfold encode_basestring.
  now rewrite append_cons, append_assoc, append_cons, append_nil_l.
Qed.

Lemma skip_ws_space s : skip_ws (String " " s) = skip_ws s.
Proof. reflexivity. Qed.

Lemma scan_members_text level l rest fuel :
  l <> [] ->
  Forall (fun kv => reads_back (snd kv)) l ->
  (members_size l <= fuel)%nat ->
  scan_members fuel
    (members_text (S level) l +:+ newline_indent level +:+ String "}" rest)
  = Ok (l, rest).
Proof.
  intros Hne Hall. revert fuel.
  induction Hall as [|[k x] l Hx Hl IH]; [congruence|]. intros fuel Hfuel.
  cbn [members_size fold_right snd] in Hfuel. fold (members_size l) in Hfuel.
  cbn [snd] in Hx.
  destruct fuel as [|fuel]; [lia|].
  destruct l as [|kv' l].
  - unfold members_text. cbn [map join fst snd].
    rewrite !append_assoc, encode_basestring_append, !append_cons, append_nil_l.
    cbn [scan_members]. change (Ascii.eqb quote quote) with true. cbn iota.
    rewrite scanstring_escape. cbn [rbind fst snd skip_ws].
    change (is_ws ":") with false. cbn iota.
    change (Ascii.eqb ":" ":") with true. cbn iota.
    rewrite skip_ws_space, skip_ws_dumps.
    rewrite (Hx (S level) fuel) by (reflexivity || lia). cbn [rbind fst snd].
    rewrite skip_ws_newline_indent. cbn [skip_ws].
    change (is_ws "}") with false. cbn iota.
    change (Ascii.eqb "}" "}") with true. cbn iota. reflexivity.
  - rewrite members_text_cons. cbn [fst snd].
    rewrite !append_assoc, encode_basestring_append, !append_cons.
    cbn [scan_members]. change (Ascii.eqb quote quote) with true. cbn iota.
    rewrite scanstring_escape. cbn [rbind fst snd skip_ws].
    change (is_ws ":") with false. cbn iota.
    change (Ascii.eqb ":" ":") with true. cbn iota.
    rewrite !append_assoc, !append_cons, skip_ws_space, skip_ws_dumps.
    rewrite (Hx (S level) fuel) by (reflexivity || lia). cbn [rbind fst snd skip_ws].
    change (is_ws ",") with false. cbn iota.
    change (Ascii.eqb "," "}") with false. change (Ascii.eqb "," ",") with true.
    cbn iota. rewrite append_assoc, skip_ws_newline_indent.
    assert (Hskip : forall t, skip_ws (members_text (S level) (kv' :: l) +:+ t)
                              = members_text (S level) (kv' :: l) +:+ t).
    { intros t. destruct l as [|kv'' l].
      - unfold members_text. cbn [map join].
        now rewrite !append_assoc, encode_basestring_append.
      - rewrite members_text_cons, !append_assoc.
        now rewrite encode_basestring_append. }
    rewrite Hskip, IH; [reflexivity|congruence|].
    cbn [members_size fold_right] in *. lia.
Qed.

Lemma dict_set_fresh k v d :
  ~ In k (map fst d) -> dict_set k v d = (d ++ [(k, v)])%list.
Proof.
  induction d as [|[k' w] d IH]; intros Hk; [reflexivity|].
  cbn [dict_set]. cbn [map fst In] in Hk.
  destruct (String.eqb_spec k' k) as [->|Hne]; [tauto|].
  cbn [app]. rewrite IH by tauto. reflexivity.
Qed.

Lemma dict_of_pairs_acc l acc :
  NoDup (map fst (acc ++ l)) ->
  fold_left (fun d kv => dict_set (fst kv) (snd kv) d) l acc = (acc ++ l)%list.
Proof.
  revert acc. induction l as [|[k v] l IH]; intros acc Hnd.
  - cbn. now rewrite app_nil_r.
  - cbn [fold_left fst snd]. rewrite dict_set_fresh.
    + rewrite IH; rewrite <- app_assoc; [reflexivity|exact Hnd].
    + rewrite map_app in Hnd. cbn [map fst] in Hnd.
      apply NoDup_app in Hnd. destruct Hnd as (_ & Hdis & _).
      intros Hin. apply list_elem_of_In in Hin.
      apply (Hdis k Hin). now left.
Qed.

Lemma dict_of_pairs_nodup l : NoDup (map fst l) -> dict_of_pairs l = l.
Proof. intros H. unfold dict_of_pairs. now rewrite dict_of_pairs_acc. Qed.

Lemma wf_json_items (items : list json) :
  fold_right (fun x P => wf_json x /\ P) True items <-> Forall wf_json items.
Proof.
  induction items as [|x items IH]; cbn [fold_right].
  - split; [constructor|easy].
  - rewrite IH. split; [intros [? ?]; now constructor|now inversion 1].
Qed.

Lemma wf_json_members (members : list (string * json)) :
  fold_right (fun kv P => wf_json (snd kv) /\ P) True members
  <-> Forall (fun kv => wf_json (snd kv)) members.
Proof.
  induction members as [|x members IH]; cbn [fold_right].
  - split; [constructor|easy].
  - rewrite IH. split; [intros [? ?]; now constructor|now inversion 1].
Qed.

(** [scan_once] reads the text of every well-formed value back. *)
Lemma dumps_reads_back v : wf_json v -> reads_back v.
Proof.
  induction v as [|b|z|s|items IH|members IH] using json_induction;
    intros Hwf level fuel rest Hfuel Hend;
    (destruct fuel as [|fuel]; [cbn [json_size] in Hfuel; lia|]).
  - reflexivity.
  - destruct b; reflexivity.
  - now apply scan_once_number.
  - apply scan_once_string.
  - cbn [wf_json] in Hwf. apply wf_json_items in Hwf.
    assert (Hall : Forall reads_back items).
    { clear -IH Hwf. induction IH; inversion Hwf; subst; constructor; auto. }
    destruct items as [|x l]; [reflexivity|].
    rewrite dumps_array. cbn [scan_once].
    change (Ascii.eqb "[" quote) with false. change (Ascii.eqb "[" "{") with false.
    change (Ascii.eqb "[" "[") with true. cbn iota.
    rewrite skip_ws_newline_indent.
    assert (Hskip : forall t, skip_ws (items_text (S level) (x :: l) +:+ t)
                              = items_text (S level) (x :: l) +:+ t
                                /\ exists c s, items_text (S level) (x :: l) +:+ t
                                               = String c s
                                               /\ Ascii.eqb c "]" = false).
    { intros t. destruct (dumps_head (S level) x) as (c & s & Hd & Hws & Hc).
      destruct l as [|y l].
      - unfold items_text. cbn [map join]. split; [apply skip_ws_dumps|].
        rewrite Hd, append_cons. now eexists _, _.
      - rewrite items_text_cons, append_assoc. split; [apply skip_ws_dumps|].
        rewrite Hd, append_cons. now eexists _, _. }
    destruct (Hskip (newline_indent level +:+ String "]" rest))
      as (Hs & c & s & Hcs & Hc).
    rewrite Hs, Hcs, Hc, <- Hcs.
    rewrite scan_items_text; [reflexivity|congruence|exact Hall|].
    cbn [json_size] in Hfuel. fold (items_size (x :: l)) in Hfuel. lia.
  - cbn [wf_json] in Hwf. destruct Hwf as [Hnd Hwf]. apply wf_json_members in Hwf.
    assert (Hall : Forall (fun kv => reads_back (snd kv)) members).
    { clear -IH Hwf. induction IH; inversion Hwf; subst; constructor; auto. }
    destruct members as [|kv l]; [reflexivity|].
    rewrite dumps_object. cbn [scan_once].
    change (Ascii.eqb "{" quote) with false. change (Ascii.eqb "{" "{") with true.
    cbn iota. rewrite skip_ws_newline_indent.
    assert (Hskip : forall t, exists s,
               members_text (S level) (kv :: l) +:+ t = String quote s).
    { intros t. destruct l as [|kv' l].
      - unfold members_text. cbn [map join].
        rewrite !append_assoc, encode_basestring_append. now eexists.
      - rewrite members_text_cons, !append_assoc, encode_basestring_append.
        now eexists. }
    destruct (Hskip (newline_indent level +:+ String "}" rest)) as (s & Hs).
    rewrite Hs. cbn [skip_ws]. change (is_ws quote) with false. cbn iota.
    change (Ascii.eqb quote "}") with false. cbn iota. rewrite <- Hs.
    rewrite scan_members_text; [|congruence|exact Hall|].
    + cbn [rbind fst snd]. now rewrite dict_of_pairs_nodup.
    + cbn [json_size] in Hfuel. fold (members_size (kv :: l)) in Hfuel. lia.
Qed.

(** *** [json.loads] after [json.dumps] *)

Lemma length_newline_indent level : (1 <= String.length (newline_indent level))%nat.
Proof. unfold newline_indent. cbn [String.length]. lia. Qed.

Lemma items_size_le_length level (l : list json) :
  Forall (fun x => forall level, (json_size x <= String.length (dumps level x))%nat) l ->
  (items_size l <= S (String.length (items_text level l)))%nat.
Proof.
  induction 1 as [|x l Hx Hl IH]; [cbn; lia|].
  cbn [items_size fold_right]. fold (items_size l).
  destruct l as [|y l].
  - unfold items_text. cbn [map join items_size fold_right].
    specialize (Hx level). lia.
  - rewrite items_text_cons, length_append. cbn [String.length].
    rewrite length_append. specialize (Hx level).
    pose proof (length_newline_indent level). lia.
Qed.

Lemma members_size_le_length level (l : list (string * json)) :
  Forall (fun kv => forall level,
            (json_size (snd kv) <= String.length (dumps level (snd kv)))%nat) l ->
  (members_size l <= S (String.length (members_text level l)))%nat.
Proof.
  induction 1 as [|[k x] l Hx Hl IH]; [cbn; lia|].
  cbn [members_size fold_right snd] in *. fold (members_size l).
  destruct l as [|kv' l].
  - unfold members_text. cbn [map join members_size fold_right fst snd].
    rewrite !length_append. specialize (Hx level). lia.
  - rewrite members_text_cons, length_append. cbn [String.length fst snd].
    rewrite !length_append. cbn [String.length]. rewrite length_append.
    specialize (Hx level). pose proof (length_newline_indent level). lia.
Qed.

Lemma json_size_le_length v :
  forall level, (json_size v <= String.length (dumps level v))%nat.
Proof.
  induction v as [|b|z|s|items IH|members IH] using json_induction; intros level.
  - cbn. lia.
  - destruct b; cbn; lia.
  - destruct (dumps_head level (JInt z)) as (c & s & -> & _). cbn. lia.
  - cbn. lia.
  - destruct items as [|x l]; [cbn; lia|].
    pose proof (dumps_array level x l EmptyString) as Hd.
    rewrite append_nil_r in Hd. rewrite Hd. cbn [json_size String.length].
    fold (items_size (x :: l)). rewrite !length_append.
    pose proof (items_size_le_length (S level) (x :: l) IH).
    pose proof (length_newline_indent (S level)). cbn [String.length]. lia.
  - destruct members as [|kv l]; [cbn; lia|].
    pose proof (dumps_object level kv l EmptyString) as Hd.
    rewrite append_nil_r in Hd. rewrite Hd. cbn [json_size String.length].
    fold (members_size (kv :: l)). rewrite !length_append.
    pose proof (members_size_le_length (S level) (kv :: l) IH).
    pose proof (length_newline_indent (S level)). cbn [String.length]. lia.
Qed.

(** Reading the text [json.dump] writes gives the value back. *)
Lemma json_loads_dumps v : wf_json v -> json_loads (json_dumps v) = Ok v.
Proof.
  intros Hwf. unfold json_loads, json_dumps.
  pose proof (skip_ws_dumps 0 v EmptyString) as Hskip.
  rewrite append_nil_r in Hskip. rewrite Hskip.
  pose proof (dumps_reads_back v Hwf 0%nat (S (2 * String.length (dumps 0 v)))
                EmptyString) as Hread.
  rewrite append_nil_r in Hread. rewrite Hread; [reflexivity| |reflexivity].
  pose proof (json_size_le_length v 0). lia.
Qed.

(** The file of the scenario of the specification, and texts
    [json.loads] takes or refuses. *)
Example json_dumps_doe :
  json_dumps (JArr [doe])
  = dq "[
    {
        'surname': 'Doe',
        'name': 'Jane',
        'zodiac': 'Leo',
        'birthday': [
            '15',
            '03',
            '1990'
        ]
    }
]".
Proof. reflexivity. Qed.

Example json_loads_texts :
  json_loads (dq " [ {'a' : null, 'a': true, 'b': [-20, 0, {}]} ] ")
  = Ok (JArr [JObj [("a", JBool true); ("b", JArr [JInt (-20); JInt 0; JObj []])]])
  /\ json_loads (dq "'\u00e9\n\/'")
     = Ok (JStr (String "233" (String "010" "/")))
  /\ json_loads "[1,]" = Raise JSONDecodeError
  /\ json_loads "01" = Raise JSONDecodeError
  /\ json_loads "[[[[[[" = Raise JSONDecodeError
  /\ json_loads (dq "{'a': 1,}") = Raise JSONDecodeError
  /\ json_loads EmptyString = Raise JSONDecodeError
  /\ json_loads "[1.5]" = Raise OutsideModel.
Proof. repeat split; reflexivity. Qed.

(** *** The scanner never runs out of fuel *)

Lemma progress_longer {V} (s t : string) (r : result (V * string)) :
  progress s r -> (String.length s <= String.length t)%nat -> progress t r.
Proof. destruct r as [p|e]; cbn [progress]; [lia|auto]. Qed.

Lemma progress_rbind {V W} (s : string) (r : result (V * string))
    (k : V * string -> result (W * string)) :
  progress s r ->
  (forall p, (String.length (snd p) < String.length s)%nat -> progress s (k p)) ->
  progress s (rbind r k).
Proof. destruct r as [p|e]; cbn [progress rbind]; auto. Qed.

Lemma length_skip_ws s : (String.length (skip_ws s) <= String.length s)%nat.
Proof.
  induction s as [|c s IH]; [reflexivity|]. cbn [skip_ws].
  destruct (is_ws c); cbn [String.length]; lia.
Qed.

Lemma progress_cons_char c s (r : result (string * string)) :
  progress s r -> progress s (cons_char c r).
Proof. destruct r as [p|e]; cbn; auto. Qed.

Lemma scanstring_progress s : progress (String quote s) (scanstring s).
Proof.
  assert (H : forall n s, (String.length s <= n)%nat ->
                          progress (String quote s) (scanstring s)).
  { clear s. induction n as [|n IH]; intros s Hn.
    - destruct s; [cbn; discriminate|cbn in Hn; lia].
    - destruct s as [|c s]; [cbn; discriminate|]. cbn [String.length] in Hn.
      cbn [scanstring].
      destruct (Ascii.eqb c quote); [cbn; lia|].
      destruct (Ascii.eqb c backslash).
      + destruct s as [|e s]; [cbn; discriminate|]. cbn [String.length] in Hn.
        destruct (Ascii.eqb e "u").
        * destruct s as [|h1 [|h2 [|h3 [|h4 t]]]]; try (cbn; discriminate).
          cbn [String.length] in Hn.
          destruct (hex_value h1), (hex_value h2), (hex_value h3), (hex_value h4);
            try (cbn; discriminate).
          destruct (_ <? 256)%N; [|cbn; discriminate].
          apply progress_cons_char.
          eapply progress_longer; [apply IH; lia|cbn [String.length]; lia].
        * destruct (unescape e); [|cbn; discriminate].
          apply progress_cons_char.
          eapply progress_longer; [apply IH; lia|cbn [String.length]; lia].
      + destruct (_ <? 32)%N; [cbn; discriminate|].
        apply progress_cons_char.
        eapply progress_longer; [apply IH; lia|cbn [String.length]; lia]. }
  apply (H (String.length s)). lia.
Qed.

Lemma length_take_digits s :
  (String.length (snd (take_digits s)) <= String.length s)%nat.
Proof.
  induction s as [|c s IH]; [reflexivity|]. cbn [take_digits].
  destruct (in_range "0" "9" c); cbn [snd String.length]; lia.
Qed.

Lemma match_digits_progress negative c s :
  progress (String c s) (match_digits negative (String c s)).
Proof.
  unfold match_digits, finish_number.
  destruct (Ascii.eqb c "0").
  - destruct (float_tail s); cbn; [discriminate|lia].
  - destruct (in_range "1" "9" c); [|cbn; discriminate].
    pose proof (length_take_digits s).
    destruct (float_tail _); cbn; [discriminate|lia].
Qed.

Lemma match_number_progress s : progress s (match_number s).
Proof.
  destruct s as [|c s]; [cbn; discriminate|]. unfold match_number.
  destruct (Ascii.eqb c "-"); [|apply match_digits_progress].
  destruct s as [|c' s]; [cbn; discriminate|].
  eapply progress_longer; [apply match_digits_progress|cbn [String.length]; lia].
Qed.

Lemma length_strip_prefix p s rest :
  strip_prefix p s = Some rest ->
  String.length s = (String.length p + String.length rest)%nat.
Proof.
  revert s. induction p as [|c p IH]; intros s H; cbn [strip_prefix] in H.
  - now injection H as ->.
  - destruct s as [|c' s]; [discriminate|].
    destruct (Ascii.eqb c c'); [|discriminate].
    cbn [String.length]. now rewrite (IH s H).
Qed.

Lemma scan_progress fuel :
  (forall s, (2 * String.length s < fuel)%nat -> progress s (scan_once fuel s))
  /\ (forall s, (2 * String.length s + 1 < fuel)%nat -> progress s (scan_items fuel s))
  /\ (forall s, (2 * String.length s + 1 < fuel)%nat -> progress s (scan_members fuel s)).
Proof.
  induction fuel as [|fuel (IHonce & IHitems & IHmembers)].
  { repeat split; intros s H; lia. }
  split; [|split]; intros s Hfuel.
  - destruct s as [|c s]; [cbn; discriminate|]. cbn [String.length] in Hfuel.
    cbn [scan_once].
    destruct (Ascii.eqb c quote).
    { apply progress_rbind.
      - eapply progress_longer; [apply scanstring_progress|reflexivity].
      - intros p Hp. exact Hp. }
    destruct (Ascii.eqb c "{").
    { pose proof (length_skip_ws s) as Hws.
      destruct (skip_ws s) as [|c1 s1]; [cbn; discriminate|].
      cbn [String.length] in Hws.
      destruct (Ascii.eqb c1 "}"); [cbn; lia|].
      apply progress_rbind.
      - eapply progress_longer; [apply IHmembers|]; cbn [String.length]; lia.
      - intros p Hp. exact Hp. }
    destruct (Ascii.eqb c "[").
    { pose proof (length_skip_ws s) as Hws.
      destruct (skip_ws s) as [|c1 s1]; [cbn; discriminate|].
      cbn [String.length] in Hws.
      destruct (Ascii.eqb c1 "]"); [cbn; lia|].
      apply progress_rbind.
      - eapply progress_longer; [apply IHitems|]; cbn [String.length]; lia.
      - intros p Hp. exact Hp. }
    destruct (strip_prefix "null" (String c s)) as [rest|] eqn:E1.
    { apply length_strip_prefix in E1. cbn in *. lia. }
    destruct (strip_prefix "true" (String c s)) as [rest|] eqn:E2.
    { apply length_strip_prefix in E2. cbn in *. lia. }
    destruct (strip_prefix "false" (String c s)) as [rest|] eqn:E3.
    { apply length_strip_prefix in E3. cbn in *. lia. }
    destruct (strip_prefix "NaN" (String c s)); [cbn; discriminate|].
    destruct (strip_prefix "Infinity" (String c s)); [cbn; discriminate|].
    destruct (strip_prefix "-Infinity" (String c s)); [cbn; discriminate|].
    apply match_number_progress.
  - cbn [scan_items]. apply progress_rbind; [apply IHonce; lia|].
    intros p Hp. pose proof (length_skip_ws (snd p)) as Hws.
    destruct (skip_ws (snd p)) as [|c rest]; [cbn; discriminate|].
    cbn [String.length] in Hws.
    destruct (Ascii.eqb c "]"); [cbn; lia|].
    destruct (Ascii.eqb c ","); [|cbn; discriminate].
    pose proof (length_skip_ws rest) as Hws'.
    apply progress_rbind.
    + eapply progress_longer; [apply IHitems|]; lia.
    + intros q Hq. cbn [progress snd]. exact Hq.
  - cbn [scan_members]. destruct s as [|c s]; [cbn; discriminate|].
    cbn [String.length] in Hfuel.
    destruct (Ascii.eqb c quote) eqn:Ec; [|cbn; discriminate].
    apply progress_rbind.
    { eapply progress_longer; [apply scanstring_progress|reflexivity]. }
    intros k Hk. cbn [String.length] in Hk.
    pose proof (length_skip_ws (snd k)) as Hws.
    destruct (skip_ws (snd k)) as [|c1 s1]; [cbn; discriminate|].
    cbn [String.length] in Hws.
    destruct (Ascii.eqb c1 ":"); [|cbn; discriminate].
    pose proof (length_skip_ws s1) as Hws1.
    apply progress_rbind.
    { eapply progress_longer; [apply IHonce|]; cbn [String.length]; lia. }
    intros p Hp. cbn [String.length] in Hp.
    pose proof (length_skip_ws (snd p)) as Hws2.
    destruct (skip_ws (snd p)) as [|c2 rest]; [cbn; discriminate|].
    cbn [String.length] in Hws2.
    destruct (Ascii.eqb c2 "}"); [cbn; lia|].
    destruct (Ascii.eqb c2 ","); [|cbn; discriminate].
    pose proof (length_skip_ws rest) as Hws3.
    apply progress_rbind.
    + eapply progress_longer; [apply IHmembers|]; cbn [String.length]; lia.
    + intros q Hq. cbn [progress snd]. exact Hq.
Qed.

(** [json_loads] ends with a value, a [JSONDecodeError], or outside
    the model: its fuel is enough for every text. *)
Lemma json_loads_no_recursion_error text :
  json_loads text <> Raise RecursionError.
Proof.
  unfold json_loads.
  pose proof (length_skip_ws text) as Hws.
  destruct (scan_progress (S (2 * String.length text))) as (Honce & _ & _).
  specialize (Honce (skip_ws text)).
  destruct (scan_once _ (skip_ws text)) as [p|e]; cbn [rbind].
  - destruct (skip_ws (snd p)); discriminate.
  - cbn [progress] in Honce. intros H. injection H as ->. apply Honce; [lia|reflexivity].
Qed.
(** ** Bytes on disk *)

Lemma utf8_decode_encode_char c data :
  utf8_decode (utf8_encode_char c ++ data) = cons_text c (utf8_decode data).
Proof. ascii_cases c; reflexivity. Qed.

Lemma utf8_decode_encode text : utf8_decode (utf8_encode text) = Ok text.
Proof.
  induction text as [|c text IH]; [reflexivity|].
  cbn [utf8_encode]. now rewrite utf8_decode_encode_char, IH.
Qed.

(** *** A UTF-8 file read as Latin-1 *)

Lemma latin1_decode_app a b :
  latin1_decode (a ++ b) = latin1_decode a +:+ latin1_decode b.
Proof.
  induction a as [|x a IH]; [reflexivity|].
  cbn [app latin1_decode]. now rewrite IH.
Qed.

Lemma latin1_decode_utf8 text : latin1_decode (utf8_encode text) = mojibake text.
Proof.
  induction text as [|c text IH]; [reflexivity|].
  cbn [utf8_encode mojibake]. now rewrite latin1_decode_app, IH.
Qed.

Lemma mojibake_append a b : mojibake (a +:+ b) = mojibake a +:+ mojibake b.
Proof.
  induction a as [|x a IH]; [reflexivity|].
  rewrite append_cons. cbn [mojibake]. now rewrite IH, append_assoc.
Qed.

Lemma mojibake_ascii s : is_ascii s = true -> mojibake s = s.
Proof.
  induction s as [|c s IH]; [reflexivity|]. cbn [is_ascii mojibake].
  rewrite andb_true_iff. intros [Hc Hs]. rewrite (IH Hs).
  ascii_cases c; try discriminate; reflexivity.
Qed.

Lemma mojibake_escape s : mojibake (escape s) = escape (mojibake s).
Proof.
  assert (Happ : forall a b, escape (a +:+ b) = escape a +:+ escape b).
  { intros a b. induction a as [|x a IH]; [reflexivity|].
    rewrite append_cons. cbn [escape]. now rewrite IH, append_assoc. }
  induction s as [|c s IH]; [reflexivity|].
  cbn [escape mojibake]. rewrite mojibake_append, Happ, IH. f_equal.
  ascii_cases c; reflexivity.
Qed.

Lemma mojibake_encode_basestring s :
  mojibake (encode_basestring s) = encode_basestring (mojibake s).
Proof.
  unfold encode_basestring. cbn [mojibake].
  change (mojibake_char quote) with (String quote EmptyString).
  rewrite append_cons, append_nil_l, mojibake_append, mojibake_escape.
  reflexivity.
Qed.

Lemma is_ascii_spaces n : is_ascii (spaces n) = true.
Proof. induction n as [|n IH]; [reflexivity|exact IH]. Qed.

Lemma mojibake_newline_indent level :
  mojibake (newline_indent level) = newline_indent level.
Proof. apply mojibake_ascii. unfold newline_indent. apply is_ascii_spaces. Qed.

Lemma is_ascii_uint u : is_ascii (NilEmpty.string_of_uint u) = true.
Proof. induction u; [reflexivity|exact IHu..]. Qed.

Lemma mojibake_string_of_Z z : mojibake (string_of_Z z) = string_of_Z z.
Proof.
  apply mojibake_ascii. unfold string_of_Z.
  destruct z as [|p|p]; [reflexivity|apply is_ascii_uint|].
  cbn [Z.to_int NilEmpty.string_of_int is_ascii]. apply is_ascii_uint.
Qed.

Lemma mojibake_join sep (l : list string) :
  mojibake (join sep l) = join (mojibake sep) (map mojibake l).
Proof.
  induction l as [|x l IH]; [reflexivity|].
  destruct l as [|y l]; [reflexivity|].
  rewrite join_cons. cbn [map]. rewrite join_cons.
  cbn [map] in IH. now rewrite !mojibake_append, IH.
Qed.

(** Read as Latin-1, the text of a value is the text of the value with
    every string garbled. *)
Lemma mojibake_dumps v :
  forall level, mojibake (dumps level v) = dumps level (json_map mojibake v).
Proof.
  induction v as [|b|z|s|items IH|members IH] using json_induction; intros level.
  - reflexivity.
  - destruct b; reflexivity.
  - apply mojibake_string_of_Z.
  - apply mojibake_encode_basestring.
  - destruct items as [|x l]; [reflexivity|].
    pose proof (dumps_array level x l EmptyString) as Hd.
    rewrite append_nil_r in Hd. rewrite Hd. clear Hd.
    cbn [json_map map].
    pose proof (dumps_array level (json_map mojibake x) (map (json_map mojibake) l)
                  EmptyString) as Hd.
    rewrite append_nil_r in Hd. rewrite Hd. clear Hd.
    cbn [mojibake]. change (mojibake_char "[") with "[".
    rewrite append_cons, append_nil_l, !mojibake_append, !mojibake_newline_indent.
    f_equal. f_equal. f_equal.
    unfold items_text. rewrite mojibake_join, mojibake_append.
    rewrite mojibake_newline_indent. f_equal.
    rewrite <- (map_cons (json_map mojibake) x l), !map_map.
    clear -IH. induction IH as [|y l' Hy _ IHl]; [reflexivity|].
    cbn [map]. now rewrite Hy, IHl.
  - destruct members as [|kv l]; [reflexivity|].
    pose proof (dumps_object level kv l EmptyString) as Hd.
    rewrite append_nil_r in Hd. rewrite Hd. clear Hd.
    cbn [json_map map].
    pose proof (dumps_object level (mojibake (fst kv), json_map mojibake (snd kv))
                  (map (fun kv => (mojibake (fst kv), json_map mojibake (snd kv))) l)
                  EmptyString) as Hd.
    rewrite append_nil_r in Hd. rewrite Hd. clear Hd.
    cbn [mojibake]. change (mojibake_char "{") with "{".
    rewrite append_cons, append_nil_l, !mojibake_append, !mojibake_newline_indent.
    f_equal. f_equal. f_equal.
    unfold members_text. rewrite mojibake_join, mojibake_append.
    rewrite mojibake_newline_indent. f_equal.
    rewrite <- (map_cons (fun kv => (mojibake (fst kv), json_map mojibake (snd kv))) kv l),
      !map_map.
    clear -IH. induction IH as [|y l' Hy _ IHl]; [reflexivity|].
    cbn [map fst snd]. rewrite IHl, !mojibake_append, mojibake_encode_basestring, Hy.
    reflexivity.
Qed.

Lemma latin1_decode_inj a b : latin1_decode a = latin1_decode b -> a = b.
Proof.
  revert b. induction a as [|x a IH]; intros [|y b] H; try discriminate;
    [reflexivity|].
  cbn [latin1_decode] in H. injection H as Hxy Hab.
  rewrite (IH b Hab). f_equal.
  rewrite <- (byte_of_ascii_of_byte x), <- (byte_of_ascii_of_byte y).
  now rewrite Hxy.
Qed.

Lemma mojibake_inj s t : mojibake s = mojibake t -> s = t.
Proof.
  rewrite <- !latin1_decode_utf8. intros H. apply latin1_decode_inj in H.
  pose proof (utf8_decode_encode s) as Hs. rewrite H, utf8_decode_encode in Hs.
  now injection Hs.
Qed.

Lemma wf_json_mojibake v : wf_json v -> wf_json (json_map mojibake v).
Proof.
  induction v as [|b|z|s|items IH|members IH] using json_induction;
    intros Hwf; try exact I.
  - cbn [json_map wf_json] in *. apply wf_json_items in Hwf. apply wf_json_items.
    induction IH as [|x l Hx _ IHl]; [constructor|].
    inversion Hwf; subst. cbn [map]. constructor; auto.
  - cbn [json_map wf_json] in *. destruct Hwf as [Hnd Hwf].
    apply wf_json_members in Hwf. split.
    + rewrite map_map. cbn [fst].
      rewrite <- (map_map fst mojibake).
      apply NoDup_fmap_2; [|exact Hnd].
      intros s t. apply mojibake_inj.
    + apply wf_json_members.
      induction IH as [|x l Hx _ IHl]; [constructor|].
      inversion Hwf; subst. cbn [map]. constructor; cbn [snd]; auto.
      apply IHl; [|assumption]. now inversion Hnd.
Qed.

Lemma wf_json_reread enc people :
  Forall wf_json people -> wf_json (JArr (reread enc people)).
Proof.
  intros H. cbn [wf_json]. apply wf_json_items. destruct enc; [exact H|].
  cbn [reread]. induction H; cbn [map]; constructor; auto using wf_json_mojibake.
Qed.

(** ** Running [main] *)

Lemma load_people_eq env file_name w :
  load_people env file_name w
  = let path := path_join (cwd env) file_name in
    match files w !! path with
    | None => (Raise FileNotFoundError, w)
    | Some data =>
        match decode (locale env) data with
        | Raise e => (Raise e, after w [EvRead path])
        | Ok text =>
            match json_loads text with
            | Raise e => (Raise e, after w [EvRead path])
            | Ok doc =>
                if validation doc then
                  match doc with
                  | JArr items => (Ok (Some items), after w [EvRead path])
                  | _ => (Ok None, after w [EvRead path])
                  end
                else (Ok None, after w [EvRead path; EvMessage])
            end
        end
    end.
Proof.
  unfold load_people, bind, read_text, lift, validation_io, after. cbn zeta.
  destruct (files w !! path_join (cwd env) file_name) as [data|]; [|reflexivity].
  destruct (decode (locale env) data) as [text|e]; [|reflexivity].
  destruct (json_loads text) as [doc|e]; [|reflexivity].
  destruct (validation doc).
  - destruct doc; reflexivity.
  - unfold bind, emit, ret. cbn. rewrite <- app_assoc. reflexivity.
Qed.

Lemma main_eq env args w :
  main env args w
  = match load_phase env args w with
    | (Ok people, w1) => command_phase env args people w1
    | (Raise e, w1) => (Raise e, w1)
    end.
Proof.
  unfold main, load_phase, command_phase, bind, path_exists, ret.
  destruct (bool_decide _).
  - destruct (load_people env (filename args) w) as [[loaded|e] w1]; reflexivity.
  - reflexivity.
Qed.

Lemma command_phase_eq env args people w :
  command_phase env args people w
  = match arg_command args with
    | CmdAdd surname name zodiac birthday =>
        match sort_people (add_person people surname name zodiac birthday) with
        | Ok sorted =>
            save_people env (path_join (home env) (filename args)) sorted w
        | Raise e => (Raise e, w)
        end
    | CmdSelect surname =>
        match select_people surname people with
        | Ok selected => (Ok tt, after w [EvDisplay selected])
        | Raise e => (Raise e, w)
        end
    | CmdDisplay => (Ok tt, after w [EvDisplay people])
    end.
Proof.
  unfold command_phase, bind, lift, ret, display_people, emit, after.
  destruct (arg_command args) as [s n z b| |s].
  - destruct (sort_people _); reflexivity.
  - reflexivity.
  - destruct (select_people s people); reflexivity.
Qed.

Lemma save_people_eq env file_name people w :
  save_people env file_name people w
  = (Ok tt,
     mkworld (<[path_join (cwd env) file_name
                := utf8_encode (json_dumps (JArr people))]> (files w))
       (events w ++ [EvWrite (path_join (cwd env) file_name)])).
Proof. reflexivity. Qed.


Lemma load_phase_eq env args w :
  load_phase env args w
  = match files w !! path_join (cwd env) (path_join (home env) (filename args)) with
    | Some _ =>
        match load_people env (filename args) w with
        | (Ok loaded, w1) => (Ok (default [] loaded), w1)
        | (Raise e, w1) => (Raise e, w1)
        end
    | None => (Ok [], w)
    end.
Proof.
  unfold load_phase, bind, path_exists, ret.
  destruct (files w !! _) as [data|].
  - rewrite bool_decide_eq_true_2 by (now eexists). reflexivity.
  - rewrite bool_decide_eq_false_2 by (now intros [? ?]). reflexivity.
Qed.

(** [load_people] changes no file and writes nothing. *)
Lemma load_people_frame env file_name w :
  exists evs,
    snd (load_people env file_name w) = after w evs
    /\ existsb is_write evs = false.
Proof.
  rewrite load_people_eq. cbn zeta.
  destruct (files w !! _) as [data|].
  2:{ exists []. split; [|reflexivity]. unfold after. rewrite app_nil_r.
      now destruct w. }
  destruct (decode (locale env) data) as [text|e]; [|now eexists].
  destruct (json_loads text) as [doc|e]; [|now eexists].
  destruct (validation doc); [destruct doc|]; now eexists.
Qed.

Lemma load_phase_frame env args w :
  exists evs,
    snd (load_phase env args w) = after w evs
    /\ existsb is_write evs = false.
Proof.
  rewrite load_phase_eq.
  destruct (files w !! _) as [data|].
  - destruct (load_people_frame env (filename args) w) as (evs & Hw & Hevs).
    exists evs. destruct (load_people env (filename args) w) as [[loaded|e] w1];
      simpl in *; now split.
  - exists []. split; [|reflexivity]. unfold after. rewrite app_nil_r.
    now destruct w.
Qed.

(** What [load_people] makes of a file [save_people] has written. *)
Lemma load_people_after_save env file_name people w :
  Forall wf_json people ->
  fst (load_people env file_name (snd (save_people env file_name people w)))
  = if validation (JArr (reread (locale env) people))
    then Ok (Some (reread (locale env) people))
    else Ok None.
Proof.
  intros Hwf. rewrite save_people_eq, load_people_eq. cbn [snd files]. cbn zeta.
  rewrite lookup_insert_eq.
  assert (Hdec : decode (locale env) (utf8_encode (json_dumps (JArr people)))
                 = Ok (json_dumps (JArr (reread (locale env) people)))).
  { destruct (locale env); cbn [decode reread].
    - apply utf8_decode_encode.
    - rewrite latin1_decode_utf8. unfold json_dumps. now rewrite mojibake_dumps. }
  rewrite Hdec, json_loads_dumps by (now apply wf_json_reread).
  destruct (validation (JArr (reread (locale env) people))); reflexivity.
Qed.

(** With the UTF-8 locale a valid collection is read back as it was
    saved. *)
Lemma save_then_load_utf8 env file_name people w :
  locale env = UTF8 ->
  Forall wf_json people ->
  validation (JArr people) = true ->
  fst (load_people env file_name (snd (save_people env file_name people w)))
  = Ok (Some people).
Proof.
  intros Henc Hwf Hval. rewrite load_people_after_save by assumption.
  rewrite Henc. cbn [reread]. now rewrite Hval.
Qed.

(** The scenario of the specification as two runs from the home
    directory, and a third that displays the file. *)
Example main_scenario :
  main (at_home UTF8)
    (mkarguments (CmdAdd "Doe" "Jane" (Some "Leo") "15.03.1990") "people.json")
    (mkworld ∅ [])
  = (Ok tt, mkworld {[ "/home/u/people.json" := file_of [doe] ]}
              [EvWrite "/home/u/people.json"])
  /\ main (at_home UTF8)
       (mkarguments (CmdAdd "Roe" "Rick" (Some EmptyString) "01.01.1980") "people.json")
       (mkworld {[ "/home/u/people.json" := file_of [doe] ]} [])
     = (Ok tt, mkworld {[ "/home/u/people.json" := file_of [roe; doe] ]}
                 [EvRead "/home/u/people.json"; EvWrite "/home/u/people.json"])
  /\ main (at_home UTF8) (mkarguments CmdDisplay "people.json")
       (mkworld {[ "/home/u/people.json" := file_of [roe; doe] ]} [])
     = (Ok tt, mkworld {[ "/home/u/people.json" := file_of [roe; doe] ]}
                 [EvRead "/home/u/people.json"; EvDisplay [roe; doe]])
  /\ main (at_home UTF8) (mkarguments (CmdSelect "Doe") "people.json")
       (mkworld {[ "/home/u/people.json" := file_of [roe; doe] ]} [])
     = (Ok tt, mkworld {[ "/home/u/people.json" := file_of [roe; doe] ]}
                 [EvRead "/home/u/people.json"; EvDisplay [doe]])
  /\ main (at_home UTF8) (mkarguments CmdDisplay "people.json") (mkworld ∅ [])
     = (Ok tt, mkworld ∅ [EvDisplay []]).
Proof. repeat split; vm_compute; reflexivity. Qed.

(** ** The claims about [main] and the files *)

(** C7. [load_people] on a file that is there and decodes to [text]:
    what [json.load] raises on [text] ends [load_people], and [main]
    with it, with that exception; a [text] that is JSON and fails
    [validation] makes [load_people] return [None] after the message,
    and [main] goes on with the empty list (so [display] shows an empty
    list). *)
Theorem load_people_failures (env : environ) (file_name : string) (w : world)
    (data : list byte) (text : string) :
  files w !! path_join (cwd env) file_name = Some data ->
  decode (locale env) data = Ok text ->
  (forall e, json_loads text = Raise e ->
     load_people env file_name w
     = (Raise e, after w [EvRead (path_join (cwd env) file_name)])
     /\ forall cmd,
          is_Some (files w !! path_join (cwd env) (path_join (home env) file_name)) ->
          main env (mkarguments cmd file_name) w
          = (Raise e, after w [EvRead (path_join (cwd env) file_name)]))
  /\ (forall doc, json_loads text = Ok doc -> validation doc = false ->
     load_people env file_name w
     = (Ok None, after w [EvRead (path_join (cwd env) file_name); EvMessage])
     /\ forall cmd,
          is_Some (files w !! path_join (cwd env) (path_join (home env) file_name)) ->
          main env (mkarguments cmd file_name) w
          = command_phase env (mkarguments cmd file_name) []
              (after w [EvRead (path_join (cwd env) file_name); EvMessage])
          /\ main env (mkarguments CmdDisplay file_name) w
             = (Ok tt, after w [EvRead (path_join (cwd env) file_name);
                                EvMessage; EvDisplay []])).
Proof.
  intros Hfile Hdec. split.
  - intros e He.
    assert (Hload : load_people env file_name w
                    = (Raise e, after w [EvRead (path_join (cwd env) file_name)])).
    { rewrite load_people_eq. cbn zeta. now rewrite Hfile, Hdec, He. }
    split; [exact Hload|]. intros cmd [d Hd].
    rewrite main_eq, load_phase_eq. simpl. now rewrite Hd, Hload.
  - intros doc Hdoc Hval.
    assert (Hload : load_people env file_name w
                    = (Ok None, after w [EvRead (path_join (cwd env) file_name);
                                         EvMessage])).
    { rewrite load_people_eq. cbn zeta. now rewrite Hfile, Hdec, Hdoc, Hval. }
    split; [exact Hload|]. intros cmd [d Hd]. split.
    + rewrite main_eq, load_phase_eq. simpl. now rewrite Hd, Hload.
    + rewrite main_eq, load_phase_eq. simpl. rewrite Hd, Hload.
      rewrite command_phase_eq. simpl. unfold after. simpl.
      now rewrite <- app_assoc.
Qed.

(** Witness of C7: the file holds the text of an empty object, which
    is JSON and not an array. *)
Lemma load_people_failures_witness :
  load_people (at_home UTF8) "people.json"
    (mkworld {[ "/home/u/people.json" := utf8_encode "{}" ]} [])
  = (Ok None,
     after (mkworld {[ "/home/u/people.json" := utf8_encode "{}" ]} [])
       [EvRead "/home/u/people.json"; EvMessage]).
Proof.
  refine (proj1 (proj2 (load_people_failures (at_home UTF8) "people.json"
                          (mkworld {[ "/home/u/people.json" := utf8_encode "{}" ]} [])
                          (utf8_encode "{}") "{}" _ _) (JObj []) _ _));
    reflexivity.
Defined.

(** A text that is not JSON: the exception of [json.load] ends the run. *)
Example main_not_json :
  main (at_home UTF8) (mkarguments CmdDisplay "people.json")
    (mkworld {[ "/home/u/people.json" := utf8_encode "[1," ]} [])
  = (Raise JSONDecodeError,
     mkworld {[ "/home/u/people.json" := utf8_encode "[1," ]}
       [EvRead "/home/u/people.json"]).
Proof. reflexivity. Qed.

Lemma existsb_is_write_app evs1 evs2 :
  existsb is_write (evs1 ++ evs2) = existsb is_write evs1 || existsb is_write evs2.
Proof. apply existsb_app. Qed.

(** C8, as the code has it. [main] calls [save_people] exactly when the
    command is [add] and neither the load nor the sort has raised an
    exception: the flag [is_dirty] is set behind the sort. The call is
    then the last step of the run, on the home path and with the sorted
    collection, and nothing was written before it. A run without the
    call leaves every file as it was: that is every [select] and
    [display] run, and an [add] run whose load or sort raised. *)
Theorem main_saves_iff (env : environ) (args : arguments) (w : world) :
  exists evs,
    events (snd (main env args w)) = (events w ++ evs)%list
    /\ (existsb is_write evs = true
        <-> exists surname name zodiac birthday people w1 sorted,
              arg_command args = CmdAdd surname name zodiac birthday
              /\ load_phase env args w = (Ok people, w1)
              /\ sort_people (add_person people surname name zodiac birthday)
                 = Ok sorted)
    /\ (forall surname name zodiac birthday people w1 sorted,
          arg_command args = CmdAdd surname name zodiac birthday ->
          load_phase env args w = (Ok people, w1) ->
          sort_people (add_person people surname name zodiac birthday)
          = Ok sorted ->
          main env args w
          = save_people env (path_join (home env) (filename args)) sorted w1
          /\ exists evs1, w1 = after w evs1 /\ existsb is_write evs1 = false)
    /\ (existsb is_write evs = false -> files (snd (main env args w)) = files w)
    /\ (is_add (arg_command args) = false -> existsb is_write evs = false).
Proof.
  destruct (load_phase_frame env args w) as (evs1 & Hw1 & Hevs1).
  assert (Hcall : forall surname name zodiac birthday people w1 sorted,
            arg_command args = CmdAdd surname name zodiac birthday ->
            load_phase env args w = (Ok people, w1) ->
            sort_people (add_person people surname name zodiac birthday)
            = Ok sorted ->
            main env args w
            = save_people env (path_join (home env) (filename args)) sorted w1
            /\ exists evs1, w1 = after w evs1 /\ existsb is_write evs1 = false).
  { intros s n z b people w1 sorted Hcmd Hload Hsort.
    rewrite main_eq, Hload, command_phase_eq, Hcmd, Hsort.
    split; [reflexivity|]. exists evs1. rewrite Hload in Hw1. now split. }
  assert (Hno : forall evs,
            events (snd (main env args w)) = (events w ++ evs)%list ->
            files (snd (main env args w)) = files w ->
            existsb is_write evs = false ->
            (forall s n z b people w1 sorted,
               arg_command args = CmdAdd s n z b ->
               load_phase env args w = (Ok people, w1) ->
               sort_people (add_person people s n z b) = Ok sorted -> False) ->
            exists evs,
              events (snd (main env args w)) = (events w ++ evs)%list
              /\ (existsb is_write evs = true
                  <-> exists surname name zodiac birthday people w1 sorted,
                        arg_command args = CmdAdd surname name zodiac birthday
                        /\ load_phase env args w = (Ok people, w1)
                        /\ sort_people
                             (add_person people surname name zodiac birthday)
                           = Ok sorted)
              /\ (forall surname name zodiac birthday people w1 sorted,
                    arg_command args = CmdAdd surname name zodiac birthday ->
                    load_phase env args w = (Ok people, w1) ->
                    sort_people (add_person people surname name zodiac birthday)
                    = Ok sorted ->
                    main env args w
                    = save_people env (path_join (home env) (filename args))
                        sorted w1
                    /\ exists evs1,
                         w1 = after w evs1 /\ existsb is_write evs1 = false)
              /\ (existsb is_write evs = false ->
                  files (snd (main env args w)) = files w)
              /\ (is_add (arg_command args) = false ->
                  existsb is_write evs = false)).
  { intros evs Hev Hf Hnw Hcase. exists evs. rewrite Hnw.
    split; [exact Hev|]. split.
    - split; [discriminate|].
      intros (s & n & z & b & people & w1 & sorted & Hc & Hl & Hs).
      destruct (Hcase _ _ _ _ _ _ _ Hc Hl Hs).
    - split; [exact Hcall|]. split; [intros _; exact Hf|reflexivity]. }
  revert Hno Hcall. rewrite main_eq.
  destruct (load_phase env args w) as [[people|e] w1] eqn:Eload;
    simpl in Hw1; subst w1; intros Hno Hcall.
  2:{ apply (Hno evs1); try reflexivity; try assumption.
      intros s n z b people w1 sorted _ H. discriminate. }
  rewrite command_phase_eq in *.
  destruct (arg_command args) as [s n z b| |q] eqn:Ecmd.
  - destruct (sort_people (add_person people s n z b)) as [sorted|e] eqn:Esort.
    + rewrite save_people_eq. cbn [fst snd events files after].
      exists (evs1 ++ [EvWrite (path_join (cwd env)
                                  (path_join (home env) (filename args)))])%list.
      rewrite app_assoc, existsb_is_write_app, Hevs1. cbn [existsb is_write orb].
      split; [reflexivity|]. split.
      * split; [|reflexivity]. intros _.
        now exists s, n, z, b, people, (after w evs1), sorted.
      * split; [|split; discriminate].
        intros s' n' z' b' people' w1' sorted' Hc Hl Hs.
        injection Hc as <- <- <- <-. injection Hl as <- <-.
        rewrite Esort in Hs. injection Hs as <-.
        split; [now rewrite save_people_eq|]. now exists evs1.
    + apply (Hno evs1); try reflexivity; try assumption.
      intros s' n' z' b' people' w1' sorted' Hc Hl Hs.
      injection Hc as <- <- <- <-. injection Hl as <- <-.
      rewrite Esort in Hs. discriminate.
  - apply (Hno (evs1 ++ [EvDisplay people])%list); try reflexivity.
    + cbn [snd events after]. now rewrite app_assoc.
    + now rewrite existsb_is_write_app, Hevs1.
    + intros s n z b people' w1 sorted H. discriminate.
  - destruct (select_people q people) as [selected|e].
    + apply (Hno (evs1 ++ [EvDisplay selected])%list); try reflexivity.
      * cbn [snd events after]. now rewrite app_assoc.
      * now rewrite existsb_is_write_app, Hevs1.
      * intros s n z b people' w1 sorted H. discriminate.
    + apply (Hno evs1); try reflexivity; try assumption.
      intros s n z b people' w1 sorted H. discriminate.
Qed.

(** C8 as stated fails: an [add] whose birthday text is no date ends in
    the sort with [ValueError]; the command was [add], and nothing was
    saved. *)
Lemma main_add_without_save :
  is_add (CmdAdd "Doe" "Jane" (Some "Leo") "15/03/1990") = true
  /\ main (mkenviron "/home/u" "/home/u" UTF8)
       (mkarguments (CmdAdd "Doe" "Jane" (Some "Leo") "15/03/1990") "people.json")
       (mkworld ∅ [])
     = (Raise ValueError, mkworld ∅ []).
Proof. split; reflexivity. Qed.

(** C9: the code at the failing input. The file name is [people.json],
    the home directory [/home/u], the working directory [/tmp]. [main]
    tests whether [/home/u/people.json] exists and then reads
    [/tmp/people.json]: with no such file the run ends with
    [FileNotFoundError]; with one, its records are the ones shown, and
    an [add] writes them, with the new record, over
    [/home/u/people.json]. *)
Theorem main_reads_working_directory :
  main in_tmp (mkarguments CmdDisplay "people.json")
    (mkworld {[ "/home/u/people.json" := file_of [doe] ]} [])
  = (Raise FileNotFoundError,
     mkworld {[ "/home/u/people.json" := file_of [doe] ]} [])
  /\ main in_tmp (mkarguments CmdDisplay "people.json")
       (mkworld (<[ "/tmp/people.json" := file_of [roe] ]>
                   {[ "/home/u/people.json" := file_of [doe] ]}) [])
     = (Ok tt,
        mkworld (<[ "/tmp/people.json" := file_of [roe] ]>
                   {[ "/home/u/people.json" := file_of [doe] ]})
          [EvRead "/tmp/people.json"; EvDisplay [roe]])
  /\ main in_tmp (mkarguments (CmdAdd "Poe" "Ed" (Some "Leo") "19.01.1809") "people.json")
       (mkworld (<[ "/tmp/people.json" := file_of [roe] ]>
                   {[ "/home/u/people.json" := file_of [doe] ]}) [])
     = (Ok tt,
        mkworld (<[ "/home/u/people.json"
                    := file_of [new_person "Poe" "Ed" (Some "Leo") "19.01.1809"; roe] ]>
                 (<[ "/tmp/people.json" := file_of [roe] ]>
                   {[ "/home/u/people.json" := file_of [doe] ]}))
          [EvRead "/tmp/people.json"; EvWrite "/home/u/people.json"]).
Proof. repeat split; vm_compute; reflexivity. Qed.

(** For a record with birthday tokens, the key of the sort is the
    calendar date of the birthday. *)
Lemma birthday_key_date p d :
  well_dated p -> birthday_key p = Ok d -> birthday_date p = Some d.
Proof.
  intros (toks & d' & Ht & Hd) Hk.
  rewrite (birthday_key_tokens _ _ Ht), Hd in Hk. injection Hk as <-.
  unfold birthday_date. now rewrite Ht.
Qed.

(** C1. When the birthday tokens of every record of the collection,
    joined with ["."], parse as a day.month.year date, and so does the
    birthday text of the new record, [add_person] followed by the sort
    of [main] ends with a list: the same records rearranged, in which
    the calendar date of every record's birthday (the date its tokens
    parse to) is on or before the calendar date of the birthday of the
    record after it. That list is what [main] saves. *)
Theorem add_then_sort_ordered (people : list json) (surname name : string)
    (zodiac : option string) (birthday : string) :
  Forall well_dated people ->
  (exists d, strptime_dmY birthday = Some d) ->
  exists sorted,
    sort_people (add_person people surname name zodiac birthday) = Ok sorted
    /\ Permutation sorted (add_person people surname name zodiac birthday)
    /\ (forall i p1 p2,
          sorted !! i = Some p1 -> sorted !! S i = Some p2 ->
          exists d1 d2,
            birthday_date p1 = Some d1 /\ birthday_date p2 = Some d2
            /\ datetime_le d1 d2)
    /\ (forall env file_name w w1,
          load_phase env
            (mkarguments (CmdAdd surname name zodiac birthday) file_name) w
          = (Ok people, w1) ->
          main env (mkarguments (CmdAdd surname name zodiac birthday) file_name) w
          = save_people env (path_join (home env) file_name) sorted w1).
Proof.
  intros Hpeople [d Hd].
  assert (Hwell : Forall well_dated
                    (add_person people surname name zodiac birthday)).
  { unfold add_person. apply Forall_app. split; [exact Hpeople|].
    constructor; [|constructor].
    exists (split "." birthday), d. split.
    - apply birthday_tokens_new_person.
    - now rewrite join_split. }
  assert (Hall : Forall (fun x => exists k, birthday_key x = Ok k)
                   (add_person people surname name zodiac birthday)).
  { eapply Forall_impl; [exact Hwell|]. apply birthday_key_well_dated. }
  destruct (list_sort_ok birthday_key datetime_ltb datetime_ltb_asym _ Hall)
    as (sorted & Hsort & Hperm & Hadj).
  assert (Hsorted : Forall well_dated sorted).
  { eapply Permutation_Forall; [symmetry; exact Hperm|exact Hwell]. }
  rewrite Forall_forall in Hsorted.
  exists sorted. split; [exact Hsort|]. split; [exact Hperm|]. split.
  - intros i p1 p2 H1 H2.
    destruct (Hadj i p1 p2 H1 H2) as (d1 & d2 & Hd1 & Hd2 & Hlt).
    exists d1, d2.
    split; [apply birthday_key_date; [|exact Hd1]|
            split; [apply birthday_key_date; [|exact Hd2]|]].
    + apply Hsorted. eapply list_elem_of_lookup_2; exact H1.
    + apply Hsorted. eapply list_elem_of_lookup_2; exact H2.
    + now apply datetime_ltb_false.
  - intros env file_name w w1 Hload.
    rewrite main_eq, Hload, command_phase_eq. cbn [arg_command filename].
    unfold sort_people in Hsort. unfold sort_people. now rewrite Hsort.
Qed.

(** Witness of C1: the scenario of the specification, Roe (1980) added
    to a collection that holds Doe (1990). *)
Lemma add_then_sort_ordered_witness :
  exists sorted,
    sort_people (add_person [doe] "Roe" "Rick" (Some EmptyString) "01.01.1980")
    = Ok sorted
    /\ Permutation sorted
         (add_person [doe] "Roe" "Rick" (Some EmptyString) "01.01.1980")
    /\ (forall i p1 p2,
          sorted !! i = Some p1 -> sorted !! S i = Some p2 ->
          exists d1 d2,
            birthday_date p1 = Some d1 /\ birthday_date p2 = Some d2
            /\ datetime_le d1 d2)
    /\ (forall env file_name w w1,
          load_phase env
            (mkarguments (CmdAdd "Roe" "Rick" (Some EmptyString) "01.01.1980")
               file_name) w
          = (Ok [doe], w1) ->
          main env
            (mkarguments (CmdAdd "Roe" "Rick" (Some EmptyString) "01.01.1980")
               file_name) w
          = save_people env (path_join (home env) file_name) sorted w1).
Proof.
  apply add_then_sort_ordered.
  - constructor; [|constructor].
    exists ["15"; "03"; "1990"], (mkdatetime 1990 3 15). split; reflexivity.
  - exists (mkdatetime 1980 1 1). reflexivity.
Defined.

(** C6. When some record's birthday tokens, joined with ["."], do not
    parse as a day.month.year date, the sort ends with the [ValueError]
    of [strptime] (the MalformedDateError of the specification) and
    gives no list. In [main] it ends the run: an [add] whose collection
    has such a record, or whose own birthday text is no date, raises
    [ValueError] and writes no file. A birthday text that does not split
    into three tokens is never a date. *)
Theorem sort_people_malformed_date (people : list json) :
  Forall (fun p => is_Some (birthday_tokens p)) people ->
  Exists ill_dated people ->
  sort_people people = Raise ValueError
  /\ (forall env file_name w w1 people0 surname name zodiac birthday,
        load_phase env (mkarguments (CmdAdd surname name zodiac birthday) file_name) w
        = (Ok people0, w1) ->
        add_person people0 surname name zodiac birthday = people ->
        main env (mkarguments (CmdAdd surname name zodiac birthday) file_name) w
        = (Raise ValueError, w1)
        /\ files w1 = files w)
  /\ (forall birthday,
        length (split "." birthday) <> 3%nat -> strptime_dmY birthday = None).
Proof.
  intros Htok Hill.
  assert (Hsort : sort_people people = Raise ValueError).
  { apply list_sort_raise.
    - eapply Forall_impl; [exact Htok|]. intros p [toks Ht]. cbn beta.
      rewrite (birthday_key_tokens _ _ Ht).
      destruct (strptime_dmY (join "." toks)); [left; now eexists|now right].
    - eapply Exists_impl; [exact Hill|]. apply birthday_key_ill_dated. }
  split; [exact Hsort|]. split; [|apply strptime_three_tokens].
  intros env file_name w w1 people0 s n z b Hload Hadd.
  rewrite main_eq, Hload, command_phase_eq. cbn [arg_command].
  rewrite Hadd, Hsort. split; [reflexivity|].
  destruct (load_phase_frame env (mkarguments (CmdAdd s n z b) file_name) w)
    as (evs & Hw & _).
  rewrite Hload in Hw. simpl in Hw. now subst w1.
Qed.

(** Witness of C6: a month 13 added to a collection that holds Doe. *)
Lemma sort_people_malformed_date_witness :
  sort_people (add_person [doe] "Roe" "Rick" None "01.13.1980") = Raise ValueError.
Proof.
  refine (proj1 (sort_people_malformed_date
                   (add_person [doe] "Roe" "Rick" None "01.13.1980") _ _)).
  - repeat constructor; eexists; reflexivity.
  - right. left. exists ["01"; "13"; "1980"]. split; reflexivity.
Defined.

(** C3: the code at the failing input. [save_people] writes UTF-8 and
    [load_people] decodes with the encoding of the locale. Under a
    Latin-1 locale the valid collection with the one surname of code
    point 233 (e acute) is saved and loaded back with a surname of two
    characters, the code points 195 and 169: the collection read is not
    the collection saved. *)
Theorem save_then_load_latin1 :
  validation (JArr [new_person (String "233" EmptyString) "Jane" (Some "Leo")
                      "15.03.1990"]) = true
  /\ fst (load_people (at_home Latin1) "people.json"
            (snd (save_people (at_home Latin1) "people.json"
                    [new_person (String "233" EmptyString) "Jane" (Some "Leo")
                       "15.03.1990"]
                    (mkworld ∅ []))))
     = Ok (Some [new_person (String "195" (String "169" EmptyString)) "Jane"
                   (Some "Leo") "15.03.1990"])
  /\ fst (load_people (at_home Latin1) "people.json"
            (snd (save_people (at_home Latin1) "people.json"
                    [new_person (String "233" EmptyString) "Jane" (Some "Leo")
                       "15.03.1990"]
                    (mkworld ∅ []))))
     <> Ok (Some [new_person (String "233" EmptyString) "Jane" (Some "Leo")
                    "15.03.1990"]).
Proof.
  split; [reflexivity|].
  assert (H : fst (load_people (at_home Latin1) "people.json"
                     (snd (save_people (at_home Latin1) "people.json"
                             [new_person (String "233" EmptyString) "Jane"
                                (Some "Leo") "15.03.1990"]
                             (mkworld ∅ []))))
              = Ok (Some [new_person (String "195" (String "169" EmptyString))
                            "Jane" (Some "Leo") "15.03.1990"])).
  { vm_compute. reflexivity. }
  split; [exact H|]. rewrite H. discriminate.
Qed.

(** ** A record without a zodiac *)

Lemma validation_null_zodiac people e :
  In e people -> null_zodiac e -> validation (JArr people) = false.
Proof.
  intros Hin (members & -> & Hz).
  apply not_true_is_false. intros Hval.
  apply validation_spec in Hval.
  destruct Hval as (elems & Helems & Hall). injection Helems as <-.
  rewrite Forall_forall in Hall. apply list_elem_of_In in Hin.
  destruct (Hall _ Hin) as (m & Hm & _ & _ & _ & Hzod).
  injection Hm as <-. destruct (Hzod JNull Hz) as [s Hs]. discriminate.
Qed.

Lemma dict_get_mojibake key (members : list (string * json)) :
  mojibake key = key ->
  dict_get key (map (fun kv => (mojibake (fst kv), json_map mojibake (snd kv))) members)
  = option_map (json_map mojibake) (dict_get key members).
Proof.
  intros Hkey. induction members as [|[k v] members IH]; [reflexivity|].
  cbn [map dict_get fst snd].
  destruct (String.eqb_spec k key) as [->|Hne].
  - now rewrite Hkey, String.eqb_refl.
  - destruct (String.eqb_spec (mojibake k) key) as [Heq|_]; [|exact IH].
    rewrite <- Hkey in Heq. apply mojibake_inj in Heq. congruence.
Qed.

Lemma null_zodiac_reread enc people e :
  In e people -> null_zodiac e ->
  exists e', In e' (reread enc people) /\ null_zodiac e'.
Proof.
  intros Hin Hnull. destruct enc; cbn [reread]; [now exists e|].
  exists (json_map mojibake e). split; [now apply in_map|].
  destruct Hnull as (members & -> & Hz). cbn [json_map]. eexists.
  split; [reflexivity|]. rewrite dict_get_mojibake by reflexivity.
  now rewrite Hz.
Qed.

(** C10. Every record [add_person] makes has a [zodiac] key; when no
    zodiac is given, [None] is under it. A collection that holds such a
    record fails [validation]; so does the collection [add_person]
    returns. Saved by [save_people] and loaded again, such a collection
    is answered with [None], the sign of a document that is not valid,
    whatever the encoding of the locale. *)
Theorem add_person_without_zodiac (people : list json)
    (surname name birthday : string) :
  (forall zodiac, exists members,
     new_person surname name zodiac birthday = JObj members
     /\ dict_has "zodiac" members = true
     /\ dict_get "zodiac" members = Some (zodiac_value zodiac))
  /\ zodiac_value None = JNull
  /\ validation (JArr (add_person people surname name None birthday)) = false
  /\ forall collection,
       In (new_person surname name None birthday) collection ->
       validation (JArr collection) = false
       /\ forall env file_name w,
            Forall wf_json collection ->
            fst (load_people env file_name
                   (snd (save_people env file_name collection w)))
            = Ok None.
Proof.
  assert (Hnull : null_zodiac (new_person surname name None birthday)).
  { eexists. split; reflexivity. }
  split; [intros zodiac; eexists; repeat split; reflexivity|].
  split; [reflexivity|]. split.
  - apply (validation_null_zodiac _ (new_person surname name None birthday));
      [|exact Hnull].
    unfold add_person. apply in_or_app. right. now left.
  - intros collection Hin. split; [exact (validation_null_zodiac _ _ Hin Hnull)|].
    intros env file_name w Hwf. rewrite load_people_after_save by assumption.
    destruct (null_zodiac_reread (locale env) _ _ Hin Hnull) as (e' & Hin' & Hnull').
    now rewrite (validation_null_zodiac _ _ Hin' Hnull').
Qed.

(** * Further properties of the record operations *)

Lemma select_people_app surname (a b : list json) :
  select_people surname (a ++ b)
  = rbind (select_people surname a) (fun ra =>
    rbind (select_people surname b) (fun rb => Ok (ra ++ rb)%list)).
Proof.
  induction a as [|i a IH]; simpl.
  - now destruct (select_people surname b).
  - destruct (get_surname i) as [v|e]; simpl; [|reflexivity].
    rewrite IH. destruct (select_people surname a) as [ra|e]; simpl; [|reflexivity].
    destruct (select_people surname b) as [rb|e]; simpl; [|reflexivity].
    now destruct (eq_str v surname).
Qed.

(** X1. [select_people] fails exactly when the list holds an item that
    is not a dict, and then with [AttributeError]. On a list of dicts it
    returns, in order, the records whose surname is the query, where a
    record without a [surname] key counts as having the empty surname:
    such a record is selected by the empty query and by no other. *)
Theorem select_people_total (surname : string) (people : list json) :
  select_people surname people
  = (if forallb is_dict people
     then Ok (List.filter (fun i => eq_str (surname_or_empty i) surname) people)
     else Raise AttributeError)
  /\ (forall d, dict_get "surname" d = None ->
        select_people surname [JObj d]
        = Ok (if String.eqb surname EmptyString then [JObj d] else [])).
Proof.
  split.
  - induction people as [|i people IH]; [reflexivity|].
    simpl. rewrite IH.
    destruct i as [| b | z | s | items | d]; try reflexivity.
    simpl. destruct (dict_get "surname" d) as [v|]; simpl;
      now destruct (forallb is_dict people).
  - intros d Hd. simpl. rewrite Hd. simpl.
    destruct surname as [|c s]; reflexivity.
Qed.

(** X2. A record just added is found under its surname, after the
    records that were found before; a query for another surname finds
    what it found before. *)
Theorem select_people_add_person (people : list json)
    (surname name : string) (zodiac : option string) (birthday other : string) :
  select_people surname (add_person people surname name zodiac birthday)
  = rbind (select_people surname people)
      (fun found => Ok (found ++ [new_person surname name zodiac birthday])%list)
  /\ (other <> surname ->
      select_people other (add_person people surname name zodiac birthday)
      = select_people other people).
Proof.
  unfold add_person. split.
  - rewrite select_people_app.
    destruct (select_people surname people) as [found|e]; [|reflexivity].
    simpl. now rewrite String.eqb_refl.
  - intros Hne. rewrite select_people_app.
    destruct (select_people other people) as [found|e]; [|reflexivity].
    simpl. apply String.eqb_neq in Hne. rewrite String.eqb_sym in Hne.
    rewrite Hne. simpl. now rewrite app_nil_r.
Qed.

Lemma forallb_map_JStr (toks : list string) :
  forallb (fun x => is_type TString x && true) (map JStr toks) = true.
Proof. induction toks as [|t toks IH]; [reflexivity|exact IH]. Qed.

Lemma person_ok_new_person surname name zodiac birthday :
  person_ok (new_person surname name (Some zodiac) birthday) = true.
Proof.
  unfold person_ok, new_person, person_item_schema.
  cbn [jsonschema_valid is_type zodiac_value]. unfold dict_has.
  cbn [dict_get String.eqb Ascii.eqb Bool.eqb is_type andb].
  now rewrite forallb_map_JStr.
Qed.

Lemma person_ok_bare_person surname name toks :
  person_ok (bare_person surname name toks) = true.
Proof.
  unfold person_ok, bare_person, person_item_schema.
  cbn [jsonschema_valid is_type]. unfold dict_has.
  cbn [dict_get String.eqb Ascii.eqb Bool.eqb is_type andb].
  now rewrite forallb_map_JStr.
Qed.

Lemma forallb_Permutation {A} (f : A -> bool) (a b : list A) :
  Permutation a b -> forallb f a = forallb f b.
Proof.
  induction 1 as [|x a b _ IH|x y a|a b c _ IH1 _ IH2]; simpl.
  - reflexivity.
  - now rewrite IH.
  - now destruct (f x), (f y).
  - now rewrite IH1.
Qed.

Lemma validation_Permutation (a b : list json) :
  Permutation a b -> validation (JArr a) = validation (JArr b).
Proof. intros H. rewrite !validation_array. now apply forallb_Permutation. Qed.

(** X3. Adding a record with a zodiac neither makes a collection valid
    nor invalid: with the new record it passes [validation] exactly when
    it passed without it. *)
Theorem validation_add_person (people : list json)
    (surname name zodiac birthday : string) :
  validation (JArr (add_person people surname name (Some zodiac) birthday))
  = validation (JArr people).
Proof.
  unfold add_person. rewrite !validation_array, forallb_app. simpl.
  now rewrite person_ok_new_person, !andb_true_r.
Qed.

Lemma count_char_join_free (toks : list string) :
  Forall (fun tok => occurs "." tok = false) toks ->
  count_char "." (join "." toks) = Nat.pred (length toks).
Proof.
  induction 1 as [|t toks Ht Hall IH]; [reflexivity|].
  destruct toks as [|u toks].
  - simpl. now apply count_char_free.
  - rewrite join_cons, !count_char_append, IH, (count_char_free _ _ Ht). reflexivity.
Qed.

(** X4. The schema puts no bound on the number of parts of a birthday
    (its [minitems] is no keyword): a record with the three required
    fields passes [validation] whatever the list of strings under
    [birthday], so it never makes a collection invalid. When that list
    does not have three parts, none of them with a dot in it, the key of
    the sort raises [ValueError] on the record, and so does the sort of
    a collection that starts with it. *)
Theorem validation_ignores_birthday_length (surname name : string)
    (toks : list string) (people : list json) :
  Forall (fun tok => occurs "." tok = false) toks ->
  length toks <> 3%nat ->
  validation (JArr (bare_person surname name toks :: people))
  = validation (JArr people)
  /\ birthday_key (bare_person surname name toks) = Raise ValueError
  /\ sort_people (bare_person surname name toks :: people) = Raise ValueError.
Proof.
  intros Hfree Hlen.
  assert (Hkey : birthday_key (bare_person surname name toks) = Raise ValueError).
  { unfold bare_person, birthday_key.
    cbn [dict_get String.eqb Ascii.eqb Bool.eqb iter_strings].
    rewrite strings_of_items_map.
    destruct (strptime_dmY (join "." toks)) as [d|] eqn:E; [|reflexivity].
    apply strptime_two_dots in E. rewrite count_char_join_free in E by assumption.
    destruct toks as [|? [|? [|? [|? ?]]]]; simpl in *; try discriminate; lia. }
  split; [|split].
  - rewrite !validation_array. simpl. now rewrite person_ok_bare_person.
  - exact Hkey.
  - unfold sort_people, list_sort. cbn [decorate]. now rewrite Hkey.
Qed.

Lemma validation_ignores_birthday_length_witness :
  validation (JArr (bare_person "Doe" "Jane" ["1990"] :: [roe]))
  = validation (JArr [roe])
  /\ birthday_key (bare_person "Doe" "Jane" ["1990"]) = Raise ValueError
  /\ sort_people (bare_person "Doe" "Jane" ["1990"] :: [roe]) = Raise ValueError.
Proof.
  apply validation_ignores_birthday_length.
  - repeat constructor.
  - simpl. lia.
Defined.

Lemma birthday_key_added (surname name : string) (zodiac : option string)
    (birthday : string) :
  birthday_key (new_person surname name zodiac birthday)
  = match strptime_dmY birthday with
    | Some date => Ok date
    | None => Raise ValueError
    end.
Proof.
  rewrite (birthday_key_tokens _ _ (birthday_tokens_new_person _ _ _ _)).
  now rewrite join_split.
Qed.

(** X5. The date a new record is sorted by is the date the birthday
    text of the command line parses to: splitting it at the dots for the
    record and joining the parts again for the key gives the text back.
    When that text is no date, the key raises [ValueError]. *)
Theorem birthday_key_new_person (surname name : string) (zodiac : option string)
    (birthday : string) :
  birthday_key (new_person surname name zodiac birthday)
  = match strptime_dmY birthday with
    | Some date => Ok date
    | None => Raise ValueError
    end.
Proof.
  unfold birthday_key, new_person.
  cbn [dict_get String.eqb Ascii.eqb Bool.eqb iter_strings].
  now rewrite strings_of_items_map, join_split.
Qed.

(** * Further properties of the sort *)

Section ListSortOrder.
Context {A K : Type} (key : A -> result K) (ltb : K -> K -> bool).
Hypothesis ltb_asym : forall a b, ltb a b = true -> ltb b a = false.
Hypothesis ltb_neg_trans :
  forall a b c, ltb b a = false -> ltb c b = false -> ltb c a = false.

Local Abbreviation may_precede := (not_after ltb).
Local Abbreviation keyed := (fun kx : K * A => key (snd kx) = Ok (fst kx)).

Lemma decorate_inv (l : list A) : forall kl,
  decorate key l = Ok kl -> map snd kl = l /\ Forall keyed kl.
Proof.
  induction l as [|x l IH]; simpl; intros kl H.
  - injection H as <-. split; [reflexivity|constructor].
  - destruct (key x) as [k|e] eqn:Ek; [|discriminate]. simpl in H.
    destruct (decorate key l) as [kl'|e]; [|discriminate]. simpl in H.
    injection H as <-. destruct (IH kl' eq_refl) as [Hmap Hall].
    simpl. split; [now rewrite Hmap|]. constructor; assumption.
Qed.

Lemma decorate_keyed (kl : list (K * A)) :
  Forall keyed kl -> decorate key (map snd kl) = Ok kl.
Proof.
  induction 1 as [|[k x] kl Hk _ IH]; simpl; [reflexivity|].
  simpl in Hk. now rewrite Hk, IH.
Qed.

Lemma keyed_eq (l1 : list (K * A)) : forall l2,
  Forall keyed l1 -> Forall keyed l2 -> map snd l1 = map snd l2 -> l1 = l2.
Proof.
  induction l1 as [|[k1 x1] l1 IH]; intros [|[k2 x2] l2] H1 H2 Hmap;
    try discriminate; [reflexivity|].
  inversion H1 as [|? ? Hk1 Hl1]; inversion H2 as [|? ? Hk2 Hl2]; subst.
  simpl in *. injection Hmap as -> Hmap.
  rewrite Hk1 in Hk2. injection Hk2 as ->.
  f_equal. now apply IH.
Qed.

Lemma filter_map_keyed (test : K -> bool) (kl : list (K * A)) :
  Forall keyed kl ->
  List.filter (key_test key test) (map snd kl)
  = map snd (List.filter (fun kx => test (fst kx)) kl).
Proof.
  induction 1 as [|[k x] kl Hk _ IH]; simpl; [reflexivity|].
  unfold key_test at 1. simpl in Hk. rewrite Hk, IH.
  now destruct (test k).
Qed.

Lemma stable_sort_keyed (kl : list (K * A)) :
  Forall keyed kl -> Forall keyed (stable_sort ltb kl).
Proof.
  intros H. eapply Permutation_Forall; [|exact H].
  symmetry. apply stable_sort_perm.
Qed.

(** An item goes past the items with a smaller key only, so never past
    one with its own key. *)
Lemma filter_insert_sorted (test : K -> bool) (x : K * A) (l : list (K * A)) :
  (forall k, test k = true -> test (fst x) = true -> ltb k (fst x) = false) ->
  List.filter (fun y => test (fst y)) (insert_sorted ltb x l)
  = List.filter (fun y => test (fst y)) (x :: l).
Proof.
  intros Hsame. induction l as [|y l IH]; [reflexivity|].
  simpl. destruct (ltb (fst y) (fst x)) eqn:E; [|reflexivity].
  simpl. rewrite IH. simpl.
  destruct (test (fst y)) eqn:Ey; [|reflexivity].
  destruct (test (fst x)) eqn:Ex; [|reflexivity].
  rewrite (Hsame _ Ey eq_refl) in E. discriminate.
Qed.

Lemma filter_stable_sort (test : K -> bool) (l : list (K * A)) :
  (forall a b, test a = true -> test b = true -> ltb a b = false) ->
  List.filter (fun y => test (fst y)) (stable_sort ltb l)
  = List.filter (fun y => test (fst y)) l.
Proof.
  intros Hsame. induction l as [|x l IH]; [reflexivity|].
  simpl stable_sort. rewrite filter_insert_sorted by (intros; now apply Hsame).
  simpl. now rewrite IH.
Qed.

Lemma list_sort_filter (test : K -> bool) (l sorted : list A) :
  (forall a b, test a = true -> test b = true -> ltb a b = false) ->
  list_sort key ltb l = Ok sorted ->
  List.filter (key_test key test) sorted = List.filter (key_test key test) l.
Proof.
  intros Hsame. unfold list_sort.
  destruct (decorate key l) as [kl|e] eqn:E; [|discriminate].
  simpl. intros H. injection H as <-.
  destruct (decorate_inv _ _ E) as [Hmap Hall].
  rewrite filter_map_keyed by now apply stable_sort_keyed.
  rewrite filter_stable_sort by assumption.
  now rewrite <- filter_map_keyed, Hmap.
Qed.

Lemma stable_sort_Sorted_id (l : list (K * A)) :
  Sorted may_precede l -> stable_sort ltb l = l.
Proof.
  induction 1 as [|x l _ IH Hhd]; [reflexivity|].
  simpl. rewrite IH. destruct Hhd as [|y l Hxy]; [reflexivity|].
  simpl. unfold not_after in Hxy. now rewrite Hxy.
Qed.

Lemma list_sort_again (l sorted : list A) :
  list_sort key ltb l = Ok sorted -> list_sort key ltb sorted = Ok sorted.
Proof.
  unfold list_sort.
  destruct (decorate key l) as [kl|e] eqn:E; [|discriminate].
  simpl. intros H. injection H as <-.
  destruct (decorate_inv _ _ E) as [_ Hall].
  rewrite decorate_keyed by now apply stable_sort_keyed.
  simpl. now rewrite stable_sort_Sorted_id by now apply stable_sort_Sorted.
Qed.

Lemma decorate_app (l1 l2 : list A) :
  decorate key (l1 ++ l2)
  = rbind (decorate key l1) (fun k1 =>
    rbind (decorate key l2) (fun k2 => Ok (k1 ++ k2)%list)).
Proof.
  induction l1 as [|x l1 IH]; simpl.
  - now destruct (decorate key l2).
  - destruct (key x) as [k|e]; [|reflexivity]. simpl. rewrite IH.
    destruct (decorate key l1) as [k1|e]; [|reflexivity]. simpl.
    now destruct (decorate key l2).
Qed.

Lemma Sorted_all_after (x : K * A) (l : list (K * A)) :
  Sorted may_precede (x :: l) -> Forall (may_precede x) l.
Proof.
  intros H. apply Sorted_StronglySorted in H.
  - now inversion H.
  - intros a b c Hab Hbc. unfold not_after in *. eapply ltb_neg_trans; eassumption.
Qed.

(** The last item of a list that is sorted up to it goes behind the
    items whose key is not greater than its own. *)
Lemma stable_sort_snoc (x : K * A) (l : list (K * A)) :
  Sorted may_precede l ->
  stable_sort ltb (l ++ [x])
  = (List.filter (fun y => negb (ltb (fst x) (fst y))) l
     ++ x :: List.filter (fun y => ltb (fst x) (fst y)) l)%list.
Proof.
  induction l as [|y l IH]; intros Hs; [reflexivity|].
  assert (Hl : Sorted may_precede l) by now inversion Hs.
  pose proof (Sorted_all_after _ _ Hs) as Hall.
  simpl. rewrite (IH Hl).
  destruct (ltb (fst x) (fst y)) eqn:Exy; simpl.
  - assert (Hgt : Forall (fun z => ltb (fst x) (fst z) = true) l).
    { eapply Forall_impl; [exact Hall|]. intros z Hz. unfold not_after in Hz.
      destruct (ltb (fst x) (fst z)) eqn:Exz; [reflexivity|].
      rewrite (ltb_neg_trans _ _ _ Hz Exz) in Exy. discriminate. }
    assert (Hf1 : List.filter (fun z => negb (ltb (fst x) (fst z))) l = []).
    { clear -Hgt. induction Hgt as [|z l Hz _ IHl]; [reflexivity|].
      simpl. now rewrite Hz. }
    assert (Hf2 : List.filter (fun z => ltb (fst x) (fst z)) l = l).
    { clear -Hgt. induction Hgt as [|z l Hz _ IHl]; [reflexivity|].
      simpl. now rewrite Hz, IHl. }
    rewrite Hf1, Hf2. simpl. rewrite Exy.
    f_equal. destruct l as [|z l]; [reflexivity|].
    simpl. inversion Hall as [|? ? Hz _]; subst. unfold not_after in Hz.
    now rewrite Hz.
  - destruct (List.filter (fun z => negb (ltb (fst x) (fst z))) l) as [|z f] eqn:Ef.
    + simpl. now rewrite Exy.
    + simpl.
      assert (Hin : In z (List.filter (fun z => negb (ltb (fst x) (fst z))) l))
        by (rewrite Ef; now left).
      apply List.filter_In in Hin as [Hin _].
      rewrite Forall_forall in Hall. apply list_elem_of_In in Hin.
      specialize (Hall z Hin). unfold not_after in Hall. now rewrite Hall.
Qed.

Lemma list_sort_snoc (l : list A) (x : A) (k : K) :
  list_sort key ltb l = Ok l ->
  key x = Ok k ->
  list_sort key ltb (l ++ [x])
  = Ok (List.filter (fun y => negb (key_test key (ltb k) y)) l
        ++ x :: List.filter (key_test key (ltb k)) l)%list.
Proof.
  unfold list_sort. intros Hl Hx.
  destruct (decorate key l) as [kl|e] eqn:E; [|discriminate].
  simpl in Hl. injection Hl as Hl.
  destruct (decorate_inv _ _ E) as [Hmap Hall].
  assert (Hid : stable_sort ltb kl = kl).
  { apply keyed_eq; [now apply stable_sort_keyed|assumption|congruence]. }
  assert (Hs : Sorted may_precede kl).
  { rewrite <- Hid. now apply stable_sort_Sorted. }
  rewrite decorate_app, E. simpl. rewrite Hx. simpl.
  rewrite (stable_sort_snoc (k, x) kl Hs). simpl.
  rewrite map_app. simpl.
  rewrite <- (filter_map_keyed (ltb k) kl Hall), Hmap.
  f_equal. f_equal.
  rewrite <- Hmap. clear -Hall.
  induction Hall as [|[k' y] kl Hk _ IH]; [reflexivity|].
  simpl. unfold key_test at 1. simpl in Hk. rewrite Hk.
  destruct (ltb k k'); simpl; now rewrite IH.
Qed.

End ListSortOrder.

Lemma datetime_ltb_neg_trans a b c :
  datetime_ltb b a = false -> datetime_ltb c b = false -> datetime_ltb c a = false.
Proof. rewrite !datetime_ltb_false. unfold datetime_le. lia. Qed.

Lemma datetime_eqb_ltb d a b :
  datetime_eqb a d = true -> datetime_eqb b d = true -> datetime_ltb a b = false.
Proof.
  unfold datetime_eqb. rewrite !andb_true_iff, !Z.eqb_eq.
  intros [[Hy Hm] Hd] [[Hy' Hm'] Hd'].
  apply datetime_ltb_false. unfold datetime_le. lia.
Qed.

(** X6. The sort is stable: the records born on one and the same
    date stand in the sorted collection in the order they had before. *)
Theorem sort_people_stable (people sorted : list json) (date : datetime) :
  sort_people people = Ok sorted ->
  List.filter (born_on date) sorted = List.filter (born_on date) people.
Proof.
  intros H. unfold born_on.
  apply (list_sort_filter birthday_key datetime_ltb
           (fun k => datetime_eqb k date) people sorted); [|exact H].
  intros a b. apply datetime_eqb_ltb.
Qed.

Lemma sort_people_stable_witness :
  List.filter (born_on (mkdatetime 1990 3 15))
    [ new_person "Roe" "Rick" None "01.01.1980";
      new_person "Doe" "Jane" None "15.03.1990";
      new_person "Poe" "Ed" None "15.3.1990" ]
  = List.filter (born_on (mkdatetime 1990 3 15))
      [ new_person "Doe" "Jane" None "15.03.1990";
        new_person "Roe" "Rick" None "01.01.1980";
        new_person "Poe" "Ed" None "15.3.1990" ].
Proof.
  apply (sort_people_stable
           [ new_person "Doe" "Jane" None "15.03.1990";
             new_person "Roe" "Rick" None "01.01.1980";
             new_person "Poe" "Ed" None "15.3.1990" ]).
  reflexivity.
Defined.

(** X7. Sorting a second time changes nothing: on what the sort
    returned, the sort ends with that very list. *)
Theorem sort_people_again (people sorted : list json) :
  sort_people people = Ok sorted -> sort_people sorted = Ok sorted.
Proof.
  apply (list_sort_again birthday_key datetime_ltb).
  exact datetime_ltb_asym.
Qed.

Lemma sort_people_again_witness : sort_people [roe; doe] = Ok [roe; doe].
Proof. apply (sort_people_again [doe; roe]). reflexivity. Defined.

(** X8. Where the collection is in the order of the birthdays (the
    sort leaves it as it is), adding a record with a well-formed
    birthday puts it behind the records born on that day or before and
    in front of those born later; the records that were there keep
    their order. *)
Theorem add_person_in_place (people : list json) (surname name : string)
    (zodiac : option string) (birthday : string) (date : datetime) :
  sort_people people = Ok people ->
  strptime_dmY birthday = Some date ->
  sort_people (add_person people surname name zodiac birthday)
  = Ok (List.filter (fun p => negb (born_after date p)) people
        ++ new_person surname name zodiac birthday
           :: List.filter (born_after date) people)%list.
Proof.
  intros Hsorted Hdate. unfold add_person, born_after.
  apply (list_sort_snoc birthday_key datetime_ltb).
  - exact datetime_ltb_asym.
  - exact datetime_ltb_neg_trans.
  - exact Hsorted.
  - now rewrite birthday_key_added, Hdate.
Qed.

Lemma add_person_in_place_witness :
  sort_people (add_person [roe; doe] "Poe" "Ed" None "01.01.1980")
  = Ok [roe; new_person "Poe" "Ed" None "01.01.1980"; doe].
Proof.
  apply (add_person_in_place [roe; doe] "Poe" "Ed" None "01.01.1980"
           (mkdatetime 1980 1 1)); reflexivity.
Defined.

(** * Further properties of the dates *)

Lemma matches_width r : forall m,
  matches r m -> (min_width r <= String.length m <= max_width r)%nat.
Proof.
  induction r as [c|lo hi|r1 IH1 r2 IH2|r1 IH1 r2 IH2]; intros m;
    cbn [matches min_width max_width].
  - intros ->. simpl. lia.
  - intros (c & -> & _). simpl. lia.
  - intros (m1 & m2 & -> & H1 & H2). rewrite length_append.
    specialize (IH1 _ H1). specialize (IH2 _ H2). lia.
  - intros [H|H]; [specialize (IH1 _ H)|specialize (IH2 _ H)]; lia.
Qed.

(** X9. A text [strptime] accepts for ["%d.%m.%Y"] has 8 to 10
    characters, two of them dots, and the date returned for it is a day
    that exists: a year from 1 to 9999, a month from 1 to 12 and a day
    the month has in that year. *)
Theorem strptime_dmY_shape (text : string) (date : datetime) :
  strptime_dmY text = Some date ->
  (8 <= String.length text <= 10)%nat
  /\ count_char "." text = 2%nat
  /\ valid_date (year date) (month date) (day date) = true.
Proof.
  intros H. split; [|split; [exact (strptime_two_dots _ _ H)|]];
    revert H; unfold strptime_dmY;
    destruct (rmatch re_d text _) as [[[[dd mm] yy] rest]|] eqn:E; try discriminate;
    destruct rest as [|? ?]; try discriminate.
  - intros _.
    destruct (rmatch_inv _ _ _ _ E) as (m1 & s1 & -> & E1 & F1).
    destruct (rmatch_inv _ _ _ _ E1) as (m2 & s2 & -> & E2 & F2).
    destruct (rmatch_inv _ _ _ _ E2) as (m3 & s3 & -> & E3 & F3).
    destruct (rmatch_inv _ _ _ _ E3) as (m4 & s4 & -> & E4 & F4).
    destruct (rmatch_inv _ _ _ _ E4) as (m5 & s5 & -> & E5 & F5).
    injection E5 as _ _ _ ->.
    apply matches_width in F1, F2, F3, F4, F5.
    rewrite !length_append. simpl in *. lia.
  - cbv zeta. destruct (valid_date _ _ _) eqn:Ev; [|discriminate].
    intros H. injection H as <-. exact Ev.
Qed.

Lemma strptime_dmY_shape_witness :
  (8 <= String.length "15.03.1990" <= 10)%nat
  /\ count_char "." "15.03.1990" = 2%nat
  /\ valid_date 1990 3 15 = true.
Proof.
  apply (strptime_dmY_shape "15.03.1990" (mkdatetime 1990 3 15)). reflexivity.
Defined.

Lemma digit_facts n :
  0 <= n <= 9 ->
  in_range "0" "9" (digit n) = true
  /\ Ascii.eqb (digit n) " " = false
  /\ Z.of_N (N_of_ascii (digit n)) - 48 = n.
Proof.
  intros H.
  assert (Hn : In n [0; 1; 2; 3; 4; 5; 6; 7; 8; 9]) by (simpl; lia).
  simpl in Hn.
  repeat (destruct Hn as [<-|Hn]; [repeat split; reflexivity|]).
  destruct Hn.
Qed.

Lemma four_digits_bounds y :
  0 <= y <= 9999 ->
  0 <= y / 1000 <= 9 /\ 0 <= y / 100 mod 10 <= 9
  /\ 0 <= y / 10 mod 10 <= 9 /\ 0 <= y mod 10 <= 9
  /\ 10 * (10 * (10 * (y / 1000) + y / 100 mod 10) + y / 10 mod 10) + y mod 10 = y.
Proof. intros H. Z.div_mod_to_equations. lia. Qed.

Lemma rmatch_re_Y {A} y rest (k : string -> string -> option A) :
  0 <= y <= 9999 ->
  rmatch re_Y (four_digits y +:+ rest) k = k (four_digits y) rest.
Proof.
  intros H. destruct (four_digits_bounds y H) as (H1 & H2 & H3 & H4 & _).
  apply digit_facts in H1 as [H1 _], H2 as [H2 _], H3 as [H3 _], H4 as [H4 _].
  unfold four_digits, re_Y, re_digit.
  rewrite !append_cons, append_nil_l. cbn [rmatch].
  rewrite H1, H2, H3, H4.
  now rewrite !append_cons, !append_nil_l.
Qed.

Lemma int_of_text_four_digits y : 0 <= y <= 9999 -> int_of_text (four_digits y) = y.
Proof.
  intros H. destruct (four_digits_bounds y H) as (H1 & H2 & H3 & H4 & Hy).
  apply digit_facts in H1 as (_ & E1 & V1), H2 as (_ & E2 & V2),
    H3 as (_ & E3 & V3), H4 as (_ & E4 & V4).
  unfold int_of_text, four_digits. cbn [int_of_digits].
  rewrite E1, E2, E3, E4, V1, V2, V3, V4. lia.
Qed.

Lemma rmatch_re_d {A} zero d rest (k : string -> string -> option A) a :
  1 <= d <= 31 ->
  k (number_text zero d) (String "." rest) = Some a ->
  rmatch re_d (number_text zero d +:+ String "." rest) k = Some a.
Proof.
  intros Hd.
  assert (Hn : In d (map Z.of_nat (seq 1 31))) by (simpl; lia).
  simpl in Hn.
  repeat (destruct Hn as [<-|Hn];
    [destruct zero; eval_number_text; intros Hk;
     rewrite ?append_cons, ?append_nil_l; simpl;
     rewrite ?append_cons, ?append_nil_l; now rewrite Hk|]).
  destruct Hn.
Qed.

Lemma rmatch_re_m {A} zero m rest (k : string -> string -> option A) a :
  1 <= m <= 12 ->
  k (number_text zero m) (String "." rest) = Some a ->
  rmatch re_m (number_text zero m +:+ String "." rest) k = Some a.
Proof.
  intros Hm.
  assert (Hn : In m (map Z.of_nat (seq 1 12))) by (simpl; lia).
  simpl in Hn.
  repeat (destruct Hn as [<-|Hn];
    [destruct zero; eval_number_text; intros Hk;
     rewrite ?append_cons, ?append_nil_l; simpl;
     rewrite ?append_cons, ?append_nil_l; now rewrite Hk|]).
  destruct Hn.
Qed.

Lemma int_of_text_number zero n :
  1 <= n <= 31 -> int_of_text (number_text zero n) = n.
Proof.
  intros H.
  assert (Hn : In n (map Z.of_nat (seq 1 31))) by (simpl; lia).
  simpl in Hn.
  repeat (destruct Hn as [<-|Hn]; [now destruct zero|]).
  destruct Hn.
Qed.

Lemma valid_date_bounds y m d :
  valid_date y m d = true -> 1 <= y <= 9999 /\ 1 <= m <= 12 /\ 1 <= d <= 31.
Proof.
  unfold valid_date. rewrite !andb_true_iff, !Z.leb_le.
  intros [[[[[H1 H2] H3] H4] H5] H6].
  assert (days_in_month y m <= 31).
  { unfold days_in_month.
    destruct (m =? 2); [destruct (is_leap y); lia|].
    destruct (_ || _); lia. }
  lia.
Qed.

(** X10. Every day that exists is read as itself: written as day,
    month and year with dots between them, the year with four digits,
    the day and the month with or without a leading zero, it is what
    [strptime] returns for the text. *)
Theorem strptime_dmY_date_text (zero_day zero_month : bool) (y m d : Z) :
  valid_date y m d = true ->
  strptime_dmY (date_text zero_day zero_month y m d) = Some (mkdatetime y m d).
Proof.
  intros Hv. destruct (valid_date_bounds _ _ _ Hv) as (Hy & Hm & Hd).
  unfold strptime_dmY, date_text.
  rewrite !append_cons, !append_nil_l.
  rewrite (rmatch_re_d zero_day d _ _
             (number_text zero_day d, number_text zero_month m, four_digits y,
              EmptyString) Hd).
  - rewrite int_of_text_four_digits, !int_of_text_number by lia. now rewrite Hv.
  - cbn [rmatch]. rewrite Ascii.eqb_refl.
    apply rmatch_re_m; [exact Hm|].
    cbn [rmatch]. rewrite Ascii.eqb_refl.
    rewrite <- (append_nil_r (four_digits y)) at 1.
    rewrite rmatch_re_Y by lia. reflexivity.
Qed.

Lemma strptime_dmY_date_text_witness :
  strptime_dmY (date_text false true 2000 2 29) = Some (mkdatetime 2000 2 29).
Proof. apply strptime_dmY_date_text. reflexivity. Defined.

(** * The table of [display_people] *)

Lemma length_codes s : length (Table.codes s) = String.length s.
Proof.
  unfold Table.codes. rewrite length_map.
  induction s as [|c s IH]; simpl; [reflexivity|now rewrite IH].
Qed.

Lemma length_pad a width t :
  length (Table.pad a width t) = Nat.max width (length t).
Proof.
  unfold Table.pad, Table.blanks. destruct a; rewrite !length_app, ?repeat_length.
  - lia.
  - lia.
  - assert (((width - length t) / 2 <= width - length t)%nat)
      by (apply Nat.Div0.div_le_upper_bound; lia).
    lia.
Qed.

Lemma format_row_fields idx d surname name zodiac toks :
  Table.get_or_empty "surname" d = JStr surname ->
  Table.get_or_empty "name" d = JStr name ->
  Table.get_or_empty "zodiac" d = JStr zodiac ->
  iter_strings (Table.get_or_empty "birthday" d) = Some toks ->
  Table.format_row idx (JObj d)
  = Ok (row_text idx surname name zodiac (join "." toks)).
Proof.
  intros Hs Hn Hz Hb. unfold Table.format_row, row_text.
  now rewrite Hs, Hn, Hz, Hb.
Qed.

Lemma length_row_text idx surname name zodiac birthday :
  length (row_text idx surname name zodiac birthday)
  = row_width idx surname name zodiac birthday.
Proof.
  unfold row_text, row_width.
  rewrite !length_app, !length_pad, !length_codes. simpl. lia.
Qed.

(** X11. A row never cuts a field: for a record whose surname, name and
    zodiac are strings (the empty string standing for a missing one) and
    whose birthday is a list of strings, the row is the five fields
    between bars, each filled with blanks up to the width of its column
    and longer than that when the text is. So a row has 120 characters,
    like the rule above it, when every field fits its column, and more
    when one does not. *)
Theorem format_row_width (idx : Z) (d : list (string * json))
    (surname name zodiac : string) (toks : list string) :
  Table.get_or_empty "surname" d = JStr surname ->
  Table.get_or_empty "name" d = JStr name ->
  Table.get_or_empty "zodiac" d = JStr zodiac ->
  iter_strings (Table.get_or_empty "birthday" d) = Some toks ->
  Table.format_row idx (JObj d)
  = Ok (row_text idx surname name zodiac (join "." toks))
  /\ length (row_text idx surname name zodiac (join "." toks))
     = row_width idx surname name zodiac (join "." toks)
  /\ (length Table.line
      <= row_width idx surname name zodiac (join "." toks))%nat
  /\ length Table.line = 120%nat.
Proof.
  intros Hs Hn Hz Hb. split; [now apply format_row_fields|].
  split; [apply length_row_text|]. split; [|reflexivity].
  change (length Table.line) with 120%nat. unfold row_width. lia.
Qed.

Lemma format_row_width_witness :
  Table.format_row 1 doe
  = Ok (row_text 1 "Doe" "Jane" "Leo" (join "." ["15"; "03"; "1990"]))
  /\ length (row_text 1 "Doe" "Jane" "Leo" (join "." ["15"; "03"; "1990"]))
     = row_width 1 "Doe" "Jane" "Leo" (join "." ["15"; "03"; "1990"])
  /\ (length Table.line
      <= row_width 1 "Doe" "Jane" "Leo" (join "." ["15"; "03"; "1990"]))%nat
  /\ length Table.line = 120%nat.
Proof.
  apply (format_row_width 1 _ "Doe" "Jane" "Leo" ["15"; "03"; "1990"]);
    reflexivity.
Defined.

(** X12. The row of a record as [add_person] makes it shows the
    birthday as it was given on the command line. When no zodiac was
    given, the record holds [None] there and cannot be shown: the row
    raises [TypeError]. *)
Theorem format_row_new_person (idx : Z) (surname name : string)
    (zodiac : option string) (birthday : string) :
  Table.format_row idx (new_person surname name zodiac birthday)
  = match zodiac with
    | Some z => Ok (row_text idx surname name z birthday)
    | None => Raise TypeError
    end.
Proof.
  destruct zodiac as [z|]; unfold new_person.
  - rewrite (format_row_fields idx _ surname name z (split "." birthday));
      try reflexivity.
    + now rewrite join_split.
    + unfold Table.get_or_empty.
      cbn [dict_get String.eqb Ascii.eqb Bool.eqb default from_option id
           iter_strings].
      apply strings_of_items_map.
  - unfold Table.format_row, new_person, Table.get_or_empty.
    cbn [dict_get String.eqb Ascii.eqb Bool.eqb default from_option id
         iter_strings zodiac_value].
    rewrite strings_of_items_map. reflexivity.
Qed.

Lemma strings_of_items_strings (toks : list json) :
  Forall is_string toks -> exists l, strings_of_items toks = Some l.
Proof.
  induction 1 as [|x toks [s ->] _ [l IH]]; simpl.
  - now exists [].
  - rewrite IH. now eexists.
Qed.

Lemma person_ok_format_row (person : json) (idx : Z) :
  person_ok person = true ->
  exists row, Table.format_row idx person = Ok row /\ (120 <= length row)%nat.
Proof.
  intros H. apply person_ok_spec in H.
  destruct H as (d & -> & (s & Hs) & (n & Hn) & (toks & Hb & Htoks) & Hz).
  destruct (strings_of_items_strings toks Htoks) as [l Hl].
  assert (Hzod : exists z, Table.get_or_empty "zodiac" d = JStr z).
  { unfold Table.get_or_empty. destruct (dict_get "zodiac" d) as [v|] eqn:E.
    - destruct (Hz v eq_refl) as [z ->]. now exists z.
    - now exists EmptyString. }
  destruct Hzod as [z Hzod].
  exists (row_text idx s n z (join "." l)). split.
  - apply format_row_fields; try assumption;
      unfold Table.get_or_empty; [now rewrite Hs|now rewrite Hn|now rewrite Hb].
  - rewrite length_row_text. unfold row_width. lia.
Qed.

Lemma print_rows_valid (people : list json) : forall idx,
  forallb person_ok people = true ->
  exists rows,
    Table.print_rows idx people = (rows, Ok tt)
    /\ length rows = length people
    /\ (forall i person, people !! i = Some person ->
          exists row, rows !! i = Some row
                      /\ Table.format_row (idx + Z.of_nat i) person = Ok row)
    /\ Forall (fun row => (120 <= length row)%nat) rows.
Proof.
  induction people as [|p people IH]; intros idx H.
  - exists []. repeat split; [intros i person Hi; discriminate|constructor].
  - simpl in H. apply andb_true_iff in H as [Hp Hall].
    destruct (person_ok_format_row p idx Hp) as (row & Hrow & Hlen).
    destruct (IH (idx + 1) Hall) as (rows & Hrows & Hlens & Hith & Hwide).
    exists (row :: rows). cbn [Table.print_rows]. rewrite Hrow.
    unfold Table.raising, Table.and_then, Table.print. rewrite Hrows.
    repeat split.
    + simpl. now rewrite Hlens.
    + intros [|i] person Hi; simpl in Hi.
      * injection Hi as <-. exists row. split; [reflexivity|].
        now rewrite Z.add_0_r.
      * destruct (Hith i person Hi) as (r & Hr & Hf). exists r. split; [exact Hr|].
        rewrite <- Hf. f_equal. lia.
    + now constructor.
Qed.

Lemma print_rows_app (a b : list json) : forall idx,
  Table.print_rows idx (a ++ b)
  = Table.and_then (Table.print_rows idx a)
      (fun _ => Table.print_rows (idx + Z.of_nat (length a)) b).
Proof.
  induction a as [|p a IH]; intros idx.
  - simpl. rewrite Z.add_0_r. unfold Table.and_then.
    now destruct (Table.print_rows idx b).
  - cbn [app Table.print_rows]. rewrite IH.
    unfold Table.raising, Table.and_then, Table.print.
    destruct (Table.format_row idx p) as [row|e]; [|reflexivity].
    destruct (Table.print_rows (idx + 1) a) as [rows [[]|e]]; [|reflexivity].
    replace (idx + 1 + Z.of_nat (length a)) with (idx + Z.of_nat (length (p :: a)))
      by (simpl length; lia).
    destruct (Table.print_rows _ b) as [rows' r]. reflexivity.
Qed.

(** X13. A collection that passes [validation] can be shown: no row
    raises an exception. An empty collection gives the one line that says
    so; any other the rule, the header, the rule, one row for each record
    in the order of the collection, numbered from 1, and the rule again.
    The header is as wide as the rule, and no row is shorter. *)
Theorem display_people_valid (people : list json) :
  validation (JArr people) = true ->
  exists rows,
    Table.display_people people
    = (match people with
       | [] => [Table.empty_notice]
       | _ :: _ => [Table.line; Table.header; Table.line] ++ rows ++ [Table.line]
       end%list, Ok tt)
    /\ length rows = length people
    /\ (forall i person, people !! i = Some person ->
          exists row, rows !! i = Some row
                      /\ Table.format_row (Z.of_nat (S i)) person = Ok row)
    /\ Forall (fun row => (length Table.line <= length row)%nat) rows
    /\ length Table.header = length Table.line.
Proof.
  rewrite validation_array. intros H.
  destruct (print_rows_valid people 1 H) as (rows & Hrows & Hlen & Hith & Hwide).
  exists rows. split; [|split; [exact Hlen|split; [|split; [|reflexivity]]]].
  - destruct people as [|p people]; [now destruct rows|].
    unfold Table.display_people, Table.and_then, Table.print.
    now rewrite Hrows.
  - intros i person Hi. destruct (Hith i person Hi) as (row & Hr & Hf).
    exists row. split; [exact Hr|]. rewrite <- Hf. f_equal. lia.
  - exact Hwide.
Qed.

Lemma display_people_valid_witness :
  exists rows,
    Table.display_people [roe; doe]
    = ([Table.line; Table.header; Table.line] ++ rows ++ [Table.line], Ok tt)%list
    /\ length rows = 2%nat
    /\ (forall i person, [roe; doe] !! i = Some person ->
          exists row, rows !! i = Some row
                      /\ Table.format_row (Z.of_nat (S i)) person = Ok row)
    /\ Forall (fun row => (length Table.line <= length row)%nat) rows
    /\ length Table.header = length Table.line.
Proof. apply (display_people_valid [roe; doe]). reflexivity. Defined.

(** X14. When a record cannot be shown, the table breaks off there: the
    rule, the header, the rule and the rows of the records before it
    have been printed, the closing rule and the rows after it are not,
    and the exception of the row ends [display_people]. *)
Theorem display_people_breaks_off (good : list json) (bad : json)
    (rest : list json) (rows : list Table.text) (e : exn) :
  Table.print_rows 1 good = (rows, Ok tt) ->
  Table.format_row (Z.of_nat (S (length good))) bad = Raise e ->
  Table.display_people (good ++ bad :: rest)
  = ([Table.line; Table.header; Table.line] ++ rows, Raise e)%list.
Proof.
  intros Hgood Hbad.
  assert (H : Table.print_rows 1 (good ++ bad :: rest) = (rows, Raise e)).
  { rewrite print_rows_app, Hgood. unfold Table.and_then.
    cbn [Table.print_rows].
    replace (1 + Z.of_nat (length good)) with (Z.of_nat (S (length good))) by lia.
    rewrite Hbad. unfold Table.raising. cbn. now rewrite app_nil_r. }
  unfold Table.display_people.
  destruct (good ++ bad :: rest)%list as [|p l] eqn:E.
  - now destruct good.
  - rewrite H. reflexivity.
Qed.

Lemma display_people_breaks_off_witness :
  Table.display_people
    ([doe] ++ new_person "Roe" "Rick" None "01.01.1980" :: [roe])
  = ([Table.line; Table.header; Table.line]
     ++ [Table.codes
           "|    1 | Doe                            | Jane                           | Leo                  |           15.03.1990 |"],
     Raise TypeError)%list.
Proof.
  apply (display_people_breaks_off [doe]); reflexivity.
Defined.

(** * Further properties of the files and of [main] *)

Lemma dict_set_keys k v d x :
  In x (map fst (dict_set k v d)) -> x = k \/ In x (map fst d).
Proof.
  induction d as [|[k' w] d IH]; cbn [dict_set].
  - simpl. intros [<-|[]]. now left.
  - destruct (String.eqb k' k); simpl; [tauto|].
    intros [<-|H]; [tauto|]. destruct (IH H); tauto.
Qed.

Lemma dict_set_wf k v d :
  wf_json (JObj d) -> wf_json v -> wf_json (JObj (dict_set k v d)).
Proof.
  cbn [wf_json]. rewrite !wf_json_members. intros [Hnd Hall] Hv.
  induction d as [|[k' w] d IH]; cbn [dict_set].
  - simpl. split; [apply NoDup_singleton|]. now repeat constructor.
  - simpl in Hnd. apply NoDup_cons in Hnd as [Hk' Hnd].
    inversion Hall as [|? ? Hw Hall']; subst.
    destruct (String.eqb k' k) eqn:E.
    + simpl. split; [now apply NoDup_cons|]. now constructor.
    + destruct (IH Hnd Hall') as [IH1 IH2].
      simpl. split; [|now constructor].
      apply NoDup_cons. split; [|exact IH1].
      intros Hin. apply list_elem_of_In, dict_set_keys in Hin as [->|Hin].
      * now rewrite String.eqb_refl in E.
      * apply Hk'. now apply list_elem_of_In.
Qed.

Lemma dict_of_pairs_wf (pairs : list (string * json)) :
  Forall (fun kv => wf_json (snd kv)) pairs -> wf_json (JObj (dict_of_pairs pairs)).
Proof.
  unfold dict_of_pairs.
  assert (H : forall acc, wf_json (JObj acc) ->
            Forall (fun kv => wf_json (snd kv)) pairs ->
            wf_json (JObj (fold_left (fun d kv => dict_set (fst kv) (snd kv) d)
                             pairs acc))).
  { induction pairs as [|[k v] pairs IH]; intros acc Hacc Hall; [exact Hacc|].
    inversion Hall; subst. cbn [fold_left]. apply IH; [|assumption].
    now apply dict_set_wf. }
  apply H. simpl. split; [constructor|exact I].
Qed.

(** What the scanner reads is a value Python can hold. *)
Lemma scan_wf fuel :
  (forall s v rest, scan_once fuel s = Ok (v, rest) -> wf_json v)
  /\ (forall s l rest, scan_items fuel s = Ok (l, rest) -> Forall wf_json l)
  /\ (forall s l rest, scan_members fuel s = Ok (l, rest) ->
        Forall (fun kv => wf_json (snd kv)) l).
Proof.
  induction fuel as [|fuel (IHonce & IHitems & IHmembers)].
  { repeat split; intros; discriminate. }
  split; [|split].
  - intros s v rest. cbn [scan_once].
    destruct s as [|c s]; [discriminate|].
    destruct (Ascii.eqb c quote).
    { destruct (scanstring s) as [[t r]|e]; [|discriminate].
      simpl. intros H. injection H as <- _. exact I. }
    destruct (Ascii.eqb c "{").
    { destruct (skip_ws s) as [|c1 s1]; [discriminate|].
      destruct (Ascii.eqb c1 "}").
      - intros H. injection H as <- _. simpl. split; [constructor|exact I].
      - destruct (scan_members fuel (String c1 s1)) as [[l r]|e] eqn:E; [|discriminate].
        simpl. intros H. injection H as <- _.
        apply dict_of_pairs_wf. eapply IHmembers. exact E. }
    destruct (Ascii.eqb c "[").
    { destruct (skip_ws s) as [|c1 s1]; [discriminate|].
      destruct (Ascii.eqb c1 "]").
      - intros H. injection H as <- _. exact I.
      - destruct (scan_items fuel (String c1 s1)) as [[l r]|e] eqn:E; [|discriminate].
        simpl. intros H. injection H as <- _.
        apply wf_json_items. eapply IHitems. exact E. }
    destruct (strip_prefix "null" (String c s)).
    { intros H. injection H as <- _. exact I. }
    destruct (strip_prefix "true" (String c s)).
    { intros H. injection H as <- _. exact I. }
    destruct (strip_prefix "false" (String c s)).
    { intros H. injection H as <- _. exact I. }
    destruct (strip_prefix "NaN" (String c s)); [discriminate|].
    destruct (strip_prefix "Infinity" (String c s)); [discriminate|].
    destruct (strip_prefix "-Infinity" (String c s)); [discriminate|].
    unfold match_number, match_digits, finish_number.
    intros H.
    assert (Hint : exists z, v = JInt z).
    { revert H. repeat match goal with
        | |- context [match ?x with _ => _ end] => destruct x
        | |- context [if ?x then _ else _] => destruct x
        end; try discriminate; intros H; injection H as <- _; now eexists. }
    destruct Hint as [z ->]. exact I.
  - intros s l rest. cbn [scan_items].
    destruct (scan_once fuel s) as [[v r]|e] eqn:E; [|discriminate]. simpl.
    destruct (skip_ws r) as [|c r']; [discriminate|].
    destruct (Ascii.eqb c "]").
    { intros H. injection H as <- _. constructor; [|constructor].
      eapply IHonce. exact E. }
    destruct (Ascii.eqb c ","); [|discriminate].
    destruct (scan_items fuel (skip_ws r')) as [[l' r'']|e] eqn:E'; [|discriminate].
    simpl. intros H. injection H as <- _. constructor.
    + eapply IHonce. exact E.
    + eapply IHitems. exact E'.
  - intros s l rest. cbn [scan_members].
    destruct s as [|c s]; [discriminate|].
    destruct (Ascii.eqb c quote); [|discriminate].
    destruct (scanstring s) as [[k r]|e]; [|discriminate]. simpl.
    destruct (skip_ws r) as [|c1 s1]; [discriminate|].
    destruct (Ascii.eqb c1 ":"); [|discriminate].
    destruct (scan_once fuel (skip_ws s1)) as [[v r1]|e] eqn:E; [|discriminate].
    simpl. destruct (skip_ws r1) as [|c2 r2]; [discriminate|].
    destruct (Ascii.eqb c2 "}").
    { intros H. injection H as <- _. constructor; [|constructor].
      simpl. eapply IHonce. exact E. }
    destruct (Ascii.eqb c2 ","); [|discriminate].
    destruct (scan_members fuel (skip_ws r2)) as [[l' r'']|e] eqn:E'; [|discriminate].
    simpl. intros H. injection H as <- _. constructor.
    + simpl. eapply IHonce. exact E.
    + eapply IHmembers. exact E'.
Qed.

Lemma json_loads_wf text v : json_loads text = Ok v -> wf_json v.
Proof.
  unfold json_loads.
  destruct (scan_once _ _) as [[v' rest]|e] eqn:E; [|discriminate].
  simpl. destruct (skip_ws rest); [|discriminate].
  intros H. injection H as <-.
  eapply (proj1 (scan_wf _)). exact E.
Qed.

Lemma path_join_absolute base path :
  is_absolute path = true -> path_join base path = path.
Proof. unfold path_join. now intros ->. Qed.

Lemma after_after w evs1 evs2 : after (after w evs1) evs2 = after w (evs1 ++ evs2).
Proof. unfold after. simpl. now rewrite app_assoc. Qed.

(** What [load_people] makes of a file that holds a saved collection. *)
Lemma load_people_file env file_name people w :
  files w !! work_file env file_name = Some (file_of people) ->
  Forall wf_json people ->
  load_people env file_name w
  = if validation (JArr (reread (locale env) people))
    then (Ok (Some (reread (locale env) people)),
          after w [EvRead (work_file env file_name)])
    else (Ok None, after w [EvRead (work_file env file_name); EvMessage]).
Proof.
  unfold work_file, file_of. intros Hfile Hwf.
  rewrite load_people_eq. cbn zeta. rewrite Hfile.
  assert (Hdec : decode (locale env) (utf8_encode (json_dumps (JArr people)))
                 = Ok (json_dumps (JArr (reread (locale env) people)))).
  { destruct (locale env); cbn [decode reread].
    - apply utf8_decode_encode.
    - rewrite latin1_decode_utf8. unfold json_dumps. now rewrite mojibake_dumps. }
  rewrite Hdec, json_loads_dumps by (now apply wf_json_reread).
  destruct (validation (JArr (reread (locale env) people))); reflexivity.
Qed.

(** What [load_people] returns has passed [validation]. *)
Lemma load_people_some env file_name w items w' :
  load_people env file_name w = (Ok (Some items), w') ->
  validation (JArr items) = true
  /\ Forall wf_json items
  /\ w' = after w [EvRead (work_file env file_name)].
Proof.
  rewrite load_people_eq. cbn zeta. fold (work_file env file_name).
  destruct (files w !! _) as [data|]; [|discriminate].
  destruct (decode (locale env) data) as [text|e]; [|discriminate].
  destruct (json_loads text) as [doc|e] eqn:E; [|discriminate].
  destruct (validation doc) eqn:Ev; [|discriminate].
  destruct doc; try discriminate.
  intros H. injection H as <- <-. split; [exact Ev|]. split; [|reflexivity].
  apply json_loads_wf in E. now apply wf_json_items.
Qed.

Lemma load_phase_valid env args w people w0 :
  load_phase env args w = (Ok people, w0) ->
  validation (JArr people) = true /\ Forall wf_json people /\ files w0 = files w.
Proof.
  rewrite load_phase_eq.
  destruct (files w !! _) as [data|].
  - destruct (load_people env (filename args) w) as [[[items|]|e] w'] eqn:E;
      try discriminate; intros H; injection H as <- <-.
    + destruct (load_people_some _ _ _ _ _ E) as (Hv & Hwf & ->). now repeat split.
    + destruct (load_people_frame env (filename args) w) as (evs & Hw & _).
      rewrite E in Hw. simpl in Hw. subst w'. now repeat split.
  - intros H. injection H as <- <-. now repeat split.
Qed.

Lemma sort_people_perm people sorted :
  sort_people people = Ok sorted -> Permutation sorted people.
Proof.
  unfold sort_people, list_sort.
  destruct (decorate birthday_key people) as [kl|e] eqn:E; [|discriminate].
  simpl. intros H. injection H as <-.
  destruct (decorate_inv _ _ _ E) as [Hmap _].
  rewrite <- Hmap. apply Permutation_map, stable_sort_perm.
Qed.

Lemma sort_people_added surname name zodiac birthday date :
  strptime_dmY birthday = Some date ->
  sort_people (add_person [] surname name zodiac birthday)
  = Ok [new_person surname name zodiac birthday].
Proof.
  intros H. unfold sort_people, list_sort, add_person. cbn [app decorate].
  now rewrite birthday_key_added, H.
Qed.

(** A run of [add] that ends well: what it loaded, sorted and wrote. *)
Lemma main_add_ok env surname name zodiac birthday file_name w w1 :
  main env (mkarguments (CmdAdd surname name zodiac birthday) file_name) w
  = (Ok tt, w1) ->
  exists people sorted w0,
    load_phase env (mkarguments (CmdAdd surname name zodiac birthday) file_name) w
    = (Ok people, w0)
    /\ sort_people (add_person people surname name zodiac birthday) = Ok sorted
    /\ w1 = mkworld (<[home_file env file_name := file_of sorted]> (files w0))
              (events w0 ++ [EvWrite (home_file env file_name)]).
Proof.
  rewrite main_eq.
  destruct (load_phase env _ w) as [[people|e] w0]; [|discriminate].
  rewrite command_phase_eq. cbn [arg_command filename].
  destruct (sort_people _) as [sorted|e] eqn:Es; [|discriminate].
  rewrite save_people_eq. intros H. injection H as <-.
  now exists people, sorted, w0.
Qed.

Lemma wf_json_new_person surname name zodiac birthday :
  wf_json (new_person surname name zodiac birthday).
Proof.
  unfold new_person. cbn [wf_json map fst fold_right snd].
  split.
  - apply (bool_decide_unpack _). vm_compute. exact I.
  - destruct zodiac; cbn [zodiac_value wf_json]; repeat split;
      apply wf_json_items, Forall_fmap, Forall_true; intros tok; exact I.
Qed.

Lemma json_map_ascii v : ascii_json v = true -> json_map mojibake v = v.
Proof.
  induction v as [| b | z | s | items IH | members IH] using json_induction;
    cbn [ascii_json json_map]; intros H; try reflexivity.
  - now rewrite mojibake_ascii.
  - f_equal. induction IH as [|x items Hx _ IHl]; [reflexivity|].
    simpl in H. apply andb_true_iff in H as [H1 H2].
    simpl. now rewrite Hx, IHl.
  - f_equal. induction IH as [|[k x] members Hx _ IHl]; [reflexivity|].
    simpl in H. apply andb_true_iff in H as [H1 H2].
    apply andb_true_iff in H1 as [Hk Hv].
    simpl. simpl in Hx. now rewrite Hx, IHl, mojibake_ascii.
Qed.

Lemma reread_ascii enc people :
  forallb ascii_json people = true -> reread enc people = people.
Proof.
  destruct enc; [reflexivity|]. cbn [reread].
  induction people as [|p people IH]; [reflexivity|].
  simpl. intros H. apply andb_true_iff in H as [Hp Hall].
  now rewrite json_map_ascii, IH.
Qed.

(** X15. A collection that passes [validation] is read back by
    [load_people] as [save_people] wrote it, when the locale reads text
    as UTF-8 or every string of the collection is ASCII. *)
Theorem save_then_load (env : environ) (file_name : string)
    (people : list json) (w : world) :
  Forall wf_json people ->
  validation (JArr people) = true ->
  locale env = UTF8 \/ forallb ascii_json people = true ->
  load_people env file_name (snd (save_people env file_name people w))
  = (Ok (Some people),
     after (snd (save_people env file_name people w))
       [EvRead (work_file env file_name)]).
Proof.
  intros Hwf Hval Henc.
  rewrite (load_people_file env file_name people) by
    (try assumption; rewrite save_people_eq; cbn [snd files];
     apply lookup_insert_eq).
  assert (Hre : reread (locale env) people = people).
  { destruct Henc as [->|Hascii]; [reflexivity|now apply reread_ascii]. }
  now rewrite Hre, Hval.
Qed.

Lemma save_then_load_witness :
  load_people (at_home Latin1) "people.json"
    (snd (save_people (at_home Latin1) "people.json" [roe; doe] (mkworld ∅ [])))
  = (Ok (Some [roe; doe]),
     after (snd (save_people (at_home Latin1) "people.json" [roe; doe]
                   (mkworld ∅ [])))
       [EvRead (work_file (at_home Latin1) "people.json")]).
Proof.
  apply save_then_load.
  - repeat (constructor; [apply wf_json_new_person|]). constructor.
  - reflexivity.
  - right. reflexivity.
Defined.

Lemma split_append_sep sep (a b : string) :
  split sep (a +:+ String sep b) = (split sep a ++ split sep b)%list.
Proof.
  induction a as [|c a IH].
  - rewrite append_nil_l. cbn [split]. now rewrite Ascii.eqb_refl.
  - rewrite append_cons. cbn [split]. rewrite IH.
    destruct (Ascii.eqb c sep); [reflexivity|].
    pose proof (split_nonempty sep a) as Hne.
    destruct (split sep a) as [|tok toks]; [now destruct Hne|reflexivity].
Qed.

Lemma split_free sep (s : string) : occurs sep s = false -> split sep s = [s].
Proof.
  induction s as [|c s IH]; [reflexivity|]. cbn [occurs split].
  destruct (Ascii.eqb c sep); [discriminate|]. simpl. intros H.
  now rewrite (IH H).
Qed.

(** The home path of a simple file name in a home directory in normal
    form: what pathlib joins the two to, a path in normal form. *)
Lemma home_file_normal env file_name :
  normal_path (home env) = true ->
  simple_name file_name = true ->
  home_file env file_name = home env +:+ "/" +:+ file_name
  /\ normal_path (home_file env file_name) = true.
Proof.
  unfold normal_path, simple_name, home_file. intros Hhome Hname.
  apply andb_true_iff in Hname as [Hname Hdd].
  apply andb_true_iff in Hname as [Hname Hd].
  apply andb_true_iff in Hname as [Hne Hfree].
  apply negb_true_iff in Hfree.
  assert (Habs : is_absolute (home env) = true).
  { destruct (home env) as [|c h]; [discriminate|]. cbn [split] in Hhome.
    cbn [is_absolute]. destruct (Ascii.eqb c "/"); [reflexivity|].
    destruct (split "/" h) as [|tok [|comp comps]]; discriminate. }
  assert (Hrel : is_absolute file_name = false).
  { destruct file_name as [|c f]; [reflexivity|]. cbn [occurs] in Hfree.
    cbn [is_absolute]. now apply orb_false_iff in Hfree as [-> _]. }
  assert (Hjoin : path_join (home env) file_name
                  = home env +:+ "/" +:+ file_name).
  { unfold path_join. now rewrite Hrel. }
  rewrite Hjoin.
  assert (Hpath : path_join (cwd env) (home env +:+ "/" +:+ file_name)
                  = home env +:+ "/" +:+ file_name).
  { apply path_join_absolute. destruct (home env); [discriminate|exact Habs]. }
  rewrite Hpath. split; [reflexivity|].
  rewrite append_cons, append_nil_l, split_append_sep, (split_free _ _ Hfree).
  destruct (split "/" (home env)) as [|first [|comp comps]]; try discriminate.
  apply andb_true_iff in Hhome as [Hfirst Hcomps].
  cbn [app]. rewrite Hfirst. cbn [andb].
  change (comp :: comps ++ [file_name])%list
    with ((comp :: comps) ++ [file_name])%list.
  rewrite forallb_app, Hcomps. cbn [forallb andb].
  unfold simple_name. now rewrite Hne, Hfree, Hd, Hdd.
Qed.

(** X16. Take a home directory in normal form, a file name of one
    component, and a world (of files only) whose files are named in
    normal form, none of them at the home path of that name. Then
    [main] reads nothing, whatever the working directory holds: [add]
    with a well-formed birthday creates the file at the home path with
    the new record as its only one, and, where the locale is UTF-8,
    [display] and [select] show the empty collection. *)
Theorem main_without_file (env : environ) (file_name : string) (w : world)
    (surname name : string) (zodiac : option string) (birthday : string)
    (date : datetime) :
  normal_path (home env) = true ->
  simple_name file_name = true ->
  map_Forall (fun path _ => normal_path path = true) (files w) ->
  files w !! (home env +:+ "/" +:+ file_name) = None ->
  strptime_dmY birthday = Some date ->
  home_file env file_name = home env +:+ "/" +:+ file_name
  /\ normal_path (home_file env file_name) = true
  /\ main env (mkarguments (CmdAdd surname name zodiac birthday) file_name) w
     = (Ok tt,
        mkworld (<[home_file env file_name
                   := file_of [new_person surname name zodiac birthday]]>
                   (files w))
          (events w ++ [EvWrite (home_file env file_name)]))
  /\ (locale env = UTF8 ->
      main env (mkarguments CmdDisplay file_name) w
      = (Ok tt, after w [EvDisplay []])
      /\ forall query,
           main env (mkarguments (CmdSelect query) file_name) w
           = (Ok tt, after w [EvDisplay []])).
Proof.
  intros Hhome Hname _ Hfile Hdate.
  destruct (home_file_normal env file_name Hhome Hname) as [Heq Hnormal].
  rewrite <- Heq in Hfile. split; [exact Heq|]. split; [exact Hnormal|].
  unfold home_file in *.
  repeat split; intros; rewrite main_eq, load_phase_eq; cbn [filename];
    rewrite Hfile, command_phase_eq; cbn [arg_command filename]; try reflexivity.
  now rewrite (sort_people_added _ _ _ _ _ Hdate), save_people_eq.
Qed.

Lemma main_without_file_witness :
  main in_tmp
    (mkarguments (CmdAdd "Doe" "Jane" (Some "Leo") "15.03.1990") "people.json")
    (mkworld {[ "/tmp/people.json" := file_of [roe] ]} [])
  = (Ok tt,
     mkworld (<[ "/home/u/people.json" := file_of [doe] ]>
                {[ "/tmp/people.json" := file_of [roe] ]})
       [EvWrite "/home/u/people.json"])
  /\ main in_tmp (mkarguments CmdDisplay "people.json")
       (mkworld {[ "/tmp/people.json" := file_of [roe] ]} [])
     = (Ok tt, mkworld {[ "/tmp/people.json" := file_of [roe] ]} [EvDisplay []]).
Proof.
  destruct (main_without_file in_tmp "people.json"
              (mkworld {[ "/tmp/people.json" := file_of [roe] ]} [])
              "Doe" "Jane" (Some "Leo") "15.03.1990" (mkdatetime 1990 3 15))
    as (_ & _ & Hadd & Hshow); try reflexivity.
  - apply map_Forall_singleton. reflexivity.
  - split; [exact Hadd|]. exact (proj1 (Hshow eq_refl)).
Defined.

(** X17. When the file [main] loads holds JSON that does not pass
    [validation], [add] goes on with an empty collection: after the
    message of the validator it saves the new record alone, and what
    the file at the home path held before is gone. *)
Theorem main_add_drops_invalid_file (env : environ) (file_name : string)
    (w : world) (data : list byte) (text : string) (doc : json)
    (surname name : string) (zodiac : option string) (birthday : string)
    (date : datetime) :
  is_Some (files w !! home_file env file_name) ->
  files w !! work_file env file_name = Some data ->
  decode (locale env) data = Ok text ->
  json_loads text = Ok doc ->
  validation doc = false ->
  strptime_dmY birthday = Some date ->
  main env (mkarguments (CmdAdd surname name zodiac birthday) file_name) w
  = (Ok tt,
     mkworld (<[home_file env file_name
                := file_of [new_person surname name zodiac birthday]]> (files w))
       (events w ++ [EvRead (work_file env file_name); EvMessage;
                     EvWrite (home_file env file_name)])).
Proof.
  unfold home_file, work_file. intros [old Hold] Hfile Hdec Hload Hval Hdate.
  rewrite main_eq, load_phase_eq. cbn [filename]. rewrite Hold.
  rewrite load_people_eq. cbn zeta. rewrite Hfile, Hdec, Hload, Hval.
  cbn [default from_option]. rewrite command_phase_eq. cbn [arg_command filename].
  rewrite (sort_people_added _ _ _ _ _ Hdate), save_people_eq.
  unfold after. cbn [files events]. now rewrite <- app_assoc.
Qed.

Lemma main_add_drops_invalid_file_witness :
  main (at_home UTF8)
    (mkarguments (CmdAdd "Doe" "Jane" (Some "Leo") "15.03.1990") "people.json")
    (mkworld {[ "/home/u/people.json" := utf8_encode "{}" ]} [])
  = (Ok tt,
     mkworld (<[home_file (at_home UTF8) "people.json" := file_of [doe]]>
                {[ "/home/u/people.json" := utf8_encode "{}" ]})
       [EvRead (work_file (at_home UTF8) "people.json"); EvMessage;
        EvWrite (home_file (at_home UTF8) "people.json")]).
Proof.
  refine (main_add_drops_invalid_file (at_home UTF8) "people.json"
            (mkworld {[ "/home/u/people.json" := utf8_encode "{}" ]} [])
            (utf8_encode "{}") "{}" (JObj [])
            "Doe" "Jane" (Some "Leo") "15.03.1990" (mkdatetime 1990 3 15)
            _ _ _ _ _ _); try reflexivity.
  now eexists.
Defined.

(** X18. An [add] without a zodiac costs the collection at the next
    [add]: the first run stores a record with [None] as its zodiac, so
    the second run, whatever it adds, finds a file that does not pass
    [validation] and saves its own record alone. This is so for both
    encodings of the locale, where [main] loads the file it saves. *)
Theorem main_add_twice_loses_records (env : environ) (file_name : string)
    (w w1 : world) (surname1 name1 birthday1 : string)
    (surname2 name2 : string) (zodiac2 : option string) (birthday2 : string)
    (date2 : datetime) :
  home_file env file_name = work_file env file_name ->
  main env (mkarguments (CmdAdd surname1 name1 None birthday1) file_name) w
  = (Ok tt, w1) ->
  strptime_dmY birthday2 = Some date2 ->
  exists saved,
    files w1 !! home_file env file_name = Some (file_of saved)
    /\ In (new_person surname1 name1 None birthday1) saved
    /\ main env (mkarguments (CmdAdd surname2 name2 zodiac2 birthday2) file_name) w1
       = (Ok tt,
          mkworld (<[home_file env file_name
                     := file_of [new_person surname2 name2 zodiac2 birthday2]]>
                     (files w1))
            (events w1 ++ [EvRead (work_file env file_name); EvMessage;
                           EvWrite (home_file env file_name)])).
Proof.
  intros Hsame Hrun Hdate.
  destruct (main_add_ok _ _ _ _ _ _ _ _ Hrun)
    as (people & sorted & w0 & Hload & Hsort & ->).
  destruct (load_phase_valid _ _ _ _ _ Hload) as (Hval & Hwf & Hfiles).
  pose proof (sort_people_perm _ _ Hsort) as Hperm.
  assert (Hin : In (new_person surname1 name1 None birthday1) sorted).
  { eapply Permutation_in; [symmetry; exact Hperm|].
    unfold add_person. apply in_or_app. right. now left. }
  assert (Hwfs : Forall wf_json sorted).
  { eapply Permutation_Forall; [symmetry; exact Hperm|].
    unfold add_person. apply Forall_app. split; [exact Hwf|].
    constructor; [apply wf_json_new_person|constructor]. }
  exists sorted. cbn [files]. split; [apply lookup_insert_eq|]. split; [exact Hin|].
  rewrite main_eq, load_phase_eq. cbn [filename files]. fold (home_file env file_name).
  rewrite lookup_insert_eq.
  rewrite (load_people_file env file_name sorted)
    by (cbn [files]; try assumption; rewrite <- Hsame; apply lookup_insert_eq).
  assert (Hnull : null_zodiac (new_person surname1 name1 None birthday1)).
  { eexists. split; [reflexivity|]. reflexivity. }
  destruct (null_zodiac_reread (locale env) _ _ Hin Hnull) as (e' & Hin' & Hnull').
  rewrite (validation_null_zodiac _ _ Hin' Hnull').
  cbn [default from_option]. rewrite command_phase_eq. cbn [arg_command filename].
  rewrite (sort_people_added _ _ _ _ _ Hdate), save_people_eq.
  unfold after. cbn [files events]. fold (home_file env file_name).
  now rewrite <- app_assoc.
Qed.

Lemma main_add_twice_loses_records_witness :
  exists saved,
    files (stored [roe; new_person "Doe" "Jane" None "15.03.1990"]
             [EvRead "/home/u/people.json"; EvWrite "/home/u/people.json"])
      !! home_file (at_home UTF8) "people.json" = Some (file_of saved)
    /\ In (new_person "Doe" "Jane" None "15.03.1990") saved
    /\ main (at_home UTF8)
         (mkarguments (CmdAdd "Poe" "Ed" (Some "Leo") "19.01.1809") "people.json")
         (stored [roe; new_person "Doe" "Jane" None "15.03.1990"]
            [EvRead "/home/u/people.json"; EvWrite "/home/u/people.json"])
       = (Ok tt,
          stored [new_person "Poe" "Ed" (Some "Leo") "19.01.1809"]
            [EvRead "/home/u/people.json"; EvWrite "/home/u/people.json";
             EvRead "/home/u/people.json"; EvMessage;
             EvWrite "/home/u/people.json"]).
Proof.
  refine (main_add_twice_loses_records (at_home UTF8) "people.json"
            (stored [roe] []) _ "Doe" "Jane" "15.03.1990"
            "Poe" "Ed" (Some "Leo") "19.01.1809" (mkdatetime 1809 1 19) _ _ _);
    vm_compute; reflexivity.
Defined.

Lemma command_phase_absolute env1 env2 args people w :
  is_absolute (filename args) = true ->
  command_phase env1 args people w = command_phase env2 args people w.
Proof.
  intros Habs. rewrite !command_phase_eq.
  destruct (arg_command args) as [s n z b| |s]; try reflexivity.
  destruct (sort_people _) as [sorted|e]; [|reflexivity].
  now rewrite !save_people_eq, !(path_join_absolute _ _ Habs).
Qed.

(** X19. With an absolute file name neither the home directory nor the
    working directory plays a part: [main] looks for, loads and saves
    the file of that name, and two runs that differ only in those
    directories do the same. *)
Theorem main_absolute_file_name (env1 env2 : environ) (args : arguments)
    (w : world) :
  is_absolute (filename args) = true ->
  locale env1 = locale env2 ->
  home_file env1 (filename args) = filename args
  /\ work_file env1 (filename args) = filename args
  /\ main env1 args w = main env2 args w.
Proof.
  intros Habs Hloc. unfold home_file, work_file.
  rewrite !(path_join_absolute _ _ Habs). repeat split.
  rewrite !main_eq, !load_phase_eq, !load_people_eq. cbn zeta.
  rewrite !(path_join_absolute _ _ Habs), Hloc.
  destruct (files w !! filename args) as [data|].
  - destruct (decode (locale env2) data) as [text|e]; [|reflexivity].
    destruct (json_loads text) as [doc|e]; [|reflexivity].
    destruct (validation doc); [destruct doc|]; now apply command_phase_absolute.
  - now apply command_phase_absolute.
Qed.

Lemma main_absolute_file_name_witness :
  home_file in_tmp "/srv/people.json" = "/srv/people.json"
  /\ work_file in_tmp "/srv/people.json" = "/srv/people.json"
  /\ main in_tmp (mkarguments CmdDisplay "/srv/people.json") (mkworld ∅ [])
     = main (at_home UTF8) (mkarguments CmdDisplay "/srv/people.json") (mkworld ∅ []).
Proof.
  apply (main_absolute_file_name in_tmp (at_home UTF8)
           (mkarguments CmdDisplay "/srv/people.json")); reflexivity.
Defined.

(** X20. What [add] stores, the next run shows. Where [main] loads the
    file it saves and the locale reads text as UTF-8, a run of [add]
    with a zodiac that ends well leaves a file with the new record in
    it, and a run of [display] after it loads that file and shows the
    collection as it was saved. *)
Theorem main_add_then_display (env : environ) (file_name : string)
    (w w1 : world) (surname name zodiac birthday : string) :
  locale env = UTF8 ->
  home_file env file_name = work_file env file_name ->
  main env (mkarguments (CmdAdd surname name (Some zodiac) birthday) file_name) w
  = (Ok tt, w1) ->
  exists saved,
    files w1 !! home_file env file_name = Some (file_of saved)
    /\ In (new_person surname name (Some zodiac) birthday) saved
    /\ validation (JArr saved) = true
    /\ main env (mkarguments CmdDisplay file_name) w1
       = (Ok tt, after w1 [EvRead (work_file env file_name); EvDisplay saved]).
Proof.
  intros Henc Hsame Hrun.
  destruct (main_add_ok _ _ _ _ _ _ _ _ Hrun)
    as (people & sorted & w0 & Hload & Hsort & ->).
  destruct (load_phase_valid _ _ _ _ _ Hload) as (Hval & Hwf & Hfiles).
  pose proof (sort_people_perm _ _ Hsort) as Hperm.
  assert (Hin : In (new_person surname name (Some zodiac) birthday) sorted).
  { eapply Permutation_in; [symmetry; exact Hperm|].
    unfold add_person. apply in_or_app. right. now left. }
  assert (Hwfs : Forall wf_json sorted).
  { eapply Permutation_Forall; [symmetry; exact Hperm|].
    unfold add_person. apply Forall_app. split; [exact Hwf|].
    constructor; [apply wf_json_new_person|constructor]. }
  assert (Hvals : validation (JArr sorted) = true).
  { rewrite (validation_Permutation _ _ Hperm). unfold add_person.
    rewrite validation_array, forallb_app. rewrite validation_array in Hval.
    simpl. now rewrite Hval, person_ok_new_person. }
  exists sorted. cbn [files]. split; [apply lookup_insert_eq|].
  split; [exact Hin|]. split; [exact Hvals|].
  rewrite main_eq, load_phase_eq. cbn [filename files]. fold (home_file env file_name).
  rewrite lookup_insert_eq.
  rewrite (load_people_file env file_name sorted)
    by (cbn [files]; try assumption; rewrite <- Hsame; apply lookup_insert_eq).
  rewrite Henc. cbn [reread]. rewrite Hvals.
  cbn [default from_option]. rewrite command_phase_eq. cbn [arg_command].
  now rewrite after_after.
Qed.

Lemma main_add_then_display_witness :
  exists saved,
    files (stored [roe; doe]
             [EvRead "/home/u/people.json"; EvWrite "/home/u/people.json"])
      !! home_file (at_home UTF8) "people.json" = Some (file_of saved)
    /\ In (new_person "Doe" "Jane" (Some "Leo") "15.03.1990") saved
    /\ validation (JArr saved) = true
    /\ main (at_home UTF8) (mkarguments CmdDisplay "people.json")
         (stored [roe; doe]
            [EvRead "/home/u/people.json"; EvWrite "/home/u/people.json"])
       = (Ok tt,
          after (stored [roe; doe]
                   [EvRead "/home/u/people.json"; EvWrite "/home/u/people.json"])
            [EvRead (work_file (at_home UTF8) "people.json"); EvDisplay saved]).
Proof.
  refine (main_add_then_display (at_home UTF8) "people.json"
            (stored [roe] []) _ "Doe" "Jane" "Leo" "15.03.1990" _ _ _);
    vm_compute; reflexivity.
Defined.

Lemma select_people_keeps (P : json -> Prop) surname (people : list json) :
  forall found,
    Forall P people -> select_people surname people = Ok found -> Forall P found.
Proof.
  induction people as [|i people IH]; intros found Hall; simpl.
  - intros H. injection H as <-. constructor.
  - inversion Hall as [|? ? Hi Hpeople]; subst.
    destruct (get_surname i) as [v|e]; [|discriminate]. simpl.
    destruct (select_people surname people) as [r|e]; [|discriminate]. simpl.
    intros H. injection H as <-.
    destruct (eq_str v surname); [constructor|]; auto.
Qed.

Lemma select_people_valid surname (people : list json) :
  forallb person_ok people = true ->
  exists found,
    select_people surname people = Ok found /\ forallb person_ok found = true.
Proof.
  intros H.
  assert (Hex : exists found, select_people surname people = Ok found).
  { induction people as [|i people IH]; [now eexists|].
    simpl in H. apply andb_true_iff in H as [Hi Hall].
    destruct (IH Hall) as [r Hr]. simpl. rewrite Hr.
    destruct i; try discriminate. simpl.
    destruct (dict_get "surname" members); simpl; now eexists. }
  destruct Hex as [found Hfound]. exists found. split; [exact Hfound|].
  apply forallb_forall. apply List.Forall_forall.
  apply (select_people_keeps (fun p => person_ok p = true) surname people found);
    [|exact Hfound].
  apply List.Forall_forall. now apply forallb_forall.
Qed.

(** X21. What [load_people] returns can be handed to the rest of the
    program without an exception: it passes [validation], so
    [display_people] shows it, [select_people] finds an answer for every
    surname, and [display_people] shows that answer too. *)
Theorem load_people_displayable (env : environ) (file_name : string)
    (w w' : world) (items : list json) (surname : string) :
  load_people env file_name w = (Ok (Some items), w') ->
  validation (JArr items) = true
  /\ snd (Table.display_people items) = Ok tt
  /\ exists found,
       select_people surname items = Ok found
       /\ snd (Table.display_people found) = Ok tt.
Proof.
  intros H. destruct (load_people_some _ _ _ _ _ H) as (Hval & _ & _).
  assert (Hshow : forall people,
            forallb person_ok people = true ->
            snd (Table.display_people people) = Ok tt).
  { intros people Hp.
    destruct (print_rows_valid people 1 Hp) as (rows & Hrows & _).
    destruct people as [|p people]; [reflexivity|].
    unfold Table.display_people, Table.and_then, Table.print.
    now rewrite Hrows. }
  split; [exact Hval|]. rewrite validation_array in Hval.
  split; [now apply Hshow|].
  destruct (select_people_valid surname items Hval) as (found & Hfound & Hok).
  exists found. split; [exact Hfound|now apply Hshow].
Qed.

Lemma load_people_displayable_witness :
  validation (JArr [roe; doe]) = true
  /\ snd (Table.display_people [roe; doe]) = Ok tt
  /\ exists found,
       select_people "Doe" [roe; doe] = Ok found
       /\ snd (Table.display_people found) = Ok tt.
Proof.
  refine (load_people_displayable (at_home UTF8) "people.json"
            (stored [roe; doe] [])
            _ [roe; doe] "Doe" _).
  vm_compute. reflexivity.
Defined.

(** ** The exceptions a run can end with *)

Lemma raises_only_rbind {A B} (P : exn -> Prop) (r : result A) (k : A -> result B) :
  raises_only P r -> (forall a, raises_only P (k a)) -> raises_only P (rbind r k).
Proof. destruct r as [a|e]; simpl; auto. Qed.

Lemma utf8_decode_raises data : raises_only decode_error (utf8_decode data).
Proof.
  assert (Hcons : forall c r, raises_only decode_error r ->
                              raises_only decode_error (cons_text c r)).
  { intros c [t|e] H; exact H. }
  assert (Hbeyond : forall r, raises_only decode_error (beyond r)).
  { intros [t|[]]; simpl; unfold decode_error; auto. }
  assert (Hude : raises_only (A := string) decode_error (Raise UnicodeDecodeError))
    by (now left).
  assert (H : forall n data, (length data <= n)%nat ->
                             raises_only decode_error (utf8_decode data)).
  { clear data. induction n as [|n IH]; intros data Hn.
    - destruct data; [exact I|simpl in Hn; lia].
    - destruct data as [|b data]; [exact I|]. simpl in Hn. cbn [utf8_decode]. cbv zeta.
      destruct (_ <? 128)%N; [apply Hcons, IH; lia|].
      destruct (_ <? 194)%N; [exact Hude|].
      destruct (_ <? 224)%N.
      { destruct data as [|b2 data]; [exact Hude|]. simpl in Hn.
        destruct (is_cont b2); [|exact Hude].
        destruct (_ <? 196)%N; [apply Hcons, IH; lia|apply Hbeyond]. }
      destruct (_ <? 240)%N.
      { destruct data as [|b2 [|b3 data]]; try exact Hude.
        destruct (_ && _); [apply Hbeyond|exact Hude]. }
      destruct (_ <? 245)%N; [|exact Hude].
      destruct data as [|b2 [|b3 [|b4 data]]]; try exact Hude.
      destruct (_ && _); [apply Hbeyond|exact Hude]. }
  apply (H (length data)). lia.
Qed.

Lemma decode_raises enc data : raises_only decode_error (decode enc data).
Proof. destruct enc; [apply utf8_decode_raises|exact I]. Qed.

Lemma scanstring_raises s : raises_only scan_error (scanstring s).
Proof.
  assert (Hcons : forall c r, raises_only scan_error r ->
                              raises_only scan_error (cons_char c r)).
  { intros c [t|e] H; exact H. }
  assert (Hjde : forall A, raises_only (A := A) scan_error (Raise JSONDecodeError))
    by (now left).
  assert (Hom : forall A, raises_only (A := A) scan_error (Raise OutsideModel))
    by (right; now left).
  assert (H : forall n s, (String.length s <= n)%nat ->
                          raises_only scan_error (scanstring s)).
  { clear s. induction n as [|n IH]; intros s Hn.
    - destruct s; [apply Hjde|cbn in Hn; lia].
    - destruct s as [|c s]; [apply Hjde|]. cbn [String.length] in Hn.
      cbn [scanstring].
      destruct (Ascii.eqb c quote); [exact I|].
      destruct (Ascii.eqb c backslash).
      + destruct s as [|e s]; [apply Hjde|]. cbn [String.length] in Hn.
        destruct (Ascii.eqb e "u").
        * destruct s as [|h1 [|h2 [|h3 [|h4 t]]]]; try apply Hjde.
          cbn [String.length] in Hn.
          destruct (hex_value h1), (hex_value h2), (hex_value h3), (hex_value h4);
            try apply Hjde.
          destruct (_ <? 256)%N; [|apply Hom].
          apply Hcons, IH. lia.
        * destruct (unescape e); [|apply Hjde]. apply Hcons, IH. lia.
      + destruct (_ <? 32)%N; [apply Hjde|]. apply Hcons, IH. lia. }
  apply (H (String.length s)). lia.
Qed.

Lemma match_number_raises s : raises_only scan_error (match_number s).
Proof.
  assert (Hd : forall negative t, raises_only scan_error (match_digits negative t)).
  { intros negative t. unfold match_digits, finish_number.
    destruct t as [|c t]; [now left|].
    destruct (Ascii.eqb c "0").
    - destruct (float_tail t); [right; now left|exact I].
    - destruct (in_range "1" "9" c); [|now left].
      destruct (float_tail _); [right; now left|exact I]. }
  unfold match_number. destruct s as [|c s]; [now left|].
  destruct (Ascii.eqb c "-"); apply Hd.
Qed.

Lemma scan_raises fuel :
  (forall s, raises_only scan_error (scan_once fuel s))
  /\ (forall s, raises_only scan_error (scan_items fuel s))
  /\ (forall s, raises_only scan_error (scan_members fuel s)).
Proof.
  assert (Hjde : forall A, raises_only (A := A) scan_error (Raise JSONDecodeError))
    by (now left).
  assert (Hom : forall A, raises_only (A := A) scan_error (Raise OutsideModel))
    by (right; now left).
  induction fuel as [|fuel (IHonce & IHitems & IHmembers)].
  { repeat split; intros s; right; now right. }
  split; [|split]; intros s.
  - cbn [scan_once]. destruct s as [|c s]; [apply Hjde|].
    destruct (Ascii.eqb c quote).
    { apply raises_only_rbind; [apply scanstring_raises|intros; exact I]. }
    destruct (Ascii.eqb c "{").
    { destruct (skip_ws s) as [|c1 s1]; [apply Hjde|].
      destruct (Ascii.eqb c1 "}"); [exact I|].
      apply raises_only_rbind; [apply IHmembers|intros; exact I]. }
    destruct (Ascii.eqb c "[").
    { destruct (skip_ws s) as [|c1 s1]; [apply Hjde|].
      destruct (Ascii.eqb c1 "]"); [exact I|].
      apply raises_only_rbind; [apply IHitems|intros; exact I]. }
    destruct (strip_prefix "null" (String c s)); [exact I|].
    destruct (strip_prefix "true" (String c s)); [exact I|].
    destruct (strip_prefix "false" (String c s)); [exact I|].
    destruct (strip_prefix "NaN" (String c s)); [apply Hom|].
    destruct (strip_prefix "Infinity" (String c s)); [apply Hom|].
    destruct (strip_prefix "-Infinity" (String c s)); [apply Hom|].
    apply match_number_raises.
  - cbn [scan_items]. apply raises_only_rbind; [apply IHonce|].
    intros p. destruct (skip_ws (snd p)) as [|c rest]; [apply Hjde|].
    destruct (Ascii.eqb c "]"); [exact I|].
    destruct (Ascii.eqb c ","); [|apply Hjde].
    apply raises_only_rbind; [apply IHitems|intros; exact I].
  - cbn [scan_members]. destruct s as [|c s]; [apply Hjde|].
    destruct (Ascii.eqb c quote); [|apply Hjde].
    apply raises_only_rbind; [apply scanstring_raises|].
    intros k. destruct (skip_ws (snd k)) as [|c1 s1]; [apply Hjde|].
    destruct (Ascii.eqb c1 ":"); [|apply Hjde].
    apply raises_only_rbind; [apply IHonce|].
    intros p. destruct (skip_ws (snd p)) as [|c2 rest]; [apply Hjde|].
    destruct (Ascii.eqb c2 "}"); [exact I|].
    destruct (Ascii.eqb c2 ","); [|apply Hjde].
    apply raises_only_rbind; [apply IHmembers|intros; exact I].
Qed.

Lemma json_loads_raises text e :
  json_loads text = Raise e -> e = JSONDecodeError \/ e = OutsideModel.
Proof.
  intros H. pose proof (json_loads_no_recursion_error text) as Hrec.
  assert (Hs : raises_only scan_error (json_loads text)).
  { unfold json_loads. apply raises_only_rbind; [apply scan_raises|].
    intros p. destruct (skip_ws (snd p)); [exact I|now left]. }
  rewrite H in Hs, Hrec. simpl in Hs.
  destruct Hs as [Hs|[Hs|Hs]]; subst e; auto. now destruct Hrec.
Qed.

Lemma decorate_raise_inv {A K} (key : A -> result K) (l : list A) e :
  decorate key l = Raise e -> Exists (fun x => key x = Raise e) l.
Proof.
  induction l as [|x l IH]; [discriminate|]. simpl.
  destruct (key x) as [k|e'] eqn:E; simpl.
  - destruct (decorate key l) as [kl|e'']; [discriminate|].
    simpl. intros H. injection H as ->. right. now apply IH.
  - intros H. injection H as ->. now left.
Qed.

Lemma person_ok_tokens p : person_ok p = true -> is_Some (birthday_tokens p).
Proof.
  intros H. apply person_ok_spec in H.
  destruct H as (d & -> & _ & _ & (toks & Hb & Htoks) & _).
  destruct (strings_of_items_strings toks Htoks) as [l Hl].
  exists l. unfold birthday_tokens. now rewrite Hb.
Qed.

Lemma sort_people_raise_tokens people e :
  Forall (fun p => is_Some (birthday_tokens p)) people ->
  sort_people people = Raise e ->
  e = ValueError /\ Exists ill_dated people.
Proof.
  intros Hall H. unfold sort_people, list_sort in H.
  destruct (decorate birthday_key people) as [kl|e'] eqn:E; [discriminate|].
  simpl in H. injection H as ->. apply decorate_raise_inv in E.
  induction Hall as [|p people [toks Hp] _ IH].
  - inversion E.
  - inversion E as [? ? Hk|? ? Hex]; subst.
    + rewrite (birthday_key_tokens _ _ Hp) in Hk.
      destruct (strptime_dmY (join "." toks)) eqn:Ed; [discriminate|].
      injection Hk as <-. split; [reflexivity|]. left. now exists toks.
    + destruct (IH Hex) as [-> Hill]. split; [reflexivity|now right].
Qed.

Lemma added_tokens people surname name zodiac birthday :
  validation (JArr people) = true ->
  Forall (fun p => is_Some (birthday_tokens p))
    (add_person people surname name zodiac birthday).
Proof.
  rewrite validation_array. intros H. unfold add_person. apply Forall_app. split.
  - apply List.Forall_forall. intros p Hp. apply person_ok_tokens.
    now apply (proj1 (forallb_forall _ _) H).
  - constructor; [|constructor]. rewrite birthday_tokens_new_person. now eexists.
Qed.

(** X22. On a collection that passed [validation] the sort after
    [add_person] has one way to fail: [ValueError], raised for a record
    whose birthday is no date, be it the new one or one that was loaded.
    The records have the keys and the types the sort key reaches for, so
    it raises neither [KeyError] nor [TypeError]. *)
Theorem sort_people_valid_error (people : list json) (surname name : string)
    (zodiac : option string) (birthday : string) (e : exn) :
  validation (JArr people) = true ->
  sort_people (add_person people surname name zodiac birthday) = Raise e ->
  e = ValueError
  /\ Exists ill_dated (add_person people surname name zodiac birthday).
Proof.
  intros Hval. apply sort_people_raise_tokens. now apply added_tokens.
Qed.

Lemma sort_people_valid_error_witness :
  ValueError = ValueError
  /\ Exists ill_dated (add_person [doe] "Roe" "Rick" None "1980").
Proof.
  apply (sort_people_valid_error [doe] "Roe" "Rick" None "1980" ValueError);
    reflexivity.
Defined.

(** The exceptions of a run in the model: those of the load, and
    [ValueError] from the sort of an [add] run. *)
Lemma main_raises (env : environ) (args : arguments) (w : world) (e : exn) :
  fst (main env args w) = Raise e ->
  (e = FileNotFoundError
   /\ files w !! work_file env (filename args) = None
   /\ is_Some (files w !! home_file env (filename args)))
  \/ e = UnicodeDecodeError \/ e = JSONDecodeError
  \/ e = OutsideModel
  \/ (e = ValueError /\ is_add (arg_command args) = true).
Proof.
  rewrite main_eq.
  destruct (load_phase env args w) as [[people|e'] w0] eqn:El.
  - destruct (load_phase_valid _ _ _ _ _ El) as (Hval & _ & _).
    rewrite command_phase_eq.
    destruct (arg_command args) as [s n z b| |q].
    + destruct (sort_people _) as [sorted|e'] eqn:Es; [discriminate|].
      simpl. intros H. injection H as ->.
      destruct (sort_people_raise_tokens _ _ (added_tokens _ s n z b Hval) Es)
        as [-> _].
      tauto.
    + discriminate.
    + rewrite validation_array in Hval.
      destruct (select_people_valid q people Hval) as (found & -> & _). discriminate.
  - simpl. intros H. injection H as ->. revert El.
    unfold home_file, work_file.
    rewrite load_phase_eq. destruct (files w !! _) as [old|] eqn:Eh; [|discriminate].
    rewrite load_people_eq. cbn zeta.
    destruct (files w !! path_join (cwd env) (filename args)) as [data|] eqn:Ew.
    + pose proof (decode_raises (locale env) data) as Hd.
      destruct (decode (locale env) data) as [text|e']; simpl.
      * destruct (json_loads text) as [doc|e'] eqn:Ej.
        -- destruct (validation doc); [destruct doc|]; discriminate.
        -- intros H. injection H as <- _.
           destruct (json_loads_raises _ _ Ej) as [Hj|Hj]; subst e'; tauto.
      * intros H. injection H as <- _. destruct Hd as [Hd|Hd]; subst e'; tauto.
    + intros H. injection H as <- _. left. repeat split. now exists old.
Qed.

Lemma display_people_ok (people : list json) :
  forallb person_ok people = true -> snd (Table.display_people people) = Ok tt.
Proof.
  intros Hp. destruct (print_rows_valid people 1 Hp) as (rows & Hrows & _).
  destruct people as [|p people]; [reflexivity|].
  unfold Table.display_people, Table.and_then, Table.print.
  now rewrite Hrows.
Qed.

(** The load shows nothing. *)
Lemma load_phase_shows_nothing env args w :
  exists evs,
    snd (load_phase env args w) = after w evs
    /\ forall shown, ~ In (EvDisplay shown) evs.
Proof.
  assert (Hnil : after w [] = w).
  { unfold after. rewrite app_nil_r. now destruct w. }
  rewrite load_phase_eq.
  destruct (files w !! _) as [old|].
  2:{ exists []. split; [now rewrite Hnil|]. intros shown []. }
  rewrite load_people_eq. cbn zeta.
  assert (Hread : forall path shown, ~ In (EvDisplay shown) [EvRead path]).
  { intros path shown [H|[]]. discriminate. }
  assert (Hmsg : forall path shown,
            ~ In (EvDisplay shown) [EvRead path; EvMessage]).
  { intros path shown [H|[H|[]]]; discriminate. }
  destruct (files w !! _) as [data|].
  2:{ exists []. split; [now rewrite Hnil|]. intros shown []. }
  destruct (decode (locale env) data) as [text|e]; [|now eexists].
  destruct (json_loads text) as [doc|e]; [|now eexists].
  destruct (validation doc); [destruct doc|]; now eexists.
Qed.

(** X23. Run on the arguments of a subcommand, [main] never ends with
    [KeyError], [TypeError] or [AttributeError]: the sort and
    [select_people] reach into the records for keys and call [get] on
    them, and they only ever get a collection that passed [validation],
    with the record [add_person] made. For the same reason every
    collection a run hands to [display_people] is one whose table is
    formatted without an exception. *)
Theorem main_exceptions (env : environ) (args : arguments) (w : world) :
  (forall e, fst (main env args w) = Raise e ->
     e <> KeyError /\ e <> TypeError /\ e <> AttributeError)
  /\ exists evs,
       events (snd (main env args w)) = (events w ++ evs)%list
       /\ forall shown, In (EvDisplay shown) evs ->
            snd (Table.display_people shown) = Ok tt.
Proof.
  split.
  { intros e H. apply main_raises in H.
    destruct H as [[-> _]|[->|[->|[->|[-> _]]]]]; repeat split; discriminate. }
  destruct (load_phase_shows_nothing env args w) as (evs1 & Hw1 & Hevs1).
  rewrite main_eq.
  destruct (load_phase env args w) as [[people|e] w1] eqn:El;
    simpl in Hw1; subst w1.
  2:{ exists evs1. split; [reflexivity|]. intros shown H. now apply Hevs1 in H. }
  destruct (load_phase_valid _ _ _ _ _ El) as (Hval & _ & _).
  rewrite validation_array in Hval.
  assert (Hnone : forall r : result unit,
            exists evs,
              events (snd (r, after w evs1)) = (events w ++ evs)%list
              /\ forall shown, In (EvDisplay shown) evs ->
                   snd (Table.display_people shown) = Ok tt).
  { intros r. exists evs1. split; [reflexivity|].
    intros shown H. now apply Hevs1 in H. }
  assert (Hone : forall shown : list json,
            forallb person_ok shown = true ->
            exists evs,
              events (snd (Ok tt, after (after w evs1) [EvDisplay shown]))
              = (events w ++ evs)%list
              /\ forall shown', In (EvDisplay shown') evs ->
                   snd (Table.display_people shown') = Ok tt).
  { intros shown Hok. exists (evs1 ++ [EvDisplay shown])%list.
    split; [cbn [snd events after]; now rewrite app_assoc|].
    intros shown' H. apply in_app_or in H as [H|[H|[]]].
    - now apply Hevs1 in H.
    - injection H as <-. now apply display_people_ok. }
  rewrite command_phase_eq.
  destruct (arg_command args) as [s n z b| |q].
  - destruct (sort_people _) as [sorted|e]; [|apply Hnone].
    rewrite save_people_eq. cbn [snd events after].
    exists (evs1 ++ [EvWrite (path_join (cwd env)
                                (path_join (home env) (filename args)))])%list.
    split; [now rewrite app_assoc|].
    intros shown H. apply in_app_or in H as [H|[H|[]]].
    + now apply Hevs1 in H.
    + discriminate.
  - now apply Hone.
  - destruct (select_people_valid q people Hval) as (found & -> & Hok).
    now apply Hone.
Qed.

(** ** The commands on a stored collection *)

Lemma select_people_matches surname (people : list json) :
  forallb person_ok people = true ->
  select_people surname people = Ok (List.filter (surname_isb surname) people).
Proof.
  induction people as [|p people IH]; [reflexivity|].
  simpl. intros H. apply andb_true_iff in H as [Hp Hall].
  rewrite (IH Hall). apply person_ok_spec in Hp.
  destruct Hp as (d & -> & (s & Hs) & _). simpl. now rewrite Hs.
Qed.

(** A stored collection as [load_people] hands it to [main]. *)
Lemma load_phase_stored env file_name cmd people w :
  is_Some (files w !! home_file env file_name) ->
  files w !! work_file env file_name = Some (file_of people) ->
  Forall wf_json people ->
  validation (JArr people) = true ->
  locale env = UTF8 \/ forallb ascii_json people = true ->
  load_phase env (mkarguments cmd file_name) w
  = (Ok people, after w [EvRead (work_file env file_name)]).
Proof.
  unfold home_file. intros [old Hold] Hfile Hwf Hval Henc.
  rewrite load_phase_eq. cbn [filename]. rewrite Hold.
  rewrite (load_people_file env file_name people) by assumption.
  assert (Hre : reread (locale env) people = people).
  { destruct Henc as [->|Hascii]; [reflexivity|now apply reread_ascii]. }
  now rewrite Hre, Hval.
Qed.

(** X24. On a stored collection that passes [validation], with the
    UTF-8 locale, [display] shows the collection as it is stored and
    [select] shows the records with the surname asked for, in the order
    they are stored; neither writes a file. *)
Theorem main_shows_stored (env : environ) (file_name : string)
    (people : list json) (w : world) (query : string) :
  is_Some (files w !! home_file env file_name) ->
  files w !! work_file env file_name = Some (file_of people) ->
  Forall wf_json people ->
  validation (JArr people) = true ->
  locale env = UTF8 ->
  main env (mkarguments CmdDisplay file_name) w
  = (Ok tt, after w [EvRead (work_file env file_name); EvDisplay people])
  /\ main env (mkarguments (CmdSelect query) file_name) w
     = (Ok tt, after w [EvRead (work_file env file_name);
                        EvDisplay (List.filter (surname_isb query) people)]).
Proof.
  intros Hhome Hfile Hwf Hval Henc.
  split; rewrite main_eq, (load_phase_stored env file_name _ people w)
    by (try assumption; now left);
    rewrite command_phase_eq; cbn [arg_command].
  - now rewrite after_after.
  - rewrite validation_array in Hval.
    now rewrite (select_people_matches query people Hval), after_after.
Qed.

Lemma main_shows_stored_witness :
  main (at_home UTF8) (mkarguments CmdDisplay "people.json")
    (stored [roe; doe] [])
  = (Ok tt,
     after (stored [roe; doe] [])
       [EvRead (work_file (at_home UTF8) "people.json"); EvDisplay [roe; doe]])
  /\ main (at_home UTF8) (mkarguments (CmdSelect "Doe") "people.json")
       (stored [roe; doe] [])
     = (Ok tt,
        after (stored [roe; doe] [])
          [EvRead (work_file (at_home UTF8) "people.json");
           EvDisplay (List.filter (surname_isb "Doe") [roe; doe])]).
Proof.
  apply (main_shows_stored (at_home UTF8) "people.json" [roe; doe]).
  - now eexists.
  - reflexivity.
  - repeat (constructor; [apply wf_json_new_person|]). constructor.
  - reflexivity.
  - reflexivity.
Defined.

(** X25. On a stored collection that passes [validation] and is in
    the order of the birthdays, [add] with a well-formed birthday writes
    the collection with the new record in its place: behind the records
    born on that day or before, in front of those born later. *)
Theorem main_add_stored (env : environ) (file_name : string)
    (people : list json) (w : world) (surname name : string)
    (zodiac : option string) (birthday : string) (date : datetime) :
  is_Some (files w !! home_file env file_name) ->
  files w !! work_file env file_name = Some (file_of people) ->
  Forall wf_json people ->
  validation (JArr people) = true ->
  locale env = UTF8 \/ forallb ascii_json people = true ->
  sort_people people = Ok people ->
  strptime_dmY birthday = Some date ->
  main env (mkarguments (CmdAdd surname name zodiac birthday) file_name) w
  = (Ok tt,
     mkworld
       (<[home_file env file_name
          := file_of (List.filter (fun p => negb (born_after date p)) people
                      ++ new_person surname name zodiac birthday
                         :: List.filter (born_after date) people)]> (files w))
       (events w ++ [EvRead (work_file env file_name);
                     EvWrite (home_file env file_name)])).
Proof.
  intros Hhome Hfile Hwf Hval Henc Hsorted Hdate.
  rewrite main_eq, (load_phase_stored env file_name _ people w) by assumption.
  rewrite command_phase_eq. cbn [arg_command filename].
  assert (Hs : sort_people (add_person people surname name zodiac birthday)
               = Ok (List.filter (fun p => negb (born_after date p)) people
                     ++ new_person surname name zodiac birthday
                        :: List.filter (born_after date) people)%list).
  { unfold add_person, born_after.
    apply (list_sort_snoc birthday_key datetime_ltb).
    - exact datetime_ltb_asym.
    - exact datetime_ltb_neg_trans.
    - exact Hsorted.
    - now rewrite birthday_key_added, Hdate. }
  rewrite Hs, save_people_eq. unfold after, home_file. cbn [files events].
  now rewrite <- app_assoc.
Qed.

Lemma main_add_stored_witness :
  main (at_home UTF8)
    (mkarguments (CmdAdd "Poe" "Ed" None "01.01.1980") "people.json")
    (stored [roe; doe] [])
  = (Ok tt,
     mkworld
       (<[home_file (at_home UTF8) "people.json"
          := file_of [roe; new_person "Poe" "Ed" None "01.01.1980"; doe]]>
          {[ "/home/u/people.json" := file_of [roe; doe] ]})
       [EvRead (work_file (at_home UTF8) "people.json");
        EvWrite (home_file (at_home UTF8) "people.json")]).
Proof.
  refine (main_add_stored (at_home UTF8) "people.json" [roe; doe]
            (stored [roe; doe] [])
            "Poe" "Ed" None "01.01.1980" (mkdatetime 1980 1 1) _ _ _ _ _ _ _);
    try reflexivity.
  - now eexists.
  - repeat (constructor; [apply wf_json_new_person|]). constructor.
  - now left.
Defined.
